(** * Identity and data-governance core of the Dudley Life Optimizer

    A shallow embedding of [src/security/auth.py] (JWTManager,
    AuthenticationManager, [require_auth]) and
    [src/security/data_protection.py] (DataProtectionManager,
    PrivacyControls), with the properties of the specification stated and
    settled over it, and further properties of the code after them.

    Records coming from the store are Python dictionaries: they are
    modelled as finite maps from column names to values.  The store itself
    (the Supabase client) is a map from table names to lists of rows; each
    request to it may raise, which is modelled by a plan of faults that the
    requests consume one by one.

    Conventions of the embedding:
    - [datetime.utcnow()] is the parameter [now] of an operation, an
      instant in seconds; timestamps in rows and claims are such instants.
    - An exception is the result [None] of a computation; [try]/[except]
      is [try_except].  Every handler of the source catches [Exception],
      so the kind of exception is not recorded.
    - The loggers append to the [log] of the world; messages keep their
      fixed text and the names they mention, not the text of the
      exception or the counts.
    - bcrypt, Fernet, TOTP, SHA-256 and [json.dumps] are parameters of the
      sections that use them; so are [str] on a value, the character
      classes of [str] and the reading of a token from its compact form. *)

From Stdlib Require Import ZArith.
From stdpp Require Import gmap strings list fin_maps sorting pretty.

Open Scope string_scope.
Open Scope list_scope.
Open Scope Z_scope.

(** ** Values and rows *)

(** The values a column or a token claim holds: [None], booleans, integers
    (also used for instants, counted in seconds), strings and lists of
    strings (role lists). *)
Inductive value :=
  | VNull
  | VBool (b : bool)
  | VInt (n : Z)
  | VStr (s : string)
  | VStrs (l : list string).

#[global] Instance value_eq_dec : EqDecision value.
Proof. solve_decision. Defined.

#[global] Instance value_countable : Countable value.
Proof.
  refine (inj_countable'
    (λ v, match v with
          | VNull => inl ()
          | VBool b => inr (inl b)
          | VInt n => inr (inr (inl n))
          | VStr s => inr (inr (inr (inl s)))
          | VStrs l => inr (inr (inr (inr l)))
          end)
    (λ x, match x with
          | inl _ => VNull
          | inr (inl b) => VBool b
          | inr (inr (inl n)) => VInt n
          | inr (inr (inr (inl s))) => VStr s
          | inr (inr (inr (inr l))) => VStrs l
          end) _).
  by intros [].
Defined.

(** A row of a table, and the payload of a token: a Python [dict]. *)
Abbreviation row := (gmap string value).

(** Python truthiness, as used by [if user.get(...)] and [if not x]. *)
Definition truthy (v : value) : bool :=
  match v with
  | VNull => false
  | VBool b => b
  | VInt n => negb (n =? 0)
  | VStr s => negb (String.eqb s "")
  | VStrs l => negb (bool_decide (l = []))
  end.

(** [d.get(k, default)]. *)
Definition get (d : row) (k : string) (dflt : value) : value :=
  default dflt (d !! k).

(** ** The world: store, pending faults, log *)

Inductive log_entry :=
  | LogAuthAttempt (email : string) (success : bool) (ip user_agent : string)
  | LogSecurityEvent (event_type : string) (user_id : value) (ip : string)
  | LogInfo (message : string)
  | LogError (message : string).

Record world := World {
  db : gmap string (list row);
  faults : list bool;
  log : list log_entry
}.

#[global] Instance log_entry_eq_dec : EqDecision log_entry.
Proof. solve_decision. Defined.

#[global] Instance world_eq_dec : EqDecision world.
Proof. solve_decision. Defined.

(** The rows of a table; a table never written to is empty. *)
Definition table (d : gmap string (list row)) (t : string) : list row :=
  default [] (d !! t).

(** ** Computations that may raise

    [None] as a result stands for an exception propagating out of the
    computation; the world reached so far is kept. *)
Definition M (A : Type) : Type := world → option A * world.

#[global] Instance M_ret : MRet M := λ A a w, (Some a, w).
#[global] Instance M_bind : MBind M := λ A B f m w,
  match m w with
  | (Some a, w') => f a w'
  | (None, w') => (None, w')
  end.

Definition raise {A} : M A := λ w, (None, w).

(** [try: body  except Exception: handler]. *)
Definition try_except {A} (body handler : M A) : M A := λ w,
  match body w with
  | (Some a, w') => (Some a, w')
  | (None, w') => handler w'
  end.

(** [d[k]]: raises [KeyError] when the key is absent. *)
Definition item (d : row) (k : string) : M value :=
  match d !! k with
  | Some v => mret v
  | None => raise
  end.

Definition write_log (e : log_entry) : M unit := λ w,
  (Some (), {| db := db w; faults := faults w; log := log w ++ [e] |}).

(** ** The store

    Every request ([.execute()]) consumes the head of the fault plan and
    raises when it is [true]; an exhausted plan means no more faults. *)
Definition execute {A} (f : gmap string (list row) → A * gmap string (list row))
  : M A := λ w,
  if default false (head (faults w)) then
    (None, {| db := db w; faults := tail (faults w); log := log w |})
  else
    let '(a, d) := f (db w) in
    (Some a, {| db := d; faults := tail (faults w); log := log w |}).

(** Filters of a request: [.eq(col, v)] and [.lt(col, c)]. *)
Inductive cond :=
  | Eq (col : string) (v : value)
  | Lt (col : string) (c : Z).

Definition matches (c : cond) (r : row) : bool :=
  match c with
  | Eq col v => bool_decide (r !! col = Some v)
  | Lt col c =>
      match r !! col with
      | Some (VInt t) => bool_decide (t < c)
      | _ => false
      end
  end.

(** The columns of a [.select(...)]. *)
Inductive columns :=
  | AllColumns
  | Columns (cs : list string).

Definition project (cs : columns) (r : row) : row :=
  match cs with
  | AllColumns => r
  | Columns l => filter (λ kv, bool_decide (kv.1 ∈ l)) r
  end.

Definition store_select (t : string) (cs : columns) (c : cond) : M (list row) :=
  execute (λ d, (project cs <$> List.filter (matches c) (table d t), d)).

Definition store_insert (t : string) (r : row) : M unit :=
  execute (λ d, ((), <[t := table d t ++ [r]]> d)).

(** [.update(patch)]: the keys of the patch overwrite those of the row. *)
Definition store_update (t : string) (patch : row) (c : cond) : M unit :=
  execute (λ d,
    ((), alter (fmap (λ r, if matches c r then patch ∪ r else r)) t d)).

Definition store_delete (t : string) (c : cond) : M unit :=
  execute (λ d, ((), alter (List.filter (λ r, negb (matches c r))) t d)).

(** ** JWTManager *)

Module SecurityConfig.
Definition JWT_ACCESS_TOKEN_EXPIRES : Z := 3600.
Definition JWT_REFRESH_TOKEN_EXPIRES : Z := 30 * 86400.
End SecurityConfig.

(** A signed token: its claims and the key it was signed with.  Signing is
    taken as ideal: a token verifies exactly under the key that made it. *)
Record token := Token {
  claims : row;
  signed_with : string
}.

Record token_dict := TokenDict {
  access_token : token;
  refresh_token : token;
  expires_in : Z
}.

Section JWTManager.
Variable secret_key : string.

Definition jwt_encode (payload : row) (key : string) : token :=
  {| claims := payload; signed_with := key |}.

(** The check [jwt.decode] makes of one registered claim that holds an
    instant: [Some true] when the claim is absent or passes, [Some false]
    when it fails.  The claims this class signs hold integer instants; a
    claim of another kind is refused ([None]). *)
Definition check_instant (payload : row) (claim : string) (ok : Z → bool)
  : option bool :=
  match payload !! claim with
  | None => Some true
  | Some (VInt i) => Some (ok i)
  | Some _ => None
  end.

(** [jwt.decode]: [None] stands for [ExpiredSignatureError],
    [ImmatureSignatureError] and the other [InvalidTokenError]s alike.  A
    token is not yet valid when its [iat] is later than [now], and has
    expired when [exp <= now]. *)
Definition jwt_decode (now : Z) (t : token) (key : string) : option row :=
  if bool_decide (signed_with t = key) then
    match check_instant (claims t) "iat" (λ iat, bool_decide (iat ≤ now)),
          check_instant (claims t) "exp" (λ exp, bool_decide (now < exp)) with
    | Some true, Some true => Some (claims t)
    | _, _ => None
    end
  else None.

Definition generate_tokens (now : Z) (user_id email roles : value) : token_dict :=
  let access_payload : row :=
    <["user_id" := user_id]> (<["email" := email]> (<["roles" := roles]>
    (<["type" := VStr "access"]> (<["iat" := VInt now]>
    {["exp" := VInt (now + SecurityConfig.JWT_ACCESS_TOKEN_EXPIRES)]})))) in
  let refresh_payload : row :=
    <["user_id" := user_id]> (<["email" := email]>
    (<["type" := VStr "refresh"]> (<["iat" := VInt now]>
    {["exp" := VInt (now + SecurityConfig.JWT_REFRESH_TOKEN_EXPIRES)]}))) in
  {| access_token := jwt_encode access_payload secret_key;
     refresh_token := jwt_encode refresh_payload secret_key;
     expires_in := SecurityConfig.JWT_ACCESS_TOKEN_EXPIRES |}.

Definition verify_token (now : Z) (t : token) : option row :=
  jwt_decode now t secret_key.

(** [payload['user_id']] and [payload['email']] raise [KeyError] when the
    claim is absent; that exception leaves the function (outer [None]).
    The inner [None] is the [return None] of the source. *)
Definition refresh_access_token (now : Z) (t : token) : option (option token) :=
  match verify_token now t with
  | None => Some None
  | Some payload =>
      if bool_decide (payload !! "type" ≠ Some (VStr "refresh")) then Some None
      else
        match payload !! "user_id", payload !! "email" with
        | Some uid, Some em =>
            let access_payload : row :=
              <["user_id" := uid]> (<["email" := em]>
              (<["roles" := get payload "roles" (VStrs [])]>
              (<["type" := VStr "access"]> (<["iat" := VInt now]>
              {["exp" := VInt (now + SecurityConfig.JWT_ACCESS_TOKEN_EXPIRES)]})))) in
            Some (Some (jwt_encode access_payload secret_key))
        | _, _ => None
        end
  end.
End JWTManager.

(** ** AuthenticationManager *)

Record user_info := UserInfo {
  ui_id : value;
  ui_email : value;
  ui_full_name : value;
  ui_roles : value
}.

(** The three shapes of the dictionary [authenticate_user] returns:
    [{'success': False, 'error': e}],
    [{'success': False, 'error': e, 'requires_mfa': True}] and
    [{'success': True, 'user': u, 'tokens': t}]. *)
Inductive auth_result :=
  | AuthFailure (error : string)
  | AuthMfaRequired (error : string)
  | AuthSuccess (user : user_info) (tokens : token_dict).

Section AuthenticationManager.
Variable secret_key : string.
(** The request context: [request.remote_addr] and the User-Agent header. *)
Variables remote_addr user_agent : string.
(** [bcrypt.checkpw], [Fernet.decrypt] (both may raise) and
    [pyotp.TOTP(secret).verify(token, valid_window=1)]. *)
Variable checkpw : string → string → option bool.
Variable fernet_decrypt : string → option string.
Variable totp_verify : string → string → bool.

Definition log_auth_attempt (email : string) (success : bool) : M unit :=
  write_log (LogAuthAttempt email success remote_addr user_agent).

Definition log_security_event (event_type : string) (user_id : value) : M unit :=
  write_log (LogSecurityEvent event_type user_id remote_addr).

(** [DataEncryption.verify_password]: [hashed.encode(...)] needs a string. *)
Definition verify_password (password : string) (hashed : value) : M bool :=
  match hashed with
  | VStr h => match checkpw password h with Some b => mret b | None => raise end
  | _ => raise
  end.

(** [DataEncryption.decrypt]. *)
Definition decrypt (encrypted_data : value) : M string :=
  match encrypted_data with
  | VStr c => match fernet_decrypt c with Some s => mret s | None => raise end
  | _ => raise
  end.

(** [v + 1] on a Python value: integers (and booleans, which are
    integers) add, anything else is a [TypeError]. *)
Definition plus_one (v : value) : M Z :=
  match v with
  | VInt n => mret (n + 1)
  | VBool b => mret (Z.b2z b + 1)
  | _ => raise
  end.

(** [not mfa_token]: no token, or the empty string. *)
Definition token_missing (mfa_token : option string) : bool :=
  match mfa_token with
  | None => true
  | Some s => String.eqb s ""
  end.

Definition invalid_credentials : auth_result :=
  AuthFailure "Invalid credentials".
Definition account_is_locked : auth_result :=
  AuthFailure "Account is locked due to multiple failed login attempts".
Definition mfa_token_required : auth_result :=
  AuthMfaRequired "MFA token required".
Definition invalid_mfa_token : auth_result :=
  AuthFailure "Invalid MFA token".
Definition system_error : auth_result :=
  AuthFailure "Authentication failed due to system error".

(** The dictionary sent to the store after a wrong password. *)
Definition failed_login_update (failed_attempts : Z) : row :=
  let update_data : row := {["failed_login_attempts" := VInt failed_attempts]} in
  if bool_decide (5 ≤ failed_attempts)
  then <["account_locked" := VBool true]> update_data
  else update_data.

(** The MFA block of [authenticate_user]: [Some r] when it returns [r],
    [None] when control falls through to the success path. *)
Definition check_mfa (user : row) (email : string) (mfa_token : option string)
  : M (option auth_result) :=
  if truthy (get user "mfa_enabled" (VBool false)) then
    if token_missing mfa_token then mret (Some mfa_token_required)
    else
      enc ← item user "mfa_secret";
      decrypted_secret ← decrypt enc;
      if negb (totp_verify decrypted_secret (default "" mfa_token)) then
        uid ← item user "id";
        _ ← log_security_event "MFA_FAILURE" uid;
        mret (Some invalid_mfa_token)
      else mret None
  else mret None.

Definition authenticate_user (now : Z) (email password : string)
    (mfa_token : option string) : M auth_result :=
  try_except
    (result ← store_select "users" AllColumns (Eq "email" (VStr email));
     match result with
     | [] =>
         _ ← log_auth_attempt email false;
         mret invalid_credentials
     | user :: _ =>
         if truthy (get user "account_locked" (VBool false)) then
           mret account_is_locked
         else
           hashed ← item user "password_hash";
           ok ← verify_password password hashed;
           if negb ok then
             failed_attempts ← plus_one (get user "failed_login_attempts" (VInt 0));
             uid ← item user "id";
             _ ← store_update "users" (failed_login_update failed_attempts)
                   (Eq "id" uid);
             _ ← log_auth_attempt email false;
             mret invalid_credentials
           else
             early ← check_mfa user email mfa_token;
             match early with
             | Some r => mret r
             | None =>
                 uid ← item user "id";
                 _ ← store_update "users"
                       (<["failed_login_attempts" := VInt 0]>
                          {["last_login" := VInt now]})
                       (Eq "id" uid);
                 uid ← item user "id";
                 em ← item user "email";
                 let tokens :=
                   generate_tokens secret_key now uid em
                     (get user "roles" (VStrs ["user"])) in
                 _ ← log_auth_attempt email true;
                 full_name ← item user "full_name";
                 mret (AuthSuccess
                         {| ui_id := uid; ui_email := em;
                            ui_full_name := full_name;
                            ui_roles := get user "roles" (VStrs ["user"]) |}
                         tokens)
             end
     end)
    (_ ← log_security_event "AUTH_ERROR" (VStr "unknown");
     mret system_error).
End AuthenticationManager.

(** ** DataProtectionManager *)

Inductive DataClassification := PUBLIC | INTERNAL | CONFIDENTIAL | RESTRICTED.

Definition classification_value (c : DataClassification) : string :=
  match c with
  | PUBLIC => "public"
  | INTERNAL => "internal"
  | CONFIDENTIAL => "confidential"
  | RESTRICTED => "restricted"
  end.

Inductive ConsentType := ESSENTIAL | ANALYTICS | MARKETING | PERSONALIZATION | THIRD_PARTY.

Definition consent_type_value (c : ConsentType) : string :=
  match c with
  | ESSENTIAL => "essential"
  | ANALYTICS => "analytics"
  | MARKETING => "marketing"
  | PERSONALIZATION => "personalization"
  | THIRD_PARTY => "third_party"
  end.

Record DataRetentionPolicy := Policy {
  data_type : string;
  retention_period_days : Z;
  classification : DataClassification;
  auto_delete : bool;
  archive_before_delete : bool
}.

Record ConsentRecord := Consent {
  user_id : string;
  consent_type : ConsentType;
  granted : bool;
  timestamp : Z;
  ip_address : string;
  user_agent : string;
  version : string
}.

(** [self.retention_policies], in the order the dictionary is built. *)
Definition retention_policies : list (string * DataRetentionPolicy) :=
  [ ("journal_entries", Policy "journal_entries" 2555 CONFIDENTIAL true true);
    ("health_metrics", Policy "health_metrics" 2555 CONFIDENTIAL true true);
    ("business_activities", Policy "business_activities" 2555 CONFIDENTIAL true true);
    ("productivity_sessions", Policy "productivity_sessions" 1095 INTERNAL true true);
    ("ai_interactions", Policy "ai_interactions" 365 INTERNAL true true);
    ("audit_logs", Policy "audit_logs" 2555 RESTRICTED false true);
    ("user_sessions", Policy "user_sessions" 90 INTERNAL true true) ].

Definition tables_to_export : list string :=
  [ "user_profiles"; "journal_entries"; "health_metrics"; "business_activities";
    "productivity_sessions"; "goals"; "ai_interactions"; "user_consents" ].

Definition tables_to_delete : list string :=
  [ "ai_interactions"; "productivity_sessions"; "business_activities";
    "health_metrics"; "journal_entries"; "goals"; "user_consents";
    "user_profiles" ].

(** The dictionary [export_user_data] builds. *)
Record export_bundle := Bundle {
  bundle_user_id : string;
  export_timestamp : Z;
  data : gmap string (list row)
}.

Definition seconds_per_day : Z := 86400.

Definition get_data_classification (dt : string) : DataClassification :=
  match (list_to_map retention_policies : gmap string DataRetentionPolicy) !! dt with
  | Some policy => classification policy
  | None => INTERNAL
  end.

(** The row [record_consent] writes for a consent record. *)
Definition consent_row (c : ConsentRecord) : row :=
  <["user_id" := VStr (user_id c)]>
  (<["consent_type" := VStr (consent_type_value (consent_type c))]>
  (<["granted" := VBool (granted c)]>
  (<["timestamp" := VInt (timestamp c)]>
  (<["ip_address" := VStr (ip_address c)]>
  (<["user_agent" := VStr (user_agent c)]>
  {["version" := VStr (version c)]}))))).

(** [.order(col, desc=True)]: the rows by decreasing [col]; rows whose
    [col] is not an instant come first, as nulls do. *)
Definition sort_key (col : string) (r : row) : option Z :=
  match r !! col with
  | Some (VInt t) => Some t
  | _ => None
  end.

Definition key_ge (a b : option Z) : bool :=
  match a, b with
  | None, _ => true
  | Some _, None => false
  | Some x, Some y => bool_decide (y ≤ x)
  end.

Definition desc_by (col : string) (r1 r2 : row) : Prop :=
  key_ge (sort_key col r1) (sort_key col r2).

#[global] Instance desc_by_dec col r1 r2 : Decision (desc_by col r1 r2).
Proof. unfold desc_by. apply _. Defined.

Definition store_select_desc (t : string) (cs : columns) (c : cond)
    (order_col : string) : M (list row) :=
  execute (λ d,
    (project cs <$> merge_sort (desc_by order_col)
                      (List.filter (matches c) (table d t)), d)).

Section DataProtectionManager.
(** [json.dumps] on an exported bundle ([None] is the empty dictionary)
    and on a row; they raise on a value that does not serialise. *)
Variable json_dumps_export : bool → option export_bundle → option string.
Variable json_dumps_row : row → option string.
Variable fernet_encrypt : string → string.
Variable sha256_hex : string → string.

Definition dumps_export (sort_keys : bool) (b : option export_bundle) : M string :=
  match json_dumps_export sort_keys b with
  | Some s => mret s
  | None => raise
  end.

Definition dumps_row (r : row) : M string :=
  match json_dumps_row r with
  | Some s => mret s
  | None => raise
  end.

(** The dictionary [log_data_access] builds. *)
Definition audit_record (now : Z) (uid dt action ip ua details : string) : row :=
  <["user_id" := VStr uid]> (<["data_type" := VStr dt]>
  (<["action" := VStr action]> (<["ip_address" := VStr ip]>
  (<["user_agent" := VStr ua]> (<["details" := VStr details]>
  (<["timestamp" := VInt now]>
  {["classification" :=
      VStr (classification_value (get_data_classification dt))]})))))).

Definition log_data_access (now : Z) (uid dt action ip ua details : string)
  : M unit :=
  try_except
    (_ ← store_insert "audit_logs"
           (audit_record now uid dt action ip ua details);
     write_log (LogInfo ("Data access logged: " +:+ uid +:+ " - " +:+ action
                         +:+ " - " +:+ dt)))
    (write_log (LogError "Failed to log data access")).

Definition record_consent (now : Z) (uid : string) (ct : ConsentType)
    (g : bool) (ip ua : string) : M bool :=
  let consent_record := consent_row (Consent uid ct g now ip ua "1.0") in
  try_except
    (_ ← store_insert "user_consents" consent_record;
     _ ← write_log (LogInfo ("Consent recorded: " +:+ uid +:+ " - "
                             +:+ consent_type_value ct));
     mret true)
    (_ ← write_log (LogError "Failed to record consent");
     mret false).

(** A dictionary key must be hashable: a list is not ([TypeError]). *)
Definition dict_key (v : value) : M value :=
  match v with
  | VStrs _ => raise
  | _ => mret v
  end.

(** The loop of [get_user_consents] over [result.data]. *)
Fixpoint latest_consents (records : list row) (consents : gmap value value)
  : M (gmap value value) :=
  match records with
  | [] => mret consents
  | record :: rest =>
      ct ← item record "consent_type";
      k ← dict_key ct;
      match consents !! k with
      | Some _ => latest_consents rest consents
      | None =>
          g ← item record "granted";
          latest_consents rest (<[k := g]> consents)
      end
  end.

Definition get_user_consents (uid : string) : M (gmap value value) :=
  try_except
    (result ← store_select_desc "user_consents"
                (Columns ["consent_type"; "granted"])
                (Eq "user_id" (VStr uid)) "timestamp";
     latest_consents result ∅)
    (_ ← write_log (LogError "Failed to get user consents");
     mret ∅).

(** The loop of [export_user_data] over [tables_to_export]. *)
Fixpoint export_tables (uid : string) (tables : list string)
    (acc : gmap string (list row)) : M (gmap string (list row)) :=
  match tables with
  | [] => mret acc
  | t :: rest =>
      acc' ← try_except
               (rows ← store_select t AllColumns (Eq "user_id" (VStr uid));
                mret (<[t := rows]> acc))
               (_ ← write_log (LogError ("Failed to export from " +:+ t));
                mret (<[t := []]> acc));
      export_tables uid rest acc'
  end.

(** [None] is the empty dictionary of the outer handler. *)
Definition export_user_data (now : Z) (uid : string) : M (option export_bundle) :=
  try_except
    (exported ← export_tables uid tables_to_export ∅;
     _ ← log_data_access now uid "all_data" "export" "system"
           "data_export_system" "Full data export for GDPR compliance";
     mret (Some {| bundle_user_id := uid; export_timestamp := now;
                   data := exported |}))
    (_ ← write_log (LogError "Failed to export user data");
     mret None).

Definition _archive_user_data (now : Z) (uid : string)
    (archived : option export_bundle) : M unit :=
  sorted ← dumps_export true archived;
  plain ← dumps_export false archived;
  let archive_record : row :=
    <["user_id" := VStr uid]> (<["archived_at" := VInt now]>
    (<["data_hash" := VStr (sha256_hex sorted)]>
    {["encrypted_data" := VStr (fernet_encrypt plain)]})) in
  try_except
    (store_insert "archived_user_data" archive_record)
    (write_log (LogError "Failed to archive user data")).

(** The loop of [delete_user_data] over [tables_to_delete]. *)
Fixpoint delete_tables (uid : string) (tables : list string) : M unit :=
  match tables with
  | [] => mret ()
  | t :: rest =>
      _ ← try_except
            (store_delete t (Eq "user_id" (VStr uid)))
            (write_log (LogError ("Failed to delete from " +:+ t)));
      delete_tables uid rest
  end.

Definition delete_user_data (now : Z) (uid : string) (archive_first : bool)
  : M bool :=
  try_except
    (_ ← (if archive_first then
            archived ← export_user_data now uid;
            _archive_user_data now uid archived
          else mret ());
     _ ← delete_tables uid tables_to_delete;
     _ ← log_data_access now uid "all_data" "delete" "system"
           "data_deletion_system" "Full data deletion for GDPR compliance";
     _ ← write_log (LogInfo ("User data deleted: " +:+ uid));
     mret true)
    (_ ← write_log (LogError "Failed to delete user data");
     mret false).

Definition _archive_record (now : Z) (table_name : string) (record : row)
  : M unit :=
  original_id ← item record "id";
  plain ← dumps_row record;
  let archive_record : row :=
    <["original_table" := VStr table_name]> (<["original_id" := original_id]>
    (<["user_id" := get record "user_id" VNull]>
    (<["archived_at" := VInt now]>
    {["encrypted_data" := VStr (fernet_encrypt plain)]}))) in
  try_except
    (store_insert "archived_records" archive_record)
    (write_log (LogError "Failed to archive record")).

(** The loop of [apply_retention_policies] over [result.data]. *)
Fixpoint sweep_records (now : Z) (dt : string) (policy : DataRetentionPolicy)
    (records : list row) : M unit :=
  match records with
  | [] => mret ()
  | record :: rest =>
      _ ← (if archive_before_delete policy
           then _archive_record now dt record else mret ());
      rid ← item record "id";
      _ ← store_delete dt (Eq "id" rid);
      sweep_records now dt policy rest
  end.

Definition sweep_table (now : Z) (dt : string) (policy : DataRetentionPolicy)
  : M unit :=
  let cutoff_date := now - retention_period_days policy * seconds_per_day in
  try_except
    (result ← store_select dt (Columns ["id"; "user_id"; "created_at"])
                (Lt "created_at" cutoff_date);
     _ ← sweep_records now dt policy result;
     if bool_decide (result ≠ []) then
       write_log (LogInfo ("Applied retention policy for " +:+ dt))
     else mret ())
    (write_log (LogError ("Failed to apply retention policy for " +:+ dt))).

Fixpoint apply_policies (now : Z) (policies : list (string * DataRetentionPolicy))
  : M unit :=
  match policies with
  | [] => mret ()
  | (dt, policy) :: rest =>
      _ ← (if negb (auto_delete policy) then mret ()
           else sweep_table now dt policy);
      apply_policies now rest
  end.

Definition apply_retention_policies (now : Z) : M unit :=
  apply_policies now retention_policies.
End DataProtectionManager.


(** ** Password policy and registration *)

(** [SecurityConfig], the password rules. *)
Module PasswordConfig.
Definition PASSWORD_MIN_LENGTH : Z := 12.
Definition PASSWORD_REQUIRE_UPPERCASE : bool := true.
Definition PASSWORD_REQUIRE_LOWERCASE : bool := true.
Definition PASSWORD_REQUIRE_NUMBERS : bool := true.
Definition PASSWORD_REQUIRE_SPECIAL : bool := true.
End PasswordConfig.

(** The dictionary [validate_password_strength] returns. *)
Record password_validation := PasswordValidation {
  pv_valid : bool;
  pv_errors : list string;
  pv_strength_score : Z
}.

(** The three shapes of the dictionary [register_user] returns:
    [{'success': False, 'error': e, 'details': errors}],
    [{'success': False, 'error': e}] and
    [{'success': True, 'user_id': id, 'message': m}]. *)
Inductive register_result :=
  | RegisterRejected (error : string) (details : list string)
  | RegisterFailure (error : string)
  | RegisterSuccess (user_id : value) (message : string).

(** An insert whose answer is read: [result.data] is the list of the rows
    as stored, with the identifier the store gave where the row had
    none. *)
Definition store_insert_returning (new_id : value) (t : string) (r : row)
  : M (list row) :=
  execute (λ d,
    let stored : row := r ∪ {["id" := new_id]} in
    ([stored], <[t := table d t ++ [stored]]> d)).

Definition error_too_short : string :=
  "Password must be at least " +:+ pretty PasswordConfig.PASSWORD_MIN_LENGTH
  +:+ " characters".
Definition error_no_uppercase : string :=
  "Password must contain at least one uppercase letter".
Definition error_no_lowercase : string :=
  "Password must contain at least one lowercase letter".
Definition error_no_number : string :=
  "Password must contain at least one number".
Definition error_no_special : string :=
  "Password must contain at least one special character".

Definition special_characters : string := "!@#$%^&*()_+-=[]{}|;:,.<>?".

Section PasswordPolicy.
(** A password is the list of its characters, so that [len(password)] is
    the length of the string.  [str.isupper], [str.islower] and
    [str.isdigit] on one character are parameters. *)
Variables isupper islower isdigit : Ascii.ascii → bool.

(** [c in "!@#..."] for a character [c]. *)
Definition is_special (c : Ascii.ascii) : bool :=
  bool_decide (c ∈ String.list_ascii_of_string special_characters).

(** [errors.append(e)] when the rule is required and not met. *)
Definition check_rule (required met : bool) (e : string)
    (errors : list string) : list string :=
  if required && negb met then errors ++ [e] else errors.

Definition validate_password_strength (password : string)
  : password_validation :=
  let chars := String.list_ascii_of_string password in
  let errors : list string := [] in
  let errors :=
    if bool_decide (Z.of_nat (String.length password)
                    < PasswordConfig.PASSWORD_MIN_LENGTH)
    then errors ++ [error_too_short] else errors in
  let errors :=
    check_rule PasswordConfig.PASSWORD_REQUIRE_UPPERCASE
      (existsb isupper chars) error_no_uppercase errors in
  let errors :=
    check_rule PasswordConfig.PASSWORD_REQUIRE_LOWERCASE
      (existsb islower chars) error_no_lowercase errors in
  let errors :=
    check_rule PasswordConfig.PASSWORD_REQUIRE_NUMBERS
      (existsb isdigit chars) error_no_number errors in
  let errors :=
    check_rule PasswordConfig.PASSWORD_REQUIRE_SPECIAL
      (existsb is_special chars) error_no_special errors in
  {| pv_valid := bool_decide (length errors = 0%nat);
     pv_errors := errors;
     pv_strength_score := Z.max 0 (100 - Z.of_nat (length errors) * 20) |}.

(** The request context, [bcrypt.hashpw] with the salt this call draws
    ([None] when it raises, as bcrypt does on a password it does not
    take), the secret [pyotp.random_base32] draws, [Fernet.encrypt] and
    the identifier the store gives the new row. *)
Variable remote_addr : string.
Variable bcrypt_hashpw : string → option string.
Variable random_base32 : string.
Variable fernet_encrypt : string → string.
Variable new_id : value.

(** [DataEncryption.hash_password]. *)
Definition hash_password (password : string) : M string :=
  match bcrypt_hashpw password with
  | Some h => mret h
  | None => raise
  end.

(** The row [register_user] sends to the store. *)
Definition new_user_data (now : Z) (email password_hash full_name : string)
  : row :=
  <["email" := VStr email]>
  (<["password_hash" := VStr password_hash]>
  (<["full_name" := VStr full_name]>
  (<["mfa_secret" := VStr (fernet_encrypt random_base32)]>
  (<["mfa_enabled" := VBool false]>
  (<["roles" := VStrs ["user"]]>
  (<["created_at" := VInt now]>
  (<["last_login" := VNull]>
  (<["failed_login_attempts" := VInt 0]>
  {["account_locked" := VBool false]})))))))).

Definition register_user (now : Z) (email password full_name : string)
  : M register_result :=
  try_except
    (let password_validation := validate_password_strength password in
     if negb (pv_valid password_validation) then
       mret (RegisterRejected "Password does not meet security requirements"
               (pv_errors password_validation))
     else
       password_hash ← hash_password password;
       result ← store_insert_returning new_id "users"
                  (new_user_data now email password_hash full_name);
       match result with
       | user :: _ =>
           uid ← item user "id";
           _ ← log_security_event remote_addr "USER_REGISTRATION" uid;
           uid ← item user "id";
           mret (RegisterSuccess uid "User registered successfully")
       | [] => mret (RegisterFailure "Failed to create user account")
       end)
    (_ ← log_security_event remote_addr "REGISTRATION_ERROR" (VStr "unknown");
     mret (RegisterFailure "Registration failed due to system error")).
End PasswordPolicy.

(** ** Route guard *)

(** [request.current_user], as [require_auth] sets it. *)
Record current_user := CurrentUser {
  cu_id : value;
  cu_email : value;
  cu_roles : value
}.

(** What the wrapper of [require_auth] does with a request: the 401
    answer, the 403 answer, or the call of the wrapped function with
    [request.current_user] set. *)
Inductive guard_result :=
  | Unauthorized (error : string)
  | Forbidden (error : string)
  | Proceed (user : current_user).

Definition space : Ascii.ascii := Ascii.ascii_of_nat 32.

(** [s.split(sep)] for a separator of one character. *)
Fixpoint split_on (sep : Ascii.ascii) (s : string) : list string :=
  match s with
  | EmptyString => [""]
  | String c s' =>
      if Ascii.eqb c sep then "" :: split_on sep s'
      else match split_on sep s' with
           | h :: t => String c h :: t
           | [] => [String c ""]
           end
  end.

(** [x in s] for two strings: [x] occurs in [s]. *)
Fixpoint is_substring (x s : string) : bool :=
  String.prefix x s
  || match s with
     | EmptyString => false
     | String _ s' => is_substring x s'
     end.

(** [x in container]: membership in a list, occurrence in a string, and a
    [TypeError] on a value that is not iterable. *)
Definition py_in (x : string) (container : value) : option bool :=
  match container with
  | VStrs l => Some (bool_decide (x ∈ l))
  | VStr s => Some (is_substring x s)
  | _ => None
  end.

(** [any(role in user_roles for role in roles)], which stops at the first
    role found. *)
Fixpoint any_role_in (roles : list string) (user_roles : value) : option bool :=
  match roles with
  | [] => Some false
  | role :: rest =>
      match py_in role user_roles with
      | None => None
      | Some true => Some true
      | Some false => any_role_in rest user_roles
      end
  end.

Section RequireAuth.
Variable secret_key : string.
(** The compact form of a token read back; [None] for a string that is
    not one, which [jwt.decode] refuses with an [InvalidTokenError]. *)
Variable jwt_parse : string → option token.

Definition verify_token_string (now : Z) (s : string) : option row :=
  match jwt_parse s with
  | Some t => verify_token secret_key now t
  | None => None
  end.

(** The wrapper of [require_auth(roles)] on a request with the given
    [Authorization] header; the outer [None] is an exception leaving the
    wrapper. *)
Definition require_auth (roles : option (list string)) (now : Z)
    (auth_header : option string) : option guard_result :=
  match auth_header with
  | None => Some (Unauthorized "Authentication required")
  | Some header =>
      if String.eqb header "" || negb (String.prefix "Bearer " header) then
        Some (Unauthorized "Authentication required")
      else
        match split_on space header !! 1%nat with
        | None => None
        | Some tok =>
            match verify_token_string now tok with
            | None => Some (Unauthorized "Invalid or expired token")
            | Some payload =>
                if bool_decide (payload = ∅) then
                  Some (Unauthorized "Invalid or expired token")
                else
                  let user_roles := get payload "roles" (VStrs []) in
                  let allowed :=
                    match roles with
                    | Some ((_ :: _) as required) =>
                        any_role_in required user_roles
                    | _ => Some true
                    end in
                  match allowed with
                  | None => None
                  | Some false => Some (Forbidden "Insufficient permissions")
                  | Some true =>
                      match payload !! "user_id", payload !! "email" with
                      | Some uid, Some em =>
                          Some (Proceed {| cu_id := uid; cu_email := em;
                                           cu_roles := user_roles |})
                      | _, _ => None
                      end
                  end
            end
        end
  end.
End RequireAuth.


(** ** Anonymisation *)

Section Anonymization.
(** [str(v)] and [hashlib.sha256(s.encode()).hexdigest()]. *)
Variable py_str : value → string.
Variable sha256_hex : string → string.

(** [f"anon_{hash_value}"], with [hash_value] the first eight characters
    of the digest of [str(original)]. *)
Definition pseudonym (original : value) : value :=
  VStr ("anon_" +:+ String.substring 0 8 (sha256_hex (py_str original))).

(** One turn of the loop of [anonymize_data]. *)
Definition anonymize_field (anonymized_data : row) (field : string) : row :=
  match anonymized_data !! field with
  | Some original => <[field := pseudonym original]> anonymized_data
  | None => anonymized_data
  end.

Definition anonymize_data (data : row) (fields_to_anonymize : list string)
  : row :=
  foldl anonymize_field data fields_to_anonymize.
End Anonymization.

(** ** PrivacyControls *)

(** [ConsentType(s)]: the member whose value is [s]; [None] stands for the
    [ValueError] of a string that is the value of no member. *)
Definition ConsentType_members : list ConsentType :=
  [ESSENTIAL; ANALYTICS; MARKETING; PERSONALIZATION; THIRD_PARTY].

Definition ConsentType_of_value (s : string) : option ConsentType :=
  List.find (λ c, String.eqb (consent_type_value c) s) ConsentType_members.

(** The handler is for [ValueError]; [record_consent] lets no exception
    out, so the only one raised in the body is that of [ConsentType(s)]. *)
Definition update_consent (now : Z) (uid consent_type : string) (g : bool)
    (ip ua : string) : M bool :=
  try_except
    (match ConsentType_of_value consent_type with
     | Some consent_enum => record_consent now uid consent_enum g ip ua
     | None => raise
     end)
    (mret false).

(** A value of the dictionary [get_data_portability_format] builds: the
    profile is one row, the other entries are lists of rows. *)
Inductive portable_value :=
  | PProfile (r : row)
  | PRecords (l : list row).

(** [portable_data] as it is initialised. *)
Definition portable_template : gmap string portable_value :=
  <["user_profile" := PProfile ∅]>
  (<["journal_entries" := PRecords []]>
  (<["health_data" := PRecords []]>
  (<["business_activities" := PRecords []]>
  (<["productivity_data" := PRecords []]>
  (<["goals" := PRecords []]>
  {["ai_interactions" := PRecords []]}))))).

(** One turn of the loop of [get_data_portability_format]. *)
Definition portable_step (portable_data : gmap string portable_value)
    (t : string) (records : list row) : gmap string portable_value :=
  match String.eqb t "user_profiles", records with
  | true, r :: _ => <["user_profile" := PProfile r]> portable_data
  | _, _ =>
      if bool_decide (is_Some (portable_data !! t))
      then <[t := PRecords records]> portable_data
      else portable_data
  end.

(** The loop over [exported_data.get('data', {}).items()].  The keys of
    [data] are visited in the order [export_user_data] inserted them,
    that of [tables_to_export]. *)
Definition to_portable (exported_data : option export_bundle)
  : gmap string portable_value :=
  let d := match exported_data with Some b => data b | None => ∅ end in
  foldl (λ portable_data t,
           match d !! t with
           | Some records => portable_step portable_data t records
           | None => portable_data
           end)
    portable_template tables_to_export.

Definition get_data_portability_format (now : Z) (uid : string)
  : M (gmap string portable_value) :=
  exported_data ← export_user_data now uid;
  mret (to_portable exported_data).

(** * Vocabulary of the statements *)

(** The next [n] requests to the store do not raise. *)
Definition requests_succeed (n : nat) (w : world) : Prop :=
  forallb negb (take n (faults w)) = true.

(** Whether the [i]-th next request to the store raises. *)
Definition fault_at (i : nat) (w : world) : bool :=
  default false (faults w !! i).

(** The rows of a user in a table, as [.eq('user_id', uid)] selects them. *)
Definition user_rows (uid : string) (d : gmap string (list row)) (t : string)
  : list row :=
  List.filter (matches (Eq "user_id" (VStr uid))) (table d t).

(** The value the first record of a category carries in the list the
    store returned. *)
Definition first_granted (k : string) (records : list row) : option value :=
  match List.filter (λ r, bool_decide (r !! "consent_type" = Some (VStr k)))
          records with
  | r :: _ => r !! "granted"
  | [] => None
  end.

(** The rows of a table the retention sweep selects under a policy. *)
Definition old_rows (now : Z) (policy : DataRetentionPolicy)
    (d : gmap string (list row)) (dt : string) : list row :=
  List.filter
    (matches (Lt "created_at"
                (now - retention_period_days policy * seconds_per_day)))
    (table d dt).

(** Every row of the tables under a policy has an identifier: [id] is
    their primary key. *)
Definition keyed (d : gmap string (list row))
    (policies : list (string * DataRetentionPolicy)) : bool :=
  forallb (λ p, forallb (λ r : row, bool_decide (is_Some (r !! "id")))
                  (table d p.1))
    policies.

(** The audit record of an export. *)
Definition export_audit (now : Z) (uid : string) : row :=
  audit_record now uid "all_data" "export" "system" "data_export_system"
    "Full data export for GDPR compliance".

(** The users the lookup by e-mail returns. *)
Definition users_with_email (d : gmap string (list row)) (email : string)
  : list row :=
  List.filter (matches (Eq "email" (VStr email))) (table d "users").

(** What [.update(patch).eq('id', uid)] makes of a row. *)
Definition patched (patch : row) (uid : value) (r : row) : row :=
  if matches (Eq "id" uid) r then patch ∪ r else r.

(** The state of an account as the login sees it: the first user with the
    e-mail, its identifier, password hash, lock flag and counter. *)
Definition account (d : gmap string (list row)) (email : string)
    (uid : value) (h : string) (locked : bool) (n : Z) : Prop :=
  ∃ user rest,
    users_with_email d email = user :: rest
    ∧ user !! "id" = Some uid
    ∧ user !! "password_hash" = Some (VStr h)
    ∧ truthy (get user "account_locked" (VBool false)) = locked
    ∧ get user "failed_login_attempts" (VInt 0) = VInt n.

Section LoginAttempts.
Variable secret_key : string.
Variables remote_addr user_agent : string.
Variable checkpw : string → string → option bool.
Variable fernet_decrypt : string → option string.
Variable totp_verify : string → string → bool.

(** The world after a series of attempts on one e-mail, each a password
    and an optional MFA code. *)
Definition login_attempts (now : Z) (email : string)
    (attempts : list (string * option string)) (w : world) : world :=
  foldl (λ w a,
           (authenticate_user secret_key remote_addr user_agent checkpw
              fernet_decrypt totp_verify now email a.1 a.2 w).2)
        w attempts.
End LoginAttempts.

(** ** Sample data *)

(** A credential check that compares with the stored string, a decryption
    that returns its argument and a code check by equality. *)
Definition plain_checkpw (password hashed : string) : option bool :=
  Some (String.eqb password hashed).
Definition plain_decrypt (c : string) : option string := Some c.

(** The same check with the limit of bcrypt: it raises on a password
    longer than 72 characters. *)
Definition limited_checkpw (password hashed : string) : option bool :=
  if bool_decide (72 < String.length password)%nat then None
  else plain_checkpw password hashed.

(** A password of 73 characters. *)
Definition long_password : string :=
  "aaaaaaaaaaaaaaaaaaaaaaaaaaaaaaaaaaaaaaaaaaaaaaaaaaaaaaaaaaaaaaaaaaaaaaaaa".
Definition plain_totp (secret code : string) : bool := String.eqb secret code.

Definition alice (failed : Z) (locked mfa : bool) : row :=
  <["id" := VStr "u1"]> (<["email" := VStr "alice@example.com"]>
  (<["password_hash" := VStr "Str0ng!Passw0rd123"]>
  (<["full_name" := VStr "Alice"]> (<["mfa_secret" := VStr "492039"]>
  (<["mfa_enabled" := VBool mfa]> (<["roles" := VStrs ["user"]]>
  (<["failed_login_attempts" := VInt failed]>
  {["account_locked" := VBool locked]}))))))).

Definition world_of_users (users : list row) : world :=
  {| db := {["users" := users]}; faults := []; log := [] |}.

(** Serialisers that always succeed, and stand-ins for the cipher and the
    digest. *)
Definition sample_dumps_export (sort_keys : bool) (b : option export_bundle)
  : option string :=
  Some (if sort_keys then "sorted bundle" else "bundle").
Definition sample_dumps_row (r : row) : option string := Some "row".
Definition sample_encrypt (s : string) : string := "enc:" +:+ s.
Definition sample_sha256 (s : string) : string := "sha:" +:+ s.

Definition data_row (id : Z) (uid : string) (created_at : Z) : row :=
  <["id" := VInt id]> (<["user_id" := VStr uid]>
  {["created_at" := VInt created_at]}).

(** A store with a journal of two users. *)
Definition journal_world (fs : list bool) : world :=
  {| db := {["journal_entries" := [data_row 1 "u1" 0; data_row 2 "u2" 0]]};
     faults := fs; log := [] |}.

(** Three consent records of one user for one category, the newest
    inserted second. *)
Definition sample_consents : list ConsentRecord :=
  [ Consent "u1" ANALYTICS true 10 "10.0.0.1" "curl" "1.0";
    Consent "u1" ANALYTICS false 30 "10.0.0.1" "curl" "1.0";
    Consent "u1" ANALYTICS true 20 "10.0.0.1" "curl" "1.0" ].

(** ** Vocabulary of the further properties *)

Section SecondFactor.
Variable fernet_decrypt : string → option string.
Variable totp_verify : string → string → bool.

(** The second factor is satisfied: MFA is off, or a code came that
    verifies against the decrypted secret. *)
Definition mfa_satisfied (user : row) (mfa : option string) : Prop :=
  truthy (get user "mfa_enabled" (VBool false)) = false
  ∨ ∃ code c secret,
      mfa = Some code ∧ token_missing mfa = false
      ∧ truthy (get user "mfa_enabled" (VBool false)) = true
      ∧ user !! "mfa_secret" = Some (VStr c)
      ∧ fernet_decrypt c = Some secret
      ∧ totp_verify secret code = true.
End SecondFactor.

(** The identifiers of a list of rows. *)
Definition ids_of (l : list row) : list (option value) :=
  (λ r : row, r !! "id") <$> l.

(** The names of the tables a list of policies has swept. *)
Definition swept_names (policies : list (string * DataRetentionPolicy))
  : list string :=
  (List.filter (λ p, auto_delete p.2) policies).*1.

(** What sweeping the table [dt] may do to a store: the other tables but
    the archive are kept, the table loses rows only, none of them a row
    whose identifier is not in [ids], and the archive only grows. *)
Definition sweep_frame (dt : string) (ids : list (option value))
    (d d' : gmap string (list row)) : Prop :=
  (∀ t, t ≠ dt → t ≠ "archived_records" → table d' t = table d t)
  ∧ table d' dt `sublist_of` table d dt
  ∧ (∀ r, r ∈ table d dt → r !! "id" ∉ ids → r ∈ table d' dt)
  ∧ table d "archived_records" `prefix_of` table d' "archived_records".

(** The same for a whole list of policies at the instant [now]. *)
Definition policies_frame (now : Z)
    (policies : list (string * DataRetentionPolicy))
    (d d' : gmap string (list row)) : Prop :=
  (∀ t, t ∉ swept_names policies → t ≠ "archived_records" →
        table d' t = table d t)
  ∧ (∀ t, t ≠ "archived_records" → table d' t `sublist_of` table d t)
  ∧ (∀ p r, p ∈ policies → r ∈ table d p.1 →
            r !! "id" ∉ ids_of (old_rows now p.2 d p.1) →
            r ∈ table d' p.1)
  ∧ table d "archived_records" `prefix_of` table d' "archived_records".

(** A journal with one entry past the retention period at the instant
    259200000 (day 3000) and one that is not. *)
Definition aged_journal (fs : list bool) : world :=
  {| db := {["journal_entries" :=
               [data_row 1 "u1" 0; data_row 2 "u1" 250000000]]};
     faults := fs; log := [] |}.

(** The character classes of Python on the ASCII range. *)
Definition ascii_between (lo hi : Z) (c : Ascii.ascii) : bool :=
  (lo <=? Z.of_nat (Ascii.nat_of_ascii c))
  && (Z.of_nat (Ascii.nat_of_ascii c) <=? hi).
Definition ascii_isupper : Ascii.ascii → bool := ascii_between 65 90.
Definition ascii_islower : Ascii.ascii → bool := ascii_between 97 122.
Definition ascii_isdigit : Ascii.ascii → bool := ascii_between 48 57.

(** A hash that only marks its argument and, as bcrypt does, raises on a
    password longer than 72 characters; and the check that goes with
    it. *)
Definition marking_hash (password : string) : option string :=
  if bool_decide (72 < String.length password)%nat then None
  else Some ("hash:" +:+ password).
Definition marking_checkpw (password hashed : string) : option bool :=
  (λ h, String.eqb h hashed) <$> marking_hash password.


(** A rendering of values for the examples of [anonymize_data]. *)
Definition sample_str (v : value) : string :=
  match v with
  | VNull => "None"
  | VBool true => "True"
  | VBool false => "False"
  | VInt n => pretty n
  | VStr s => s
  | VStrs l => "[" +:+ String.concat ", " l +:+ "]"
  end.

(** A reader of compact forms that knows one token, under the name
    ["tok"]. *)
Definition sample_parse (t : token) (s : string) : option token :=
  if String.eqb s "tok" then Some t else None.

(** A store holding the three sample consent records. *)
Definition consent_world (fs : list bool) : world :=
  {| db := {["user_consents" := consent_row <$> sample_consents]};
     faults := fs; log := [] |}.

(** * Properties *)

(** Lookups in dictionaries written out with concrete keys. *)
Ltac map_lookup :=
  repeat first
    [ rewrite lookup_insert_eq
    | rewrite lookup_insert_ne by done
    | rewrite lookup_singleton_eq
    | rewrite lookup_singleton_ne by done
    | rewrite lookup_empty ].

(** ** Token refresh *)

Section JWTManagerProperties.
Variable secret_key : string.

Lemma verify_token_expired now t e :
  claims t !! "exp" = Some (VInt e) → e ≤ now →
  verify_token secret_key now t = None.
Proof.
  intros Hexp Hle. unfold verify_token, jwt_decode, check_instant.
  case_bool_decide; [|done]. rewrite Hexp.
  rewrite (bool_decide_eq_false_2 (now < e)) by lia.
  by repeat case_match.
Qed.

Lemma refresh_rejects_unverified now t :
  verify_token secret_key now t = None →
  refresh_access_token secret_key now t = Some None.
Proof. intros H. unfold refresh_access_token. by rewrite H. Qed.

(** An expired token is refused, whatever its claims. *)
Lemma refresh_rejects_expired now t e :
  claims t !! "exp" = Some (VInt e) → e ≤ now →
  refresh_access_token secret_key now t = Some None.
Proof.
  intros. apply refresh_rejects_unverified. by eapply verify_token_expired.
Qed.

(** A token whose signed [type] claim is not ['refresh'] is refused. *)
Lemma refresh_rejects_wrong_type now t :
  claims t !! "type" ≠ Some (VStr "refresh") →
  refresh_access_token secret_key now t = Some None.
Proof.
  intros Hty. unfold refresh_access_token.
  destruct (verify_token secret_key now t) as [payload|] eqn:Hv; [|done].
  assert (payload = claims t) as ->.
  { unfold verify_token, jwt_decode in Hv.
    repeat (case_match; simplify_eq); done. }
  by rewrite bool_decide_eq_true_2.
Qed.

(** The access tokens [generate_tokens] issues are refused as well. *)
Lemma refresh_rejects_access_token now now' uid em roles :
  refresh_access_token secret_key now'
    (access_token (generate_tokens secret_key now uid em roles)) = Some None.
Proof. apply refresh_rejects_wrong_type. simpl. by map_lookup. Qed.

(** The refresh token of [generate_tokens] carries no [roles] claim, so
    the access token made from it has the empty role list, whatever the
    roles the pair was issued for. *)
Lemma refresh_of_issued_token now now' uid em roles :
  now ≤ now' < now + SecurityConfig.JWT_REFRESH_TOKEN_EXPIRES →
  ∃ tok,
    refresh_access_token secret_key now'
      (refresh_token (generate_tokens secret_key now uid em roles))
      = Some (Some tok)
    ∧ claims tok !! "roles" = Some (VStrs [])
    ∧ claims tok !! "user_id" = Some uid
    ∧ claims tok !! "email" = Some em
    ∧ claims tok !! "type" = Some (VStr "access").
Proof.
  intros Hnow.
  unfold refresh_access_token, verify_token, jwt_decode, check_instant,
    generate_tokens, get.
  simpl. rewrite bool_decide_eq_true_2 by done. map_lookup.
  rewrite !bool_decide_eq_true_2 by lia.
  rewrite bool_decide_eq_false_2 by (intros ?; done).
  map_lookup. simpl. eexists. split; [done|]. simpl.
  repeat split; by map_lookup.
Qed.
End JWTManagerProperties.

(** C1 (the code departs from the claim): for a pair issued at instant 0
    to a user whose role list is [["admin"]], refreshing at instant 1
    succeeds, and the [roles] claim of the new access token is the empty
    list, not [["admin"]]. *)
Theorem refresh_access_token_drops_roles :
  ∃ tok,
    refresh_access_token "k" 1
      (refresh_token
         (generate_tokens "k" 0 (VStr "u1") (VStr "alice@example.com")
            (VStrs ["admin"])))
      = Some (Some tok)
    ∧ claims tok !! "roles" = Some (VStrs [])
    ∧ claims tok !! "roles" ≠ Some (VStrs ["admin"]).
Proof.
  destruct (refresh_of_issued_token "k" 0 1 (VStr "u1")
              (VStr "alice@example.com") (VStrs ["admin"]))
    as (tok & Hr & Hroles & _); [done|].
  exists tok. split; [done|]. split; [done|]. by rewrite Hroles.
Qed.

(** ** The store *)


Lemma requests_succeed_S n w :
  requests_succeed (S n) w →
  default false (head (faults w)) = false
  ∧ requests_succeed n {| db := db w; faults := tail (faults w); log := log w |}.
Proof.
  unfold requests_succeed. destruct w as [d [|[] fs] lg]; simpl; try done.
  by destruct n.
Qed.

Lemma requests_succeed_nil n d lg :
  requests_succeed n {| db := d; faults := []; log := lg |}.
Proof. unfold requests_succeed. by destruct n. Qed.

Lemma execute_ok {A} (f : gmap string (list row) → A * gmap string (list row)) w :
  requests_succeed 1 w →
  execute f w = (Some (f (db w)).1,
                 {| db := (f (db w)).2; faults := tail (faults w); log := log w |}).
Proof.
  intros [H _]%requests_succeed_S. unfold execute. rewrite H.
  by destruct (f (db w)).
Qed.

Lemma project_all (l : list row) : project AllColumns <$> l = l.
Proof. induction l as [|r l IH]; [done|]. by rewrite fmap_cons, IH. Qed.

Lemma table_alter (g : list row → list row) t d :
  g [] = [] → table (alter g t d) t = g (table d t).
Proof.
  intros Hg. unfold table. rewrite lookup_alter_eq.
  by destruct (d !! t).
Qed.

Lemma table_alter_ne (g : list row → list row) t t' d :
  t ≠ t' → table (alter g t d) t' = table d t'.
Proof. intros. unfold table. by rewrite lookup_alter_ne. Qed.

Lemma filter_fmap_commute (P : row → bool) (f : row → row) (l : list row) :
  (∀ r, P (f r) = P r) →
  List.filter P (f <$> l) = f <$> List.filter P l.
Proof.
  intros HP. induction l as [|r l IH]; [done|].
  rewrite fmap_cons. simpl. rewrite HP, IH. by destruct (P r).
Qed.

(** ** Login *)



Lemma users_with_email_patched patch uid d email :
  patch !! "email" = None →
  users_with_email (alter (fmap (patched patch uid)) "users" d) email
  = patched patch uid <$> users_with_email d email.
Proof.
  intros Hp. unfold users_with_email. rewrite table_alter by done.
  apply filter_fmap_commute. intros r. unfold patched.
  destruct (matches (Eq "id" uid) r); [|done]. simpl.
  by rewrite lookup_union_r.
Qed.

Lemma patched_own patch uid r :
  r !! "id" = Some uid → patched patch uid r = patch ∪ r.
Proof. intros H. unfold patched. simpl. by rewrite bool_decide_eq_true_2. Qed.

Lemma failed_login_update_lookup n k :
  failed_login_update n !! k =
    if bool_decide (k = "failed_login_attempts") then Some (VInt n)
    else if bool_decide (k = "account_locked") then
      (if bool_decide (5 ≤ n) then Some (VBool true) else None)
    else None.
Proof.
  unfold failed_login_update.
  repeat case_bool_decide; subst; map_lookup; done.
Qed.

Section AuthenticationProperties.
Variable secret_key : string.
Variables remote_addr user_agent : string.
Variable checkpw : string → string → option bool.
Variable fernet_decrypt : string → option string.
Variable totp_verify : string → string → bool.

Abbreviation login :=
  (authenticate_user secret_key remote_addr user_agent checkpw
     fernet_decrypt totp_verify).
Abbreviation login_attempts :=
  (login_attempts secret_key remote_addr user_agent checkpw
     fernet_decrypt totp_verify).

Ltac enter_login Hok Husers :=
  unfold authenticate_user, try_except, store_select, users_with_email in *;
  unfold mbind, M_bind; rewrite execute_ok by exact Hok;
  simpl; rewrite project_all, Husers.

(** No user has the e-mail: the generic failure, nothing written. *)
Lemma login_unknown_email now email password mfa w :
  requests_succeed 1 w →
  users_with_email (db w) email = [] →
  ∃ w', login now email password mfa w = (Some invalid_credentials, w')
        ∧ db w' = db w.
Proof.
  intros Hok Husers. enter_login Hok Husers. simpl. eauto.
Qed.

(** A locked account is refused before the password is looked at. *)
Lemma login_locked now email password mfa w user rest :
  requests_succeed 1 w →
  users_with_email (db w) email = user :: rest →
  truthy (get user "account_locked" (VBool false)) = true →
  ∃ w', login now email password mfa w = (Some account_is_locked, w')
        ∧ db w' = db w ∧ log w' = log w
        ∧ faults w' = tail (faults w).
Proof.
  intros Hok Husers Hlocked. enter_login Hok Husers.
  rewrite Hlocked. simpl. eauto.
Qed.

(** A wrong password on an unlocked account: one update of the user's
    row, then the generic failure. *)
Lemma login_wrong_password now email password mfa w user rest h n uid :
  requests_succeed 2 w →
  users_with_email (db w) email = user :: rest →
  truthy (get user "account_locked" (VBool false)) = false →
  user !! "password_hash" = Some (VStr h) →
  checkpw password h = Some false →
  get user "failed_login_attempts" (VInt 0) = VInt n →
  user !! "id" = Some uid →
  ∃ w', login now email password mfa w = (Some invalid_credentials, w')
        ∧ db w' = alter (fmap (patched (failed_login_update (n + 1)) uid))
                    "users" (db w)
        ∧ faults w' = tail (tail (faults w)).
Proof.
  intros [Hok1 Hok2]%requests_succeed_S Husers Hlocked Hhash Hpw Hn Hid.
  assert (requests_succeed 1 w) as Hok.
  { revert Hok1 Hok2. unfold requests_succeed.
    destruct w as [d [|[] fs] lg]; simpl; try done. }
  enter_login Hok Husers.
  rewrite Hlocked. unfold item. rewrite Hhash. simpl.
  rewrite Hpw. simpl. rewrite Hn. simpl. rewrite Hid. simpl.
  unfold store_update. rewrite execute_ok by exact Hok2. simpl.
  eexists. split; [done|]. simpl. done.
Qed.


(** The row of the user after the update of a wrong password. *)
Lemma wrong_password_row now email password mfa w user rest h n uid :
  requests_succeed 2 w →
  users_with_email (db w) email = user :: rest →
  truthy (get user "account_locked" (VBool false)) = false →
  user !! "password_hash" = Some (VStr h) →
  checkpw password h = Some false →
  get user "failed_login_attempts" (VInt 0) = VInt n →
  user !! "id" = Some uid →
  ∃ w' user' rest',
    login now email password mfa w = (Some invalid_credentials, w')
    ∧ db w' = alter (fmap (patched (failed_login_update (n + 1)) uid))
                "users" (db w)
    ∧ faults w' = tail (tail (faults w))
    ∧ users_with_email (db w') email = user' :: rest'
    ∧ user' !! "failed_login_attempts" = Some (VInt (n + 1))
    ∧ truthy (get user' "account_locked" (VBool false)) = bool_decide (5 ≤ n + 1)
    ∧ (∀ k, k ≠ "failed_login_attempts" → k ≠ "account_locked" →
            user' !! k = user !! k).
Proof.
  intros Hok Husers Hlocked Hhash Hpw Hn Hid.
  destruct (login_wrong_password now email password mfa w user rest h n uid)
    as (w' & Hrun & Hdb & Hf); try done.
  exists w', (failed_login_update (n + 1) ∪ user),
    (patched (failed_login_update (n + 1)) uid <$> rest).
  split; [done|]. split; [done|]. split; [done|]. split.
  { rewrite Hdb, users_with_email_patched, Husers, fmap_cons.
    - by rewrite patched_own.
    - by rewrite failed_login_update_lookup. }
  split.
  { apply lookup_union_Some_l. by rewrite failed_login_update_lookup. }
  split.
  { unfold get in *. rewrite lookup_union, failed_login_update_lookup.
    simpl. case_bool_decide; simpl.
    - by destruct (user !! "account_locked").
    - destruct (user !! "account_locked"); simpl in *; done. }
  intros k Hk1 Hk2. rewrite lookup_union_r; [done|].
  rewrite failed_login_update_lookup.
  by rewrite !bool_decide_eq_false_2.
Qed.

(** One failed attempt on an unlocked account, on a store with no
    fault pending. *)
Lemma account_wrong_password now email password mfa w uid h n :
  faults w = [] →
  account (db w) email uid h false n →
  checkpw password h = Some false →
  ∃ w', login now email password mfa w = (Some invalid_credentials, w')
        ∧ faults w' = []
        ∧ account (db w') email uid h (bool_decide (5 ≤ n + 1)) (n + 1).
Proof.
  intros Hfaults (user & rest & Husers & Hid & Hhash & Hlocked & Hn) Hpw.
  destruct (wrong_password_row now email password mfa w user rest h n uid)
    as (w' & user' & rest' & Hrun & _ & Hf & Husers' & Hn' & Hl' & Hsame);
    try done.
  { unfold requests_succeed. by rewrite Hfaults. }
  exists w'. split; [done|]. split; [by rewrite Hf, Hfaults|].
  exists user', rest'. split; [done|].
  rewrite !Hsame by done. split; [done|]. split; [done|]. split; [done|].
  unfold get. by rewrite Hn'.
Qed.

(** Any attempt on a locked account, on a store with no fault pending. *)
Lemma account_locked_attempt now email password mfa w uid h n :
  faults w = [] →
  account (db w) email uid h true n →
  ∃ w', login now email password mfa w = (Some account_is_locked, w')
        ∧ db w' = db w ∧ faults w' = [].
Proof.
  intros Hfaults (user & rest & Husers & _ & _ & Hlocked & _).
  destruct (login_locked now email password mfa w user rest)
    as (w' & Hrun & Hdb & _ & Hf); try done.
  { unfold requests_succeed. by rewrite Hfaults. }
  exists w'. by rewrite Hf, Hfaults.
Qed.


Lemma locked_stays_locked now email attempts w uid h n :
  faults w = [] →
  account (db w) email uid h true n →
  faults (login_attempts now email attempts w) = []
  ∧ db (login_attempts now email attempts w) = db w.
Proof.
  revert w. induction attempts as [|a attempts IH]; intros w Hf Hacc; [done|].
  simpl.
  destruct (account_locked_attempt now email a.1 a.2 w uid h n)
    as (w' & Hrun & Hdb & Hf'); try done.
  rewrite Hrun. simpl.
  destruct (IH w') as [? ?]; [done|by rewrite Hdb|].
  split; [done|]. congruence.
Qed.

Lemma failures_lock_account now email attempts w uid h n :
  faults w = [] →
  account (db w) email uid h false n →
  Forall (λ a, checkpw a.1 h = Some false) attempts →
  attempts ≠ [] →
  5 ≤ n + Z.of_nat (length attempts) →
  faults (login_attempts now email attempts w) = []
  ∧ ∃ n', account (db (login_attempts now email attempts w)) email uid h true n'.
Proof.
  revert w n.
  induction attempts as [|a attempts IH]; intros w n Hf Hacc Hall Hne Hlen;
    [done|].
  apply Forall_cons in Hall as [Ha Hall]. simpl.
  destruct (account_wrong_password now email a.1 a.2 w uid h n)
    as (w' & Hrun & Hf' & Hacc'); try done.
  rewrite Hrun. simpl.
  case_bool_decide as Hn.
  - destruct (locked_stays_locked now email attempts w' uid h (n + 1))
      as [? Hdb]; try done.
    split; [done|]. exists (n + 1). by rewrite Hdb.
  - apply (IH w' (n + 1)); try done.
    + intros ->. simpl in Hlen. lia.
    + simpl length in Hlen. lia.
Qed.

(** The password is right and MFA is enabled, but no code came. *)
Lemma login_mfa_missing now email password mfa w user rest h :
  requests_succeed 1 w →
  users_with_email (db w) email = user :: rest →
  truthy (get user "account_locked" (VBool false)) = false →
  user !! "password_hash" = Some (VStr h) →
  checkpw password h = Some true →
  truthy (get user "mfa_enabled" (VBool false)) = true →
  token_missing mfa = true →
  ∃ w', login now email password mfa w = (Some mfa_token_required, w')
        ∧ db w' = db w ∧ log w' = log w.
Proof.
  intros Hok Husers Hlocked Hhash Hpw Hmfa Hmiss. enter_login Hok Husers.
  rewrite Hlocked. unfold item. rewrite Hhash. simpl. rewrite Hpw. simpl.
  unfold check_mfa. rewrite Hmfa, Hmiss. simpl. eauto.
Qed.

(** The password is right and MFA is enabled, but the code is wrong. *)
Lemma login_mfa_wrong now email password code w user rest h c secret uid :
  requests_succeed 1 w →
  users_with_email (db w) email = user :: rest →
  truthy (get user "account_locked" (VBool false)) = false →
  user !! "password_hash" = Some (VStr h) →
  checkpw password h = Some true →
  truthy (get user "mfa_enabled" (VBool false)) = true →
  token_missing (Some code) = false →
  user !! "mfa_secret" = Some (VStr c) →
  fernet_decrypt c = Some secret →
  totp_verify secret code = false →
  user !! "id" = Some uid →
  ∃ w', login now email password (Some code) w = (Some invalid_mfa_token, w')
        ∧ db w' = db w.
Proof.
  intros Hok Husers Hlocked Hhash Hpw Hmfa Hmiss Hsec Hdec Htotp Hid.
  enter_login Hok Husers.
  rewrite Hlocked. unfold item. rewrite Hhash. simpl. rewrite Hpw. simpl.
  unfold check_mfa. rewrite Hmfa, Hmiss. unfold item, mbind, M_bind.
  rewrite Hsec. simpl. rewrite Hdec. simpl. rewrite Htotp. simpl.
  rewrite Hid. simpl. eauto.
Qed.

(** C2: a user record with [account_locked] true is refused whatever the
    password, with the answer that reports the lock, no tokens and no
    write to the store; in particular after five consecutive failed
    logins on an account whose counter started at [n ≥ 0], a sixth
    attempt with the correct password is refused in that way and leaves
    the store as it was. *)
Theorem locked_account_fails_closed :
  (∀ now email password mfa w user rest,
     requests_succeed 1 w →
     users_with_email (db w) email = user :: rest →
     truthy (get user "account_locked" (VBool false)) = true →
     ∃ w', login now email password mfa w = (Some account_is_locked, w')
           ∧ db w' = db w)
  ∧ (∀ now email attempts good mfa w uid h n,
       faults w = [] →
       account (db w) email uid h false n →
       0 ≤ n →
       length attempts = 5%nat →
       Forall (λ a, checkpw a.1 h = Some false) attempts →
       checkpw good h = Some true →
       ∃ w6,
         login now email good mfa (login_attempts now email attempts w)
           = (Some account_is_locked, w6)
         ∧ db w6 = db (login_attempts now email attempts w)).
Proof.
  split.
  - intros now email password mfa w user rest Hok Husers Hlocked.
    destruct (login_locked now email password mfa w user rest)
      as (w' & Hrun & Hdb & _); eauto.
  - intros now email attempts good mfa w uid h n Hf Hacc Hn Hlen Hall Hgood.
    destruct (failures_lock_account now email attempts w uid h n)
      as (Hf5 & n' & Hacc5); try done.
    { intros ->. done. }
    { rewrite Hlen. lia. }
    destruct (account_locked_attempt now email good mfa
                (login_attempts now email attempts w) uid h n')
      as (w6 & Hrun & Hdb & _); eauto.
Qed.


(** C7: the password verifies and MFA is enabled.  Without a code the
    answer is the MFA-required outcome, which is not a failure answer;
    with a wrong code it is the failure "Invalid MFA token"; in both
    cases the store, and so the counter and every other field of the
    user's row, is as before. *)
Theorem mfa_failure_leaves_counter_alone
    now email password mfa w user rest h :
  requests_succeed 1 w →
  users_with_email (db w) email = user :: rest →
  truthy (get user "account_locked" (VBool false)) = false →
  user !! "password_hash" = Some (VStr h) →
  checkpw password h = Some true →
  truthy (get user "mfa_enabled" (VBool false)) = true →
  (token_missing mfa = true →
     ∃ w', login now email password mfa w = (Some mfa_token_required, w')
           ∧ db w' = db w)
  ∧ (∀ code c secret uid,
       mfa = Some code → token_missing mfa = false →
       user !! "mfa_secret" = Some (VStr c) →
       fernet_decrypt c = Some secret →
       totp_verify secret code = false →
       user !! "id" = Some uid →
       ∃ w', login now email password mfa w = (Some invalid_mfa_token, w')
             ∧ db w' = db w)
  ∧ (∀ e, mfa_token_required ≠ AuthFailure e).
Proof.
  intros Hok Husers Hlocked Hhash Hpw Hmfa. split; [|split].
  - intros Hmiss.
    destruct (login_mfa_missing now email password mfa w user rest h)
      as (w' & Hrun & Hdb & _); eauto.
  - intros code c secret uid -> Hmiss Hsec Hdec Htotp Hid.
    by eapply login_mfa_wrong.
  - done.
Qed.

(** An attempt with an e-mail no user has and an attempt with the e-mail
    of an unlocked user but a password the check answers [False] on get
    the same answer, the generic "Invalid credentials", when the requests
    to the store succeed. *)
Lemma unknown_email_and_wrong_password_answer_alike
    now1 email1 password1 mfa1 w1
    now2 email2 password2 mfa2 w2 user rest h n uid :
  requests_succeed 1 w1 →
  users_with_email (db w1) email1 = [] →
  requests_succeed 2 w2 →
  users_with_email (db w2) email2 = user :: rest →
  truthy (get user "account_locked" (VBool false)) = false →
  user !! "password_hash" = Some (VStr h) →
  checkpw password2 h = Some false →
  get user "failed_login_attempts" (VInt 0) = VInt n →
  user !! "id" = Some uid →
  (login now1 email1 password1 mfa1 w1).1
    = (login now2 email2 password2 mfa2 w2).1
  ∧ (login now1 email1 password1 mfa1 w1).1 = Some invalid_credentials.
Proof.
  intros Hok1 Hnone Hok2 Husers Hlocked Hhash Hpw Hn Hid.
  destruct (login_unknown_email now1 email1 password1 mfa1 w1)
    as (w1' & Hrun1 & _); try done.
  destruct (login_wrong_password now2 email2 password2 mfa2 w2 user rest h n uid)
    as (w2' & Hrun2 & _); try done.
  by rewrite Hrun1, Hrun2.
Qed.
End AuthenticationProperties.

(** Closed instances are settled by evaluation of the decision
    procedure of the statement. *)
Ltac by_compute :=
  unfold requests_succeed;
  match goal with
  | |- ?P =>
      let dec := constr:(_ : Decision P) in
      apply (@bool_decide_eq_true_1 P dec); vm_compute; reflexivity
  end.

Lemma locked_account_fails_closed_witness :
  (∃ w',
     authenticate_user "k" "10.0.0.1" "curl" plain_checkpw plain_decrypt
       plain_totp 0 "alice@example.com" "Str0ng!Passw0rd123" None
       (world_of_users [alice 5 true false])
       = (Some account_is_locked, w')
     ∧ db w' = db (world_of_users [alice 5 true false]))
  ∧ (∃ w6,
       authenticate_user "k" "10.0.0.1" "curl" plain_checkpw plain_decrypt
         plain_totp 0 "alice@example.com" "Str0ng!Passw0rd123" None
         (login_attempts "k" "10.0.0.1" "curl" plain_checkpw plain_decrypt
            plain_totp 0 "alice@example.com"
            (replicate 5 ("guess", None)) (world_of_users [alice 0 false false]))
         = (Some account_is_locked, w6)
       ∧ db w6
         = db (login_attempts "k" "10.0.0.1" "curl" plain_checkpw plain_decrypt
                 plain_totp 0 "alice@example.com"
                 (replicate 5 ("guess", None))
                 (world_of_users [alice 0 false false]))).
Proof.
  split.
  - apply (proj1 (locked_account_fails_closed "k" "10.0.0.1" "curl"
                    plain_checkpw plain_decrypt plain_totp)
             0 "alice@example.com" "Str0ng!Passw0rd123" None
             (world_of_users [alice 5 true false]) (alice 5 true false) []);
      by_compute.
  - apply (proj2 (locked_account_fails_closed "k" "10.0.0.1" "curl"
                    plain_checkpw plain_decrypt plain_totp)
             0 "alice@example.com" (replicate 5 ("guess", None))
             "Str0ng!Passw0rd123" None (world_of_users [alice 0 false false])
             (VStr "u1") "Str0ng!Passw0rd123" 0).
    + reflexivity.
    + exists (alice 0 false false), []. repeat split; by_compute.
    + lia.
    + reflexivity.
    + repeat constructor.
    + reflexivity.
Defined.


Lemma mfa_failure_leaves_counter_alone_witness :
  (∃ w',
     authenticate_user "k" "10.0.0.1" "curl" plain_checkpw plain_decrypt
       plain_totp 0 "alice@example.com" "Str0ng!Passw0rd123" None
       (world_of_users [alice 0 false true])
       = (Some mfa_token_required, w')
     ∧ db w' = db (world_of_users [alice 0 false true]))
  ∧ (∃ w',
       authenticate_user "k" "10.0.0.1" "curl" plain_checkpw plain_decrypt
         plain_totp 0 "alice@example.com" "Str0ng!Passw0rd123" (Some "000000")
         (world_of_users [alice 0 false true])
         = (Some invalid_mfa_token, w')
       ∧ db w' = db (world_of_users [alice 0 false true])).
Proof.
  split.
  - refine (proj1 (mfa_failure_leaves_counter_alone "k" "10.0.0.1" "curl"
                     plain_checkpw plain_decrypt plain_totp 0
                     "alice@example.com" "Str0ng!Passw0rd123" None
                     (world_of_users [alice 0 false true])
                     (alice 0 false true) [] "Str0ng!Passw0rd123"
                     _ _ _ _ _ _) _); by_compute.
  - refine (proj1 (proj2 (mfa_failure_leaves_counter_alone "k" "10.0.0.1" "curl"
                     plain_checkpw plain_decrypt plain_totp 0
                     "alice@example.com" "Str0ng!Passw0rd123" (Some "000000")
                     (world_of_users [alice 0 false true])
                     (alice 0 false true) [] "Str0ng!Passw0rd123"
                     _ _ _ _ _ _))
                  "000000" "492039" "492039" (VStr "u1") _ _ _ _ _ _);
      by_compute.
Defined.

Lemma unknown_email_and_wrong_password_answer_alike_witness :
  (authenticate_user "k" "10.0.0.1" "curl" plain_checkpw plain_decrypt
     plain_totp 0 "nobody@example.com" "guess" None
     (world_of_users [alice 0 false false])).1
  = (authenticate_user "k" "10.0.0.1" "curl" plain_checkpw plain_decrypt
       plain_totp 0 "alice@example.com" "guess" None
       (world_of_users [alice 0 false false])).1.
Proof.
  refine (proj1 (unknown_email_and_wrong_password_answer_alike "k" "10.0.0.1"
            "curl" plain_checkpw plain_decrypt plain_totp
            0 "nobody@example.com" "guess" None (world_of_users [alice 0 false false])
            0 "alice@example.com" "guess" None (world_of_users [alice 0 false false])
            (alice 0 false false) [] "Str0ng!Passw0rd123" 0 (VStr "u1")
            _ _ _ _ _ _ _ _ _));
    by_compute.
Defined.

(** C8 (the code departs from the claim): on a store that holds the
    unlocked user alice, an attempt with a wrong password of 73
    characters, on which the password check raises, is answered "Invalid
    credentials" for an e-mail no user has and "Authentication failed due
    to system error" for the e-mail of alice.  The two answers differ, so
    the answer tells the caller that the account exists. *)
Theorem raising_password_check_reveals_account :
  (authenticate_user "k" "10.0.0.1" "curl" limited_checkpw plain_decrypt
     plain_totp 0 "nobody@example.com" long_password None
     (world_of_users [alice 0 false false])).1
  = Some invalid_credentials
  ∧ (authenticate_user "k" "10.0.0.1" "curl" limited_checkpw plain_decrypt
       plain_totp 0 "alice@example.com" long_password None
       (world_of_users [alice 0 false false])).1
    = Some system_error
  ∧ invalid_credentials ≠ system_error
  ∧ String.length long_password = 73%nat
  ∧ long_password ≠ "Str0ng!Passw0rd123".
Proof.
  split; [vm_compute; reflexivity|].
  split; [vm_compute; reflexivity|].
  repeat split; discriminate.
Qed.

(** ** Export and deletion *)

Lemma fault_at_head w : fault_at 0 w = default false (head (faults w)).
Proof. unfold fault_at. by rewrite head_lookup. Qed.

Lemma fault_at_tail i d fs lg :
  fault_at i {| db := d; faults := tail fs; log := lg |}
  = fault_at (S i) {| db := d; faults := fs; log := lg |}.
Proof. unfold fault_at. simpl. by rewrite lookup_tail. Qed.

Lemma drop_tail {A} n (l : list A) : drop n (tail l) = drop (S n) l.
Proof. destruct l; [by destruct n|done]. Qed.

Lemma tail_drop {A} n (l : list A) : tail (drop n l) = drop (S n) l.
Proof.
  revert l. induction n as [|n IH]; intros [|x l]; simpl; done.
Qed.

(** A request, whatever the fault plan. *)
Lemma execute_run {A} (f : gmap string (list row) → A * gmap string (list row)) w :
  execute f w =
    if fault_at 0 w
    then (None, {| db := db w; faults := tail (faults w); log := log w |})
    else (Some (f (db w)).1,
          {| db := (f (db w)).2; faults := tail (faults w); log := log w |}).
Proof.
  unfold execute. rewrite fault_at_head.
  destruct (default false (head (faults w))); [done|].
  by destruct (f (db w)).
Qed.

Lemma table_insert (t : string) rows d : table (<[t := rows]> d) t = rows.
Proof. unfold table. by rewrite lookup_insert_eq. Qed.

Lemma table_insert_ne (t t' : string) rows d :
  t ≠ t' → table (<[t := rows]> d) t' = table d t'.
Proof. intros. unfold table. by rewrite lookup_insert_ne. Qed.

Lemma export_tables_spec uid tables :
  ∀ acc w, ∃ acc' lg,
    export_tables uid tables acc w
      = (Some acc', {| db := db w; faults := drop (length tables) (faults w);
                       log := lg |})
    ∧ (∀ t, t ∉ tables → acc' !! t = acc !! t)
    ∧ (NoDup tables → ∀ i t, tables !! i = Some t →
         acc' !! t = Some (if fault_at i w then [] else user_rows uid (db w) t)).
Proof.
  induction tables as [|t0 rest IH]; intros acc w.
  { exists acc, (log w). destruct w. simpl. rewrite drop_0.
    split; [done|]. split; [done|]. intros _ i t Hi. done. }
  simpl. unfold mbind, M_bind, try_except, store_select.
  rewrite execute_run. destruct w as [d fs lg]. simpl.
  destruct (fault_at 0 {| db := d; faults := fs; log := lg |}) eqn:Hfault; simpl.
  - destruct (IH (<[t0 := []]> acc)
                {| db := d; faults := tail fs;
                   log := lg ++ [LogError ("Failed to export from " +:+ t0)] |})
      as (acc' & lg' & Hrun & Hout & Hin).
    simpl in Hrun. rewrite drop_tail in Hrun.
    exists acc', lg'. split; [done|]. split.
    + intros t [Ht0 Ht]%not_elem_of_cons. rewrite Hout by done.
      by rewrite lookup_insert_ne.
    + intros [Hnot Hnd]%NoDup_cons [|i] t Hi; simpl in Hi.
      * simplify_eq. rewrite Hout by done. rewrite lookup_insert_eq.
        by rewrite Hfault.
      * rewrite (Hin Hnd i t Hi). by rewrite fault_at_tail.
  - rewrite project_all.
    destruct (IH (<[t0 := user_rows uid d t0]> acc)
                {| db := d; faults := tail fs; log := lg |})
      as (acc' & lg' & Hrun & Hout & Hin).
    simpl in Hrun. rewrite drop_tail in Hrun.
    exists acc', lg'. split; [done|]. split.
    + intros t [Ht0 Ht]%not_elem_of_cons. rewrite Hout by done.
      by rewrite lookup_insert_ne.
    + intros [Hnot Hnd]%NoDup_cons [|i] t Hi; simpl in Hi.
      * simplify_eq. rewrite Hout by done. rewrite lookup_insert_eq.
        by rewrite Hfault.
      * rewrite (Hin Hnd i t Hi). by rewrite fault_at_tail.
Qed.

(** [log_data_access] never raises; it adds its record unless the
    request does. *)
Lemma log_data_access_run now uid dt action ip ua details w :
  ∃ lg,
    log_data_access now uid dt action ip ua details w
    = (Some (),
       {| db := if fault_at 0 w then db w
                else <["audit_logs" :=
                         table (db w) "audit_logs"
                         ++ [audit_record now uid dt action ip ua details]]> (db w);
          faults := tail (faults w);
          log := lg |}).
Proof.
  unfold log_data_access, try_except, mbind, M_bind, store_insert.
  rewrite execute_run. destruct (fault_at 0 w); simpl; eauto.
Qed.

Lemma NoDup_tables_to_export : NoDup tables_to_export.
Proof. by_compute. Qed.

Lemma export_user_data_spec now uid w :
  ∃ b lg,
    export_user_data now uid w
    = (Some (Some b),
       {| db := if fault_at 8 w then db w
                else <["audit_logs" :=
                         table (db w) "audit_logs" ++ [export_audit now uid]]> (db w);
          faults := drop 9 (faults w);
          log := lg |})
    ∧ bundle_user_id b = uid
    ∧ export_timestamp b = now
    ∧ (∀ t, t ∉ tables_to_export → data b !! t = None)
    ∧ (∀ i t, tables_to_export !! i = Some t →
         data b !! t = Some (if fault_at i w then [] else user_rows uid (db w) t)).
Proof.
  unfold export_user_data, try_except, mbind, M_bind.
  destruct (export_tables_spec uid tables_to_export ∅ w)
    as (acc' & lg & Hrun & Hout & Hin).
  rewrite Hrun.
  destruct (log_data_access_run now uid "all_data" "export" "system"
              "data_export_system" "Full data export for GDPR compliance"
              {| db := db w; faults := drop (length tables_to_export) (faults w);
                 log := lg |}) as (lg' & Hlog).
  rewrite Hlog. simpl.
  eexists _, lg'. split.
  { f_equal. f_equal.
    - unfold fault_at. simpl. rewrite lookup_drop. done.
    - simpl. by rewrite tail_drop. }
  simpl. split; [done|]. split; [done|]. split.
  - intros t Ht. by rewrite Hout.
  - apply Hin, NoDup_tables_to_export.
Qed.

Lemma NoDup_tables_to_delete : NoDup tables_to_delete.
Proof. by_compute. Qed.

Lemma audit_logs_not_deleted : "audit_logs" ∉ tables_to_delete.
Proof. by_compute. Qed.

Lemma tables_deleted_are_exported : tables_to_delete ≡ₚ tables_to_export.
Proof. by_compute. Qed.

(** The rows of a table after [.delete().eq('user_id', uid)]. *)
Lemma user_rows_after_delete uid (l : list row) :
  List.filter (matches (Eq "user_id" (VStr uid)))
    (List.filter (λ r, negb (matches (Eq "user_id" (VStr uid)) r)) l) = [].
Proof.
  induction l as [|r l IH]; [done|]. simpl.
  destruct (bool_decide (r !! "user_id" = Some (VStr uid))) eqn:Hr; simpl;
    [done|]. by rewrite Hr.
Qed.

(** The per-table loop of the deletion never raises: a table whose
    request raises keeps its rows, the others lose those of the user. *)
Lemma delete_tables_spec uid tables :
  ∀ w, ∃ d' lg,
    delete_tables uid tables w
      = (Some (), {| db := d'; faults := drop (length tables) (faults w);
                     log := lg |})
    ∧ (∀ t, t ∉ tables → table d' t = table (db w) t)
    ∧ (NoDup tables → ∀ i t, tables !! i = Some t →
         table d' t =
           if fault_at i w then table (db w) t
           else List.filter (λ r, negb (matches (Eq "user_id" (VStr uid)) r))
                  (table (db w) t)).
Proof.
  induction tables as [|t0 rest IH]; intros w.
  { exists (db w), (log w). destruct w. simpl. rewrite drop_0.
    split; [done|]. split; [done|]. intros _ i t Hi. done. }
  simpl. unfold mbind, M_bind, try_except, store_delete.
  rewrite execute_run. destruct w as [d fs lg]. simpl.
  destruct (fault_at 0 {| db := d; faults := fs; log := lg |}) eqn:Hfault; simpl.
  - destruct (IH {| db := d; faults := tail fs;
                    log := lg ++ [LogError ("Failed to delete from " +:+ t0)] |})
      as (d' & lg' & Hrun & Hout & Hin).
    simpl in Hrun. rewrite drop_tail in Hrun.
    exists d', lg'. split; [done|]. split.
    + intros t [Ht0 Ht]%not_elem_of_cons. by rewrite Hout.
    + intros [Hnot Hnd]%NoDup_cons [|i] t Hi; simpl in Hi.
      * simplify_eq. rewrite Hout by done. by rewrite Hfault.
      * rewrite (Hin Hnd i t Hi). by rewrite fault_at_tail.
  - destruct (IH {| db := alter (List.filter
                         (λ r, negb (bool_decide (r !! "user_id" = Some (VStr uid)))))
                         t0 d;
                    faults := tail fs; log := lg |})
      as (d' & lg' & Hrun & Hout & Hin).
    simpl in Hrun. rewrite drop_tail in Hrun.
    exists d', lg'. split; [done|]. split.
    + intros t [Ht0 Ht]%not_elem_of_cons. rewrite Hout by done. simpl.
      by rewrite table_alter_ne.
    + intros [Hnot Hnd]%NoDup_cons [|i] t Hi; simpl in Hi.
      * simplify_eq. rewrite Hout by done. simpl. rewrite Hfault.
        by rewrite table_alter.
      * rewrite (Hin Hnd i t Hi). rewrite fault_at_tail. simpl.
        assert (t0 ≠ t) as Hne.
        { intros ->. apply Hnot. by eapply list_elem_of_lookup_2. }
        by rewrite table_alter_ne.
Qed.

Lemma table_audit_maybe (b : bool) d (r : row) t :
  t ≠ "audit_logs" →
  table (if b then d else <["audit_logs" := table d "audit_logs" ++ [r]]> d) t
  = table d t.
Proof. intros Ht. destruct b; [done|]. by rewrite table_insert_ne. Qed.

Section DataProtectionProperties.
Variable json_dumps_export : bool → option export_bundle → option string.
Variable json_dumps_row : row → option string.
Variable fernet_encrypt : string → string.
Variable sha256_hex : string → string.

Abbreviation delete_data :=
  (delete_user_data json_dumps_export fernet_encrypt sha256_hex).
Abbreviation archive_user_data :=
  (_archive_user_data json_dumps_export fernet_encrypt sha256_hex).

(** Archiving the bundle either raises at serialisation, before any
    request, or makes one request, on [archived_user_data] only. *)
Lemma archive_user_data_run now uid b w :
  (archive_user_data now uid b w = (None, w)
   ∧ ∃ sort_keys, json_dumps_export sort_keys b = None)
  ∨ (∃ d' lg,
       archive_user_data now uid b w
         = (Some (), {| db := d'; faults := tail (faults w); log := lg |})
       ∧ ∀ t, t ≠ "archived_user_data" → table d' t = table (db w) t).
Proof.
  unfold _archive_user_data, dumps_export, mbind, M_bind.
  destruct (json_dumps_export true b) as [sorted|] eqn:Hs; simpl; [|eauto].
  destruct (json_dumps_export false b) as [plain|] eqn:Hp; simpl; [|eauto].
  right. unfold try_except, store_insert. rewrite execute_run.
  destruct (fault_at 0 w); simpl.
  - eexists _, _. split; [done|]. done.
  - eexists _, _. split; [done|]. intros t Ht. by rewrite table_insert_ne.
Qed.

(** The deletion proper: the loop over the tables, the audit record and
    the final [return True]. *)
Lemma delete_after_archive now uid w :
  ∃ d' lg,
    (_ ← delete_tables uid tables_to_delete;
     _ ← log_data_access now uid "all_data" "delete" "system"
           "data_deletion_system" "Full data deletion for GDPR compliance";
     _ ← write_log (LogInfo ("User data deleted: " +:+ uid));
     mret true) w
    = (Some true, {| db := d'; faults := drop 9 (faults w); log := lg |})
    ∧ (∀ t, t ∉ tables_to_delete → t ≠ "audit_logs" →
            table d' t = table (db w) t)
    ∧ (∀ i t, tables_to_delete !! i = Some t →
         table d' t =
           if fault_at i w then table (db w) t
           else List.filter (λ r, negb (matches (Eq "user_id" (VStr uid)) r))
                  (table (db w) t)).
Proof.
  unfold mbind, M_bind.
  destruct (delete_tables_spec uid tables_to_delete w)
    as (d1 & lg1 & Hrun & Hout & Hin).
  rewrite Hrun.
  destruct (log_data_access_run now uid "all_data" "delete" "system"
              "data_deletion_system" "Full data deletion for GDPR compliance"
              {| db := d1; faults := drop (length tables_to_delete) (faults w);
                 log := lg1 |}) as (lg2 & Hlog).
  rewrite Hlog. cbn -[drop fault_at table].
  eexists _, _. split.
  { rewrite (tail_drop 8). reflexivity. }
  split.
  - intros t Ht Haudit. rewrite table_audit_maybe by done. by apply Hout.
  - intros i t Hi. rewrite table_audit_maybe.
    + by apply Hin; [apply NoDup_tables_to_delete|].
    + intros ->. apply list_elem_of_lookup_2 in Hi.
      by apply audit_logs_not_deleted.
Qed.

(** The two ways [delete_user_data] ends: [False] when serialising the
    archive raised, [True] otherwise, after the loop over the tables
    ran from the world [w0] that archiving left. *)
Lemma delete_user_data_run now uid af w :
  (af = true
   ∧ (∃ sort_keys b, json_dumps_export sort_keys b = None)
   ∧ ∃ w1, delete_data now uid af w = (Some false, w1))
  ∨ (∃ w0 w1,
       delete_data now uid af w = (Some true, w1)
       ∧ faults w0 = drop (if af then 10 else 0)%nat (faults w)
       ∧ faults w1 = drop 9 (faults w0)
       ∧ (∀ t, t ∈ tables_to_delete → table (db w0) t = table (db w) t)
       ∧ (∀ i t, tables_to_delete !! i = Some t →
            table (db w1) t =
              if fault_at i w0 then table (db w0) t
              else List.filter
                     (λ r, negb (matches (Eq "user_id" (VStr uid)) r))
                     (table (db w0) t))).
Proof.
  destruct af.
  - destruct (export_user_data_spec now uid w) as (b & lg & Hexp & _).
    set (w_exp := {| db := if fault_at 8 w then db w
                           else <["audit_logs" :=
                                    table (db w) "audit_logs"
                                    ++ [export_audit now uid]]> (db w);
                     faults := drop 9 (faults w); log := lg |}) in *.
    destruct (archive_user_data_run now uid (Some b) w_exp)
      as [[Harch Hnone] | (d' & lg' & Harch & Hsame)].
    + left. split; [done|]. destruct Hnone as [sk Hsk].
      split; [by exists sk, (Some b)|].
      unfold delete_user_data, try_except, mbind, M_bind.
      cbv beta iota. rewrite Hexp, Harch. cbn. eauto.
    + right.
      destruct (delete_after_archive now uid
                  {| db := d'; faults := tail (faults w_exp); log := lg' |})
        as (d2 & lg2 & Hrest & Hout & Hin).
      unfold mbind, M_bind in Hrest.
      exists {| db := d'; faults := tail (faults w_exp); log := lg' |},
             {| db := d2;
                faults := drop 9 (tail (faults w_exp)); log := lg2 |}.
      split.
      { unfold delete_user_data, try_except, mbind, M_bind.
        cbv beta iota. rewrite Hexp, Harch. cbv beta iota.
        by rewrite Hrest. }
      split; [subst w_exp; simpl; apply tail_drop|].
      split; [done|]. split; [|done].
      intros t Ht. simpl. rewrite Hsame.
      * subst w_exp. simpl. apply table_audit_maybe.
        intros ->. by apply audit_logs_not_deleted.
      * intros ->. revert Ht. by_compute.
  - right.
    destruct (delete_after_archive now uid w)
      as (d2 & lg2 & Hrest & Hout & Hin).
    unfold mbind, M_bind in Hrest.
    exists w, {| db := d2; faults := drop 9 (faults w); log := lg2 |}.
    split.
    { unfold delete_user_data, try_except, mbind, M_bind.
      cbv beta iota. unfold mret at 1, M_ret at 1. cbv beta iota.
      by rewrite Hrest. }
    split; [by rewrite drop_0|]. done.
Qed.

Lemma fault_at_no_faults i w : faults w = [] → fault_at i w = false.
Proof. intros H. unfold fault_at. by rewrite H, lookup_nil. Qed.

Lemma fault_at_drop i k w w0 :
  faults w0 = drop k (faults w) → fault_at i w0 = fault_at (k + i) w.
Proof. intros H. unfold fault_at. by rewrite H, lookup_drop. Qed.

(** C9: on a store whose requests all succeed, a deletion that reports
    success followed by an export gives a bundle whose collection is
    empty for every exported table; the tables deleted are the tables
    exported. *)
Theorem delete_then_export_is_empty now now' uid archive_first w w1 :
  faults w = [] →
  delete_data now uid archive_first w = (Some true, w1) →
  ∃ b w2,
    export_user_data now' uid w1 = (Some (Some b), w2)
    ∧ (∀ t, t ∈ tables_to_export → data b !! t = Some [])
    ∧ (∀ t, t ∉ tables_to_export → data b !! t = None)
    ∧ tables_to_delete ≡ₚ tables_to_export.
Proof.
  intros Hfaults Hdel.
  destruct (delete_user_data_run now uid archive_first w)
    as [(_ & _ & w1' & Hrun) | (w0 & w1' & Hrun & Hf0 & Hf1 & Hsame & Hin)];
    rewrite Hrun in Hdel; simplify_eq.
  rewrite Hfaults, drop_nil in Hf0. rewrite Hf0, drop_nil in Hf1.
  destruct (export_user_data_spec now' uid w1)
    as (b & lg & Hexp & _ & _ & Hout & Hdata).
  eexists b, _. split; [exact Hexp|]. split; [|split; [done|]].
  - intros t Ht.
    destruct (list_elem_of_lookup_1 _ _ Ht) as [i Hi].
    rewrite (Hdata i t Hi), fault_at_no_faults by done.
    rewrite <- tables_deleted_are_exported in Ht.
    destruct (list_elem_of_lookup_1 _ _ Ht) as [j Hj].
    unfold user_rows. rewrite (Hin j t Hj), fault_at_no_faults by done.
    by rewrite user_rows_after_delete.
  - apply tables_deleted_are_exported.
Qed.

(** C10: [delete_user_data] returns [True] whatever requests to the
    store raise, as long as serialising the archive does not; when the
    eight deletions all raise it still returns [True] and every table
    keeps its rows; it returns [False] only when serialising the archive
    raised, which is before the loop over the tables; and it never lets
    an exception out. *)
Theorem delete_reports_success_despite_store_errors :
  (∀ now uid af w,
     (af = true → ∀ sort_keys b, is_Some (json_dumps_export sort_keys b)) →
     ∃ w1, delete_data now uid af w = (Some true, w1))
  ∧ (∀ now uid af w,
       (af = true → ∀ sort_keys b, is_Some (json_dumps_export sort_keys b)) →
       (∀ i, (i < 8)%nat → fault_at ((if af then 10 else 0) + i) w = true) →
       ∃ w1, delete_data now uid af w = (Some true, w1)
             ∧ ∀ t, t ∈ tables_to_delete → table (db w1) t = table (db w) t)
  ∧ (∀ now uid af w w1,
       delete_data now uid af w = (Some false, w1) →
       af = true ∧ ∃ sort_keys b, json_dumps_export sort_keys b = None)
  ∧ (∀ now uid af w, ∃ ok w1, delete_data now uid af w = (Some ok, w1)).
Proof.
  split; [|split; [|split]].
  - intros now uid af w Hdumps.
    destruct (delete_user_data_run now uid af w)
      as [(Haf & (sk & b & Hnone) & _) | (w0 & w1 & Hrun & _)]; [|eauto].
    destruct (Hdumps Haf sk b) as [s Hs]. congruence.
  - intros now uid af w Hdumps Hfaults.
    destruct (delete_user_data_run now uid af w)
      as [(Haf & (sk & b & Hnone) & _)
         | (w0 & w1 & Hrun & Hf0 & _ & Hsame & Hin)].
    { destruct (Hdumps Haf sk b) as [s Hs]. congruence. }
    exists w1. split; [done|]. intros t Ht.
    destruct (list_elem_of_lookup_1 _ _ Ht) as [i Hi].
    rewrite (Hin i t Hi), (fault_at_drop i _ w w0 Hf0), Hfaults.
    + by apply Hsame.
    + apply lookup_lt_Some in Hi. exact Hi.
  - intros now uid af w w1 Hdel.
    destruct (delete_user_data_run now uid af w)
      as [(Haf & Hnone & _) | (w0 & w1' & Hrun & _)]; [done|].
    rewrite Hrun in Hdel. done.
  - intros now uid af w.
    destruct (delete_user_data_run now uid af w)
      as [(_ & _ & w1 & Hrun) | (w0 & w1 & Hrun & _)]; eauto.
Qed.
End DataProtectionProperties.

(** C3 (as amended): every call to the export returns a bundle with the
    user's identifier and the export instant that has an entry for each
    exported table, holding the user's rows of that table, or the empty
    list when reading the table raised; it makes one insert into the audit
    log, which adds exactly one record unless that insert raises, and the
    classification of that record is ['internal'], the default for the
    data type ['all_data'], which has no retention policy. *)
Theorem export_bundle_and_audit now uid w :
  ∃ b w',
    export_user_data now uid w = (Some (Some b), w')
    ∧ bundle_user_id b = uid
    ∧ export_timestamp b = now
    ∧ (∀ i t, tables_to_export !! i = Some t →
         data b !! t = Some (if fault_at i w then [] else user_rows uid (db w) t))
    ∧ table (db w') "audit_logs"
      = table (db w) "audit_logs"
        ++ (if fault_at 8 w then [] else [export_audit now uid])
    ∧ export_audit now uid !! "classification" = Some (VStr "internal")
    ∧ export_audit now uid !! "action" = Some (VStr "export")
    ∧ export_audit now uid !! "user_id" = Some (VStr uid).
Proof.
  destruct (export_user_data_spec now uid w)
    as (b & lg & Hexp & Huid & Hts & _ & Hdata).
  eexists b, _. split; [exact Hexp|].
  split; [done|]. split; [done|]. split; [done|]. split.
  { simpl. destruct (fault_at 8 w).
    - by rewrite app_nil_r.
    - by rewrite table_insert. }
  unfold export_audit, audit_record. repeat split; by map_lookup.
Qed.

Lemma export_bundle_and_audit_witness :
  ∃ b w',
    export_user_data 7 "u1" (journal_world []) = (Some (Some b), w')
    ∧ data b !! "journal_entries" = Some [data_row 1 "u1" 0]
    ∧ table (db w') "audit_logs" = [export_audit 7 "u1"].
Proof.
  destruct (export_bundle_and_audit 7 "u1" (journal_world []))
    as (b & w' & Hrun & _ & _ & Hdata & Haudit & _).
  exists b, w'. split; [exact Hrun|]. split.
  - rewrite (Hdata 1%nat "journal_entries" eq_refl). by_compute.
  - rewrite Haudit. by_compute.
Defined.

(** C3, as first stated, fails: on a store with no fault pending, the one
    audit record an export writes is classified ['internal'], not
    ['confidential']. *)
Lemma export_audit_is_not_confidential :
  table (db (export_user_data 7 "u1" (journal_world [])).2) "audit_logs"
    = [export_audit 7 "u1"]
  ∧ export_audit 7 "u1" !! "classification" = Some (VStr "internal")
  ∧ export_audit 7 "u1" !! "classification" ≠ Some (VStr "confidential").
Proof. by_compute. Qed.

Lemma delete_then_export_is_empty_witness :
  ∃ b w2,
    export_user_data 8 "u1"
      (delete_user_data sample_dumps_export sample_encrypt sample_sha256
         7 "u1" true (journal_world [])).2
      = (Some (Some b), w2)
    ∧ (∀ t, t ∈ tables_to_export → data b !! t = Some []).
Proof.
  destruct (delete_then_export_is_empty sample_dumps_export sample_encrypt
              sample_sha256 7 8 "u1" true (journal_world [])
              (delete_user_data sample_dumps_export sample_encrypt
                 sample_sha256 7 "u1" true (journal_world [])).2)
    as (b & w2 & Hrun & Hempty & _).
  - reflexivity.
  - by_compute.
  - exists b, w2. split; [exact Hrun | exact Hempty].
Defined.

Lemma delete_reports_success_despite_store_errors_witness :
  ∃ w1,
    delete_user_data sample_dumps_export sample_encrypt sample_sha256
      7 "u1" false (journal_world (replicate 8 true))
      = (Some true, w1)
    ∧ ∀ t, t ∈ tables_to_delete →
        table (db w1) t = table (db (journal_world (replicate 8 true))) t.
Proof.
  apply (proj1 (proj2 (delete_reports_success_despite_store_errors
                         sample_dumps_export sample_encrypt sample_sha256))
           7 "u1" false (journal_world (replicate 8 true))).
  - intros Haf. discriminate Haf.
  - intros i Hi. do 8 (destruct i as [|i]; [reflexivity|]). lia.
Defined.

(** ** Consent *)

Lemma elem_of_List_filter {A} (P : A → bool) (l : list A) x :
  x ∈ List.filter P l ↔ x ∈ l ∧ P x = true.
Proof. rewrite !list_elem_of_In. apply filter_In. Qed.

Lemma project_lookup l (r : row) k :
  project (Columns l) r !! k = if bool_decide (k ∈ l) then r !! k else None.
Proof.
  simpl. case_bool_decide as Hk.
  - destruct (r !! k) as [v|] eqn:Hr.
    + apply map_lookup_filter_Some. split; [done|]. simpl.
      by apply bool_decide_pack.
    + apply map_lookup_filter_None. by left.
  - apply map_lookup_filter_None. right. intros v _ Hin. simpl in Hin.
    by apply bool_decide_unpack in Hin.
Qed.

#[local] Instance desc_by_total col : Total (desc_by col).
Proof.
  intros r1 r2. unfold desc_by, key_ge.
  destruct (sort_key col r1), (sort_key col r2); simpl; auto.
  destruct (decide (z0 ≤ z)).
  - left. by apply bool_decide_pack.
  - right. apply bool_decide_pack. lia.
Qed.

#[local] Instance desc_by_trans col : Transitive (desc_by col).
Proof.
  intros r1 r2 r3. unfold desc_by, key_ge.
  destruct (sort_key col r1), (sort_key col r2), (sort_key col r3);
    simpl; try done.
  intros H1%bool_decide_unpack H2%bool_decide_unpack.
  apply bool_decide_pack. lia.
Qed.

(** In a sorted list, an element that every other element with the
    property stands strictly after is the first with the property. *)
Lemma sorted_first {A} (R : relation A) (P : A → bool) (l : list A) x :
  StronglySorted R l →
  x ∈ l → P x = true →
  (∀ y, y ∈ l → P y = true → y = x ∨ ¬ R y x) →
  ∃ rest, List.filter P l = x :: rest.
Proof.
  induction 1 as [|y l Hsorted IH Hall]; intros Hx HPx Hothers.
  { by apply not_elem_of_nil in Hx. }
  simpl. destruct (P y) eqn:HPy.
  - destruct (Hothers y) as [->|Hnot]; [left|done|eauto|].
    apply elem_of_cons in Hx as [->|Hx]; [eauto|].
    destruct Hnot. rewrite Forall_forall in Hall. by apply Hall.
  - apply elem_of_cons in Hx as [->|Hx]; [congruence|].
    apply IH; [done..|]. intros z Hz. apply Hothers. by right.
Qed.

Lemma consent_type_value_inj c1 c2 :
  consent_type_value c1 = consent_type_value c2 → c1 = c2.
Proof. by destruct c1, c2. Qed.

Lemma consent_row_user_id c : consent_row c !! "user_id" = Some (VStr (user_id c)).
Proof. unfold consent_row. by map_lookup. Qed.

Lemma consent_row_consent_type c :
  consent_row c !! "consent_type"
  = Some (VStr (consent_type_value (consent_type c))).
Proof. unfold consent_row. by map_lookup. Qed.

Lemma consent_row_granted c : consent_row c !! "granted" = Some (VBool (granted c)).
Proof. unfold consent_row. by map_lookup. Qed.

Lemma consent_row_sort_key c :
  sort_key "timestamp" (consent_row c) = Some (timestamp c).
Proof. unfold sort_key, consent_row. by map_lookup. Qed.

Lemma project_consent_type (r : row) :
  project (Columns ["consent_type"; "granted"]) r !! "consent_type"
  = r !! "consent_type".
Proof.
  rewrite project_lookup.
  by rewrite (bool_decide_eq_true_2 ("consent_type" ∈ _)) by (repeat constructor).
Qed.

Lemma project_granted (r : row) :
  project (Columns ["consent_type"; "granted"]) r !! "granted" = r !! "granted".
Proof.
  rewrite project_lookup.
  by rewrite (bool_decide_eq_true_2 ("granted" ∈ _)) by (repeat constructor).
Qed.

Section ConsentProperties.
(** The loop keeps, for each category, the value of the first record of
    that category. *)
Lemma latest_consents_spec (records : list row) :
  ∀ acc w,
    Forall (λ r, ∃ k g, r !! "consent_type" = Some (VStr k)
                        ∧ r !! "granted" = Some g) records →
    ∃ consents,
      latest_consents records acc w = (Some consents, w)
      ∧ ∀ k, consents !! VStr k =
               match acc !! VStr k with
               | Some v => Some v
               | None => first_granted k records
               end.
Proof.
  induction records as [|r records IH]; intros acc w Hwf.
  { exists acc. split; [done|]. intros k. unfold first_granted. simpl.
    by destruct (acc !! VStr k). }
  apply Forall_cons in Hwf as [(k0 & g0 & Hk0 & Hg0) Hwf].
  simpl. unfold item, mbind, M_bind. rewrite Hk0. simpl.
  destruct (acc !! VStr k0) as [v0|] eqn:Hacc.
  - destruct (IH acc w Hwf) as (consents & Hrun & Hlook).
    exists consents. split; [done|]. intros k. rewrite Hlook.
    destruct (acc !! VStr k) eqn:Hk; [done|].
    unfold first_granted. simpl. rewrite Hk0.
    rewrite bool_decide_eq_false_2; [done|]. congruence.
  - rewrite Hg0. simpl.
    destruct (IH (<[VStr k0 := g0]> acc) w Hwf) as (consents & Hrun & Hlook).
    exists consents. split; [done|]. intros k. rewrite Hlook.
    unfold first_granted. simpl. rewrite Hk0.
    destruct (decide (k = k0)) as [->|Hne].
    + rewrite lookup_insert_eq, Hacc.
      by rewrite bool_decide_eq_true_2.
    + rewrite lookup_insert_ne by congruence.
      rewrite (bool_decide_eq_false_2 (Some (VStr k0) = Some (VStr k)));
        [done|congruence].
Qed.

(** What [get_user_consents] answers for the category of a record that
    is newer than every other record of the user in that category. *)
Lemma newest_record_wins (records : list ConsentRecord) uid w c :
  table (db w) "user_consents" = consent_row <$> records →
  requests_succeed 1 w →
  c ∈ records →
  user_id c = uid →
  (∀ c', c' ∈ records → user_id c' = uid →
         consent_type c' = consent_type c →
         c' = c ∨ timestamp c' < timestamp c) →
  ∃ consents w',
    get_user_consents uid w = (Some consents, w')
    ∧ db w' = db w
    ∧ consents !! VStr (consent_type_value (consent_type c))
      = Some (VBool (granted c)).
Proof.
  intros Htable Hok Hc Huid Hnewest.
  unfold get_user_consents, try_except, mbind, M_bind, store_select_desc.
  rewrite execute_ok by done. cbn [fst snd]. rewrite Htable.
  set (L := merge_sort (desc_by "timestamp")
              (List.filter (matches (Eq "user_id" (VStr uid)))
                 (consent_row <$> records))).
  assert (∀ y, y ∈ L ↔ ∃ c', y = consent_row c' ∧ c' ∈ records
                             ∧ user_id c' = uid) as HL.
  { intros y. unfold L. rewrite merge_sort_Permutation, elem_of_List_filter.
    rewrite list_elem_of_fmap. simpl. split.
    - intros [(c' & -> & Hc') Hm]. exists c'. split; [done|]. split; [done|].
      apply bool_decide_eq_true_1 in Hm.
      rewrite consent_row_user_id in Hm. congruence.
    - intros (c' & -> & Hc' & Hu). split; [eauto|].
      apply bool_decide_eq_true_2. rewrite consent_row_user_id. congruence. }
  set (cols := Columns ["consent_type"; "granted"]).
  destruct (latest_consents_spec (project cols <$> L) ∅
              {| db := db w; faults := tail (faults w); log := log w |})
    as (consents & Hrun & Hlook).
  { apply Forall_fmap, Forall_forall. intros y Hy.
    apply HL in Hy as (c' & -> & _).
    exists (consent_type_value (consent_type c')), (VBool (granted c')).
    unfold cols. rewrite project_consent_type, project_granted.
    by rewrite consent_row_consent_type, consent_row_granted. }
  rewrite Hrun. eexists _, _. split; [reflexivity|]. split; [done|].
  rewrite Hlook, lookup_empty. unfold first_granted.
  rewrite (filter_fmap_commute _ (project cols)).
  2:{ intros r. unfold cols. by rewrite project_consent_type. }
  destruct (sorted_first (desc_by "timestamp")
              (λ r, bool_decide (r !! "consent_type"
                       = Some (VStr (consent_type_value (consent_type c)))))
              L (consent_row c)) as [rest ->].
  - apply StronglySorted_merge_sort; apply _.
  - apply HL. eauto.
  - apply bool_decide_eq_true_2, consent_row_consent_type.
  - intros y Hy Hty. apply HL in Hy as (c' & -> & Hc' & Hu).
    apply bool_decide_eq_true_1 in Hty.
    rewrite consent_row_consent_type in Hty.
    destruct (Hnewest c') as [->|Hlt]; [done..| |by left|].
    { apply consent_type_value_inj. congruence. }
    right. unfold desc_by. rewrite !consent_row_sort_key. simpl.
    intros Hge%bool_decide_unpack. lia.
  - rewrite fmap_cons. unfold cols. rewrite project_granted.
    apply consent_row_granted.
Qed.

(** C4: for the category of a record of the user that is newer than
    every other record of the user in that category,
    [get_user_consents] answers the [granted] of that record; the
    condition does not depend on the order of the records, so neither
    does the answer; and for records [(A,true,t1)], [(A,false,t3)],
    [(A,true,t2)] inserted in that order, with [t1 < t2 < t3], the
    answer for [A] is [false]. *)
Theorem consent_is_latest_by_timestamp :
  (∀ (records : list ConsentRecord) uid w c,
     table (db w) "user_consents" = consent_row <$> records →
     requests_succeed 1 w →
     c ∈ records →
     user_id c = uid →
     (∀ c', c' ∈ records → user_id c' = uid →
            consent_type c' = consent_type c →
            c' = c ∨ timestamp c' < timestamp c) →
     ∃ consents w',
       get_user_consents uid w = (Some consents, w')
       ∧ consents !! VStr (consent_type_value (consent_type c))
         = Some (VBool (granted c)))
  ∧ (∀ (records records' : list ConsentRecord) uid w1 w2 c,
       records ≡ₚ records' →
       table (db w1) "user_consents" = consent_row <$> records →
       table (db w2) "user_consents" = consent_row <$> records' →
       requests_succeed 1 w1 → requests_succeed 1 w2 →
       c ∈ records →
       user_id c = uid →
       (∀ c', c' ∈ records → user_id c' = uid →
              consent_type c' = consent_type c →
              c' = c ∨ timestamp c' < timestamp c) →
       ∃ consents1 w1' consents2 w2',
         get_user_consents uid w1 = (Some consents1, w1')
         ∧ get_user_consents uid w2 = (Some consents2, w2')
         ∧ consents1 !! VStr (consent_type_value (consent_type c))
           = consents2 !! VStr (consent_type_value (consent_type c)))
  ∧ (∀ uid A t1 t2 t3 ip ua ver w,
       t1 < t2 → t2 < t3 →
       table (db w) "user_consents"
         = consent_row <$> [Consent uid A true t1 ip ua ver;
                            Consent uid A false t3 ip ua ver;
                            Consent uid A true t2 ip ua ver] →
       requests_succeed 1 w →
       ∃ consents w',
         get_user_consents uid w = (Some consents, w')
         ∧ consents !! VStr (consent_type_value A) = Some (VBool false)).
Proof.
  split; [|split].
  - intros records uid w c Htable Hok Hc Huid Hnewest.
    destruct (newest_record_wins records uid w c)
      as (consents & w' & Hrun & _ & Hlook); eauto.
  - intros records records' uid w1 w2 c Hperm Ht1 Ht2 Hok1 Hok2 Hc Huid Hnewest.
    destruct (newest_record_wins records uid w1 c)
      as (consents1 & w1' & Hrun1 & _ & Hlook1); try done.
    destruct (newest_record_wins records' uid w2 c)
      as (consents2 & w2' & Hrun2 & _ & Hlook2); try done.
    { by rewrite <- Hperm. }
    { intros c' Hc'. apply Hnewest. by rewrite Hperm. }
    exists consents1, w1', consents2, w2'.
    split; [done|]. split; [done|]. by rewrite Hlook1, Hlook2.
  - intros uid A t1 t2 t3 ip ua ver w H12 H23 Htable Hok.
    destruct (newest_record_wins _ uid w (Consent uid A false t3 ip ua ver)
                Htable Hok)
      as (consents & w' & Hrun & _ & Hlook).
    + right. left.
    + done.
    + intros c' Hc' _ _.
      apply elem_of_cons in Hc' as [->|Hc']; [right; simpl; lia|].
      apply elem_of_cons in Hc' as [->|Hc']; [by left|].
      apply list_elem_of_singleton in Hc' as ->. right. simpl. lia.
    + eauto.
Qed.
End ConsentProperties.

Lemma consent_is_latest_by_timestamp_witness :
  ∃ consents w',
    get_user_consents "u1"
      {| db := {["user_consents" := consent_row <$> sample_consents]};
         faults := []; log := [] |}
    = (Some consents, w')
    ∧ consents !! VStr "analytics" = Some (VBool false).
Proof.
  apply (proj1 consent_is_latest_by_timestamp sample_consents "u1"
           {| db := {["user_consents" := consent_row <$> sample_consents]};
              faults := []; log := [] |}
           (Consent "u1" ANALYTICS false 30 "10.0.0.1" "curl" "1.0")).
  - by_compute.
  - reflexivity.
  - unfold sample_consents. right. left.
  - reflexivity.
  - intros c' Hc' _ _. unfold sample_consents in Hc'.
    apply elem_of_cons in Hc' as [->|Hc']; [right; simpl; lia|].
    apply elem_of_cons in Hc' as [->|Hc']; [by left|].
    apply list_elem_of_singleton in Hc' as ->. right. simpl. lia.
Defined.

(** ** Retention sweep *)

Lemma filter_none {A} (P : A → bool) (l : list A) :
  (∀ x, x ∈ l → P x = false) → List.filter P l = [].
Proof.
  induction l as [|x l IH]; intros H; [done|]. simpl.
  rewrite (H x) by left. apply IH. intros y Hy. apply H. by right.
Qed.

Lemma world_eta w :
  faults w = [] → {| db := db w; faults := []; log := log w |} = w.
Proof. destruct w. simpl. by intros ->. Qed.

(** A request on a store with no fault pending. *)
Lemma execute_no_faults {A}
    (f : gmap string (list row) → A * gmap string (list row)) w :
  faults w = [] →
  execute f w
  = (Some (f (db w)).1, {| db := (f (db w)).2; faults := []; log := log w |}).
Proof.
  intros H. rewrite execute_ok.
  - by rewrite H.
  - unfold requests_succeed. by rewrite H.
Qed.

Lemma project_id (r : row) :
  project (Columns ["id"; "user_id"; "created_at"]) r !! "id" = r !! "id".
Proof.
  rewrite project_lookup.
  by rewrite (bool_decide_eq_true_2 ("id" ∈ _)) by (repeat constructor).
Qed.

Section RetentionProperties.
Variable json_dumps_row : row → option string.
Variable fernet_encrypt : string → string.
Hypothesis dumps_total : ∀ r, is_Some (json_dumps_row r).

Abbreviation sweep := (apply_retention_policies json_dumps_row fernet_encrypt).
Abbreviation sweep_policies := (apply_policies json_dumps_row fernet_encrypt).
Abbreviation sweep_one := (sweep_table json_dumps_row fernet_encrypt).
Abbreviation sweep_rows := (sweep_records json_dumps_row fernet_encrypt).

(** With no fault pending, the loop over the selected records deletes
    every row that has the identifier of one of them, and touches only
    the table and the archive. *)
Lemma sweep_records_spec now dt policy (records : list row) :
  dt ≠ "archived_records" →
  ∀ w,
    faults w = [] →
    Forall (λ r, is_Some (r !! "id")) records →
    ∃ d',
      sweep_rows now dt policy records w
        = (Some (), {| db := d'; faults := []; log := log w |})
      ∧ (∀ t, t ≠ dt → t ≠ "archived_records" → table d' t = table (db w) t)
      ∧ (∀ r, r ∈ table d' dt →
           r ∈ table (db w) dt
           ∧ ∀ rec, rec ∈ records → r !! "id" ≠ rec !! "id").
Proof.
  intros Hdt. induction records as [|rec records IH]; intros w Hf Hids.
  { exists (db w). simpl. split; [by rewrite <- Hf; destruct w|].
    split; [done|]. intros r Hr. split; [done|].
    intros rec Hrec. by apply not_elem_of_nil in Hrec. }
  apply Forall_cons in Hids as [[v Hv] Hids].
  simpl. unfold mbind, M_bind.
  assert (∃ d1,
    (if archive_before_delete policy
     then _archive_record json_dumps_row fernet_encrypt now dt rec
     else mret ()) w = (Some (), {| db := d1; faults := []; log := log w |})
    ∧ ∀ t, t ≠ "archived_records" → table d1 t = table (db w) t)
    as (d1 & -> & Hd1).
  { destruct (archive_before_delete policy).
    - unfold _archive_record, item, dumps_row, mbind, M_bind.
      rewrite Hv. cbv beta iota. unfold mret at 1, M_ret at 1. cbv beta iota.
      destruct (dumps_total rec) as [plain ->]. cbv beta iota.
      unfold mret at 1, M_ret at 1. cbv beta iota.
      unfold try_except, store_insert. rewrite execute_no_faults by done.
      eexists. split; [reflexivity|]. intros t Ht. simpl.
      by rewrite table_insert_ne.
    - exists (db w). split; [by rewrite <- Hf; destruct w|]. done. }
  unfold item. rewrite Hv. cbv beta iota. unfold mret at 1, M_ret at 1.
  cbv beta iota. unfold store_delete. rewrite execute_no_faults by done.
  cbn [fst snd db log].
  destruct (IH {| db := alter (List.filter (λ r, negb (matches (Eq "id" v) r)))
                           dt d1;
                  faults := []; log := log w |}) as (d' & Hrun & Hout & Hin);
    [done..|].
  exists d'. split; [exact Hrun|]. split.
  - intros t Ht Harch. rewrite Hout by done. simpl.
    rewrite table_alter_ne by done. by apply Hd1.
  - intros r Hr. apply Hin in Hr as [Hr Hrest]. simpl in Hr.
    rewrite table_alter in Hr by done.
    apply elem_of_List_filter in Hr as [Hr Hne].
    rewrite Hd1 in Hr by done. split; [done|].
    intros rec' [->|Hrec']%elem_of_cons; [|by apply Hrest].
    rewrite Hv. apply negb_true_iff in Hne.
    by apply bool_decide_eq_false_1 in Hne.
Qed.

(** With no fault pending, sweeping a table leaves no row of it older
    than the cut-off, and touches only that table and the archive. *)
Lemma sweep_table_spec now dt policy w :
  dt ≠ "archived_records" →
  faults w = [] →
  Forall (λ r, is_Some (r !! "id")) (table (db w) dt) →
  ∃ w',
    sweep_one now dt policy w = (Some (), w')
    ∧ faults w' = []
    ∧ old_rows now policy (db w') dt = []
    ∧ (∀ t, t ≠ dt → t ≠ "archived_records" →
            table (db w') t = table (db w) t).
Proof.
  intros Hdt Hf Hids.
  unfold sweep_table, try_except, mbind, M_bind, store_select.
  rewrite execute_no_faults by done. cbn [fst snd].
  set (cutoff := now - retention_period_days policy * seconds_per_day).
  set (cols := Columns ["id"; "user_id"; "created_at"]).
  set (records := project cols <$> List.filter (matches (Lt "created_at" cutoff))
                                     (table (db w) dt)).
  destruct (sweep_records_spec now dt policy records Hdt
              {| db := db w; faults := []; log := log w |})
    as (d' & Hrun & Hout & Hin); [done| |].
  { apply Forall_fmap, Forall_forall. intros r Hr.
    unfold cols, compose. rewrite project_id.
    apply elem_of_List_filter in Hr as [Hr _].
    rewrite Forall_forall in Hids. by apply Hids. }
  rewrite Hrun.
  assert (old_rows now policy d' dt = []) as Hclean.
  { apply filter_none. intros r Hr. apply Hin in Hr as [Hr Hne].
    simpl in Hr. apply not_true_is_false. intros Hold.
    apply (Hne (project cols r)).
    - apply list_elem_of_fmap_2, elem_of_List_filter. done.
    - unfold cols. by rewrite project_id. }
  destruct (bool_decide (records ≠ [])); eexists; (split; [reflexivity|]);
    simpl; done.
Qed.

(** A table with no row older than the cut-off: the sweep changes
    nothing. *)
Lemma sweep_table_noop now dt policy w :
  faults w = [] →
  old_rows now policy (db w) dt = [] →
  sweep_one now dt policy w = (Some (), w).
Proof.
  intros Hf Hold.
  unfold sweep_table, try_except, mbind, M_bind, store_select.
  rewrite execute_no_faults by done. cbn [fst snd].
  unfold old_rows in Hold. rewrite Hold. simpl.
  by rewrite world_eta.
Qed.

Lemma sweep_policies_noop now policies :
  ∀ w,
    faults w = [] →
    (∀ p, p ∈ policies → auto_delete p.2 = true →
          old_rows now p.2 (db w) p.1 = []) →
    sweep_policies now policies w = (Some (), w).
Proof.
  induction policies as [|[dt policy] policies IH]; intros w Hf Hclean;
    [done|].
  simpl. unfold mbind, M_bind.
  destruct (auto_delete policy) eqn:Hauto; simpl.
  - rewrite sweep_table_noop; [|done|].
    + apply IH; [done|]. intros p Hp. apply Hclean. by right.
    + by apply (Hclean (dt, policy)); [left|].
  - apply IH; [done|]. intros p Hp. apply Hclean. by right.
Qed.

Lemma sweep_policies_spec now policies :
  NoDup policies.*1 →
  "archived_records" ∉ policies.*1 →
  ∀ w,
    faults w = [] →
    keyed (db w) policies = true →
    ∃ w',
      sweep_policies now policies w = (Some (), w')
      ∧ faults w' = []
      ∧ (∀ p, p ∈ policies → auto_delete p.2 = true →
              old_rows now p.2 (db w') p.1 = [])
      ∧ (∀ t, t ∉ policies.*1 → t ≠ "archived_records" →
              table (db w') t = table (db w) t).
Proof.
  induction policies as [|[dt policy] policies IH];
    intros Hnd Harch w Hf Hkeyed.
  { exists w. split; [done|]. split; [done|]. split; [|done].
    intros p Hp. by apply not_elem_of_nil in Hp. }
  rewrite fmap_cons in Hnd, Harch. simpl in Hnd, Harch.
  apply NoDup_cons in Hnd as [Hfresh Hnd].
  apply not_elem_of_cons in Harch as [Hdt Harch].
  simpl in Hkeyed. apply andb_true_iff in Hkeyed as [Hids Hkeyed].
  assert (∃ w1,
    (if negb (auto_delete policy) then mret () else sweep_one now dt policy) w
      = (Some (), w1)
    ∧ faults w1 = []
    ∧ (auto_delete policy = true → old_rows now policy (db w1) dt = [])
    ∧ (∀ t, t ≠ dt → t ≠ "archived_records" →
            table (db w1) t = table (db w) t))
    as (w1 & Hrun1 & Hf1 & Hclean1 & Hout1).
  { destruct (auto_delete policy); simpl.
    - destruct (sweep_table_spec now dt policy w) as (w1 & ? & ? & ? & ?);
        [done..| |by eauto 10].
      apply Forall_forall. intros r Hr.
      rewrite forallb_forall in Hids.
      apply list_elem_of_In, Hids in Hr.
      by apply bool_decide_eq_true_1 in Hr.
    - exists w. split; [done|]. split; [done|]. split; [done|]. done. }
  destruct (IH Hnd Harch w1 Hf1) as (w' & Hrun & Hf' & Hclean & Hout).
  { unfold keyed in *. rewrite forallb_forall in Hkeyed.
    apply forallb_forall. intros p Hp. cbv beta. rewrite Hout1.
    - by apply (Hkeyed p).
    - intros Heq. apply Hfresh. apply list_elem_of_fmap.
      exists p. split; [done|]. by apply list_elem_of_In.
    - intros Heq. apply Harch. apply list_elem_of_fmap.
      exists p. split; [done|]. by apply list_elem_of_In. }
  exists w'. split.
  { simpl. unfold mbind, M_bind. by rewrite Hrun1. }
  split; [done|]. split.
  - intros p [->|Hp]%elem_of_cons Hauto.
    + simpl in *. unfold old_rows. rewrite Hout by done.
      by apply Hclean1.
    + by apply Hclean.
  - intros t [Ht Hnot]%not_elem_of_cons Ht'. rewrite Hout by done.
    by apply Hout1.
Qed.

Lemma retention_policies_distinct : NoDup retention_policies.*1.
Proof. by_compute. Qed.

Lemma archive_has_no_policy : "archived_records" ∉ retention_policies.*1.
Proof. by_compute. Qed.

(** C5 (as amended): on a store none of whose requests raises, with
    rows that serialise and carry their identifier, the retention sweep
    run twice in succession at the same instant ends in the state the
    first run reached: the second run changes nothing. *)
Theorem retention_sweep_idempotent now w :
  faults w = [] →
  keyed (db w) retention_policies = true →
  ∃ w1, sweep now w = (Some (), w1) ∧ sweep now w1 = (Some (), w1).
Proof.
  intros Hf Hkeyed. unfold apply_retention_policies.
  destruct (sweep_policies_spec now retention_policies
              retention_policies_distinct archive_has_no_policy w Hf Hkeyed)
    as (w1 & Hrun & Hf1 & Hclean & _).
  exists w1. split; [done|]. by apply sweep_policies_noop.
Qed.
End RetentionProperties.

Lemma retention_sweep_idempotent_witness :
  ∃ w1,
    apply_retention_policies sample_dumps_row sample_encrypt 259200000
      (journal_world []) = (Some (), w1)
    ∧ apply_retention_policies sample_dumps_row sample_encrypt 259200000 w1
      = (Some (), w1).
Proof.
  apply (retention_sweep_idempotent sample_dumps_row sample_encrypt).
  - intros r. by eexists.
  - reflexivity.
  - by_compute.
Defined.

(** C5, as first stated, fails: a first run archives record 1 and then
    fails to delete it (the third request raises); the next run archives
    it again, so the archive holds it twice. *)
Lemma retention_sweep_archives_twice :
  (λ r : row, r !! "original_id")
    <$> table
          (db (apply_retention_policies sample_dumps_row sample_encrypt 259200000
                 (apply_retention_policies sample_dumps_row sample_encrypt
                    259200000 (journal_world [false; false; true])).2).2)
          "archived_records"
  = [Some (VInt 1); Some (VInt 1); Some (VInt 2)].
Proof. by_compute. Qed.

(** * Further properties *)

(** ** Tokens *)

Section TokenLifetime.
Variable secret_key : string.

(** A token signed with the key verifies exactly from its [iat] until
    before its [exp]. *)
Lemma verify_token_window now t i e :
  signed_with t = secret_key →
  claims t !! "iat" = Some (VInt i) →
  claims t !! "exp" = Some (VInt e) →
  verify_token secret_key now t
  = if bool_decide (i ≤ now < e) then Some (claims t) else None.
Proof.
  intros Hkey Hiat Hexp. unfold verify_token, jwt_decode, check_instant.
  rewrite bool_decide_eq_true_2, Hiat, Hexp by done.
  repeat case_bool_decide; try done; lia.
Qed.

Lemma issued_access_token_verifies now now' uid em roles :
  now ≤ now' < now + SecurityConfig.JWT_ACCESS_TOKEN_EXPIRES →
  ∃ payload,
    verify_token secret_key now'
      (access_token (generate_tokens secret_key now uid em roles))
      = Some payload
    ∧ payload !! "user_id" = Some uid
    ∧ payload !! "email" = Some em
    ∧ payload !! "roles" = Some roles
    ∧ payload !! "type" = Some (VStr "access").
Proof.
  intros Hlt.
  rewrite (verify_token_window now' _ now
             (now + SecurityConfig.JWT_ACCESS_TOKEN_EXPIRES));
    [|done|simpl; by map_lookup..].
  rewrite bool_decide_eq_true_2 by done.
  eexists. split; [done|]. simpl. repeat split; by map_lookup.
Qed.

Lemma issued_refresh_token_verifies now now' uid em roles :
  now ≤ now' < now + SecurityConfig.JWT_REFRESH_TOKEN_EXPIRES →
  ∃ payload,
    verify_token secret_key now'
      (refresh_token (generate_tokens secret_key now uid em roles))
      = Some payload
    ∧ payload !! "user_id" = Some uid
    ∧ payload !! "email" = Some em
    ∧ payload !! "roles" = None
    ∧ payload !! "type" = Some (VStr "refresh").
Proof.
  intros Hlt.
  rewrite (verify_token_window now' _ now
             (now + SecurityConfig.JWT_REFRESH_TOKEN_EXPIRES));
    [|done|simpl; by map_lookup..].
  rewrite bool_decide_eq_true_2 by done.
  eexists. split; [done|]. simpl. repeat split; by map_lookup.
Qed.

(** Outside the thirty days of a refresh token the refresh is refused. *)
Lemma refresh_outside_window now now' uid em roles :
  ¬ (now ≤ now' < now + SecurityConfig.JWT_REFRESH_TOKEN_EXPIRES) →
  refresh_access_token secret_key now'
    (refresh_token (generate_tokens secret_key now uid em roles))
  = Some None.
Proof.
  intros Hout. apply refresh_rejects_unverified.
  rewrite (verify_token_window now' _ now
             (now + SecurityConfig.JWT_REFRESH_TOKEN_EXPIRES));
    [|done|simpl; by map_lookup..].
  by rewrite bool_decide_eq_false_2.
Qed.

Lemma refresh_of_issued_token_inv now now' uid em roles tok :
  refresh_access_token secret_key now'
    (refresh_token (generate_tokens secret_key now uid em roles))
    = Some (Some tok) →
  now ≤ now' < now + SecurityConfig.JWT_REFRESH_TOKEN_EXPIRES
  ∧ signed_with tok = secret_key
  ∧ claims tok !! "iat" = Some (VInt now')
  ∧ claims tok !! "exp"
    = Some (VInt (now' + SecurityConfig.JWT_ACCESS_TOKEN_EXPIRES))
  ∧ claims tok !! "roles" = Some (VStrs [])
  ∧ claims tok !! "user_id" = Some uid
  ∧ claims tok !! "email" = Some em.
Proof.
  intros Hrefresh.
  destruct (decide (now ≤ now'
                    < now + SecurityConfig.JWT_REFRESH_TOKEN_EXPIRES))
    as [Hin|Hout].
  - split; [done|].
    revert Hrefresh. unfold refresh_access_token.
    destruct (issued_refresh_token_verifies now now' uid em roles Hin)
      as (payload & -> & Huid & Hem & Hroles & Hty).
    rewrite bool_decide_eq_false_2 by (intros Hne; by apply Hne).
    rewrite Huid, Hem. unfold get. rewrite Hroles.
    intros [= <-]. simpl. repeat split; by map_lookup.
  - by rewrite refresh_outside_window in Hrefresh.
Qed.

(** X1: An access token verifies, under the key that signed it, from its
    issue until one hour later, and gives back the claims it was issued
    with; before its issue, from one hour on, and under any other key, it
    is refused. *)
Theorem access_token_round_trip now now' uid em roles :
  (now ≤ now' < now + SecurityConfig.JWT_ACCESS_TOKEN_EXPIRES →
     ∃ payload,
       verify_token secret_key now'
         (access_token (generate_tokens secret_key now uid em roles))
         = Some payload
       ∧ payload !! "user_id" = Some uid
       ∧ payload !! "email" = Some em
       ∧ payload !! "roles" = Some roles
       ∧ payload !! "type" = Some (VStr "access"))
  ∧ (now' < now →
       verify_token secret_key now'
         (access_token (generate_tokens secret_key now uid em roles)) = None)
  ∧ (now + SecurityConfig.JWT_ACCESS_TOKEN_EXPIRES ≤ now' →
       verify_token secret_key now'
         (access_token (generate_tokens secret_key now uid em roles)) = None)
  ∧ (∀ other_key, other_key ≠ secret_key →
       verify_token other_key now'
         (access_token (generate_tokens secret_key now uid em roles)) = None).
Proof.
  split; [apply issued_access_token_verifies|].
  assert (¬ (now ≤ now' < now + SecurityConfig.JWT_ACCESS_TOKEN_EXPIRES) →
          verify_token secret_key now'
            (access_token (generate_tokens secret_key now uid em roles))
          = None) as Hout.
  { intros Hout.
    rewrite (verify_token_window now' _ now
               (now + SecurityConfig.JWT_ACCESS_TOKEN_EXPIRES));
      [|done|simpl; by map_lookup..].
    by rewrite bool_decide_eq_false_2. }
  split; [intros ?; apply Hout; lia|].
  split; [intros ?; apply Hout; lia|].
  intros other_key Hne. unfold verify_token, jwt_decode, generate_tokens.
  simpl. by rewrite bool_decide_eq_false_2.
Qed.

(** X2: A refresh token verifies from its issue for thirty days, and
    carries the identity of the user but no [roles] claim; before its
    issue and from thirty days on, a refresh with it is refused. *)
Theorem refresh_token_round_trip now now' uid em roles :
  (now ≤ now' < now + SecurityConfig.JWT_REFRESH_TOKEN_EXPIRES →
     ∃ payload,
       verify_token secret_key now'
         (refresh_token (generate_tokens secret_key now uid em roles))
         = Some payload
       ∧ payload !! "user_id" = Some uid
       ∧ payload !! "email" = Some em
       ∧ payload !! "roles" = None
       ∧ payload !! "type" = Some (VStr "refresh"))
  ∧ (now' < now →
       refresh_access_token secret_key now'
         (refresh_token (generate_tokens secret_key now uid em roles))
       = Some None)
  ∧ (now + SecurityConfig.JWT_REFRESH_TOKEN_EXPIRES ≤ now' →
       refresh_access_token secret_key now'
         (refresh_token (generate_tokens secret_key now uid em roles))
       = Some None).
Proof.
  split; [apply issued_refresh_token_verifies|].
  split; intros ?; apply refresh_outside_window; lia.
Qed.

(** X3: A refresh succeeds only within the thirty days of the refresh
    token, and the access token it makes verifies from the refresh until
    one hour later, whatever is left of the life of the refresh token. *)
Theorem refreshed_token_lifetime now now' now'' uid em roles tok :
  refresh_access_token secret_key now'
    (refresh_token (generate_tokens secret_key now uid em roles))
    = Some (Some tok) →
  now ≤ now' < now + SecurityConfig.JWT_REFRESH_TOKEN_EXPIRES
  ∧ (is_Some (verify_token secret_key now'' tok)
     ↔ now' ≤ now'' < now' + SecurityConfig.JWT_ACCESS_TOKEN_EXPIRES).
Proof.
  intros Hrefresh.
  destruct (refresh_of_issued_token_inv now now' uid em roles tok Hrefresh)
    as (Hin & Hkey & Hiat & Hexp & _).
  split; [done|].
  rewrite (verify_token_window now'' tok _ _ Hkey Hiat Hexp).
  case_bool_decide as Hc.
  - split; [done | eauto].
  - split; [by intros [? ?] | done].
Qed.
End TokenLifetime.

Lemma access_token_round_trip_witness :
  ∃ payload,
    verify_token "k" 3599
      (access_token (generate_tokens "k" 0 (VStr "u1") (VStr "a@b.c")
                       (VStrs ["admin"])))
    = Some payload
    ∧ payload !! "roles" = Some (VStrs ["admin"]).
Proof.
  destruct (proj1 (access_token_round_trip "k" 0 3599 (VStr "u1") (VStr "a@b.c")
                     (VStrs ["admin"])))
    as (payload & Hv & _ & _ & Hroles & _).
  - by_compute.
  - exists payload. split; [exact Hv | exact Hroles].
Defined.

Lemma refresh_token_round_trip_witness :
  ∃ payload,
    verify_token "k" 2591999
      (refresh_token (generate_tokens "k" 0 (VStr "u1") (VStr "a@b.c")
                        (VStrs ["admin"])))
    = Some payload
    ∧ payload !! "roles" = None.
Proof.
  destruct (proj1 (refresh_token_round_trip "k" 0 2591999 (VStr "u1")
                     (VStr "a@b.c") (VStrs ["admin"])))
    as (payload & Hv & _ & _ & Hroles & _).
  - by_compute.
  - exists payload. split; [exact Hv | exact Hroles].
Defined.

Lemma refreshed_token_lifetime_witness :
  ∃ tok,
    refresh_access_token "k" 100
      (refresh_token (generate_tokens "k" 0 (VStr "u1") (VStr "a@b.c")
                        (VStrs ["admin"])))
    = Some (Some tok)
    ∧ (is_Some (verify_token "k" 3699 tok) ↔ 100 ≤ 3699 < 100 + 3600)
    ∧ (is_Some (verify_token "k" 99 tok) ↔ 100 ≤ 99 < 100 + 3600).
Proof.
  destruct (refresh_of_issued_token "k" 0 100 (VStr "u1") (VStr "a@b.c")
              (VStrs ["admin"])) as (tok & Hrun & _); [by_compute|].
  exists tok. split; [exact Hrun|]. split.
  - exact (proj2 (refreshed_token_lifetime "k" 0 100 3699 (VStr "u1")
                    (VStr "a@b.c") (VStrs ["admin"]) tok Hrun)).
  - exact (proj2 (refreshed_token_lifetime "k" 0 100 99 (VStr "u1")
                    (VStr "a@b.c") (VStrs ["admin"]) tok Hrun)).
Defined.

(** ** Login: success, store failures, permanence of the lock *)

Section LoginOutcomes.
Variable secret_key : string.
Variables remote_addr user_agent : string.
Variable checkpw : string → string → option bool.
Variable fernet_decrypt : string → option string.
Variable totp_verify : string → string → bool.

Abbreviation login :=
  (authenticate_user secret_key remote_addr user_agent checkpw
     fernet_decrypt totp_verify).
Abbreviation login_attempts :=
  (login_attempts secret_key remote_addr user_agent checkpw
     fernet_decrypt totp_verify).

Abbreviation mfa_satisfied := (mfa_satisfied fernet_decrypt totp_verify).

Lemma check_mfa_satisfied user email mfa w :
  mfa_satisfied user mfa →
  check_mfa remote_addr fernet_decrypt totp_verify user email mfa w
  = (Some None, w).
Proof.
  unfold check_mfa. intros [Hoff | (code & c & secret & -> & Hmiss & Hon & Hsec
                                    & Hdec & Htotp)].
  - by rewrite Hoff.
  - rewrite Hon, Hmiss. unfold item, mbind, M_bind. rewrite Hsec. simpl.
    rewrite Hdec. simpl. by rewrite Htotp.
Qed.

(** A full success with the world it leaves. *)
Lemma login_success_run now email password mfa w user rest h uid em full_name :
  requests_succeed 2 w →
  users_with_email (db w) email = user :: rest →
  truthy (get user "account_locked" (VBool false)) = false →
  user !! "password_hash" = Some (VStr h) →
  checkpw password h = Some true →
  mfa_satisfied user mfa →
  user !! "id" = Some uid →
  user !! "email" = Some em →
  user !! "full_name" = Some full_name →
  login now email password mfa w
  = (Some (AuthSuccess
             {| ui_id := uid; ui_email := em; ui_full_name := full_name;
                ui_roles := get user "roles" (VStrs ["user"]) |}
             (generate_tokens secret_key now uid em
                (get user "roles" (VStrs ["user"])))),
     {| db := alter (fmap (patched
                             (<["failed_login_attempts" := VInt 0]>
                                {["last_login" := VInt now]}) uid))
                "users" (db w);
        faults := tail (tail (faults w));
        log := log w ++ [LogAuthAttempt email true remote_addr user_agent] |}).
Proof.
  intros [Hok1 Hok2]%requests_succeed_S Husers Hlocked Hhash Hpw Hmfa Hid Hem
    Hname.
  assert (requests_succeed 1 w) as Hok.
  { revert Hok1 Hok2. unfold requests_succeed.
    destruct w as [d [|[] fs] lg]; simpl; try done. }
  unfold authenticate_user, try_except, store_select, users_with_email in *.
  unfold mbind, M_bind. rewrite execute_ok by exact Hok.
  cbn [fst snd]. rewrite project_all, Husers.
  rewrite Hlocked. unfold item. rewrite Hhash. cbn. rewrite Hpw. cbn.
  rewrite check_mfa_satisfied by done. rewrite Hid. cbn.
  unfold store_update. rewrite execute_ok by exact Hok2. cbn.
  rewrite Hem. cbn. rewrite Hname. cbn. reflexivity.
Qed.

(** X4: A full success: the answer carries the user and a token pair issued
    for the roles of the row, and the one update resets the counter and
    stamps the login. *)
Theorem login_success now email password mfa w user rest h uid em full_name :
  requests_succeed 2 w →
  users_with_email (db w) email = user :: rest →
  truthy (get user "account_locked" (VBool false)) = false →
  user !! "password_hash" = Some (VStr h) →
  checkpw password h = Some true →
  mfa_satisfied user mfa →
  user !! "id" = Some uid →
  user !! "email" = Some em →
  user !! "full_name" = Some full_name →
  ∃ w',
    login now email password mfa w
    = (Some (AuthSuccess
               {| ui_id := uid; ui_email := em; ui_full_name := full_name;
                  ui_roles := get user "roles" (VStrs ["user"]) |}
               (generate_tokens secret_key now uid em
                  (get user "roles" (VStrs ["user"])))),
       w')
    ∧ db w' = alter (fmap (patched
                             (<["failed_login_attempts" := VInt 0]>
                                {["last_login" := VInt now]}) uid))
                "users" (db w)
    ∧ log w' = log w ++ [LogAuthAttempt email true remote_addr user_agent].
Proof.
  intros Hok Husers Hlocked Hhash Hpw Hmfa Hid Hem Hname.
  eexists. split; [by apply (login_success_run _ _ _ _ _ user rest h)|].
  done.
Qed.

(** X5: After a success the account is unlocked with its counter at 0: the
    failures that lock an account are consecutive ones. *)
Theorem success_resets_counter now email password mfa w uid h n user rest :
  faults w = [] →
  users_with_email (db w) email = user :: rest →
  account (db w) email uid h false n →
  checkpw password h = Some true →
  mfa_satisfied user mfa →
  is_Some (user !! "email") → is_Some (user !! "full_name") →
  ∃ user_info tokens w',
    login now email password mfa w = (Some (AuthSuccess user_info tokens), w')
    ∧ faults w' = []
    ∧ account (db w') email uid h false 0.
Proof.
  intros Hf Husers (user' & rest' & Husers' & Hid & Hhash & Hlocked & Hn) Hpw
    Hmfa [em Hem] [fn Hfn].
  rewrite Husers in Husers'. simplify_eq.
  pose proof (login_success_run now email password mfa w user' rest' h uid
                em fn) as Hrun.
  rewrite Hf in Hrun. cbn [tail] in Hrun.
  set (w' := {| db := _; faults := []; log := _ |}) in Hrun.
  assert (db w' = alter (fmap (patched
                                 (<["failed_login_attempts" := VInt 0]>
                                    {["last_login" := VInt now]}) uid))
                    "users" (db w)) as Hdb by done.
  assert (faults w' = []) as Hf' by done.
  clearbody w'.
  eexists _, _, w'. split.
  { apply Hrun; try done. unfold requests_succeed. by rewrite Hf. }
  split; [done|].
  set (patch := <["failed_login_attempts" := VInt 0]>
                  ({["last_login" := VInt now]} : row)).
  assert (∀ k, k ≠ "failed_login_attempts" → k ≠ "last_login" →
               (patch ∪ user') !! k = user' !! k) as Hsame.
  { intros k Hk1 Hk2. rewrite lookup_union_r; [done|].
    unfold patch. by rewrite lookup_insert_ne, lookup_singleton_ne. }
  exists (patch ∪ user'), (patched patch uid <$> rest'). split.
  { rewrite Hdb. fold patch. rewrite users_with_email_patched, Husers, fmap_cons.
    - by rewrite patched_own.
    - unfold patch. by map_lookup. }
  rewrite !Hsame by done. split; [done|]. split; [done|].
  unfold get in *. rewrite Hsame by done. split; [done|].
  rewrite (lookup_union_Some_l _ _ _ (VInt 0)); [done|].
  unfold patch. by map_lookup.
Qed.

(** X6: Once an account is locked, no series of logins, with whatever
    passwords and codes, changes the store or gets another answer than
    the lock: [authenticate_user] never unlocks. *)
Theorem lock_is_permanent now email attempts password mfa w uid h n :
  faults w = [] →
  account (db w) email uid h true n →
  db (login_attempts now email attempts w) = db w
  ∧ ∃ w', login now email password mfa (login_attempts now email attempts w)
          = (Some account_is_locked, w')
          ∧ db w' = db w.
Proof.
  intros Hf Hacc.
  destruct (locked_stays_locked secret_key remote_addr user_agent checkpw
              fernet_decrypt totp_verify now email attempts w uid h n Hf Hacc)
    as [Hf' Hdb].
  split; [done|].
  destruct (account_locked_attempt secret_key remote_addr user_agent checkpw
              fernet_decrypt totp_verify now email password mfa
              (login_attempts now email attempts w) uid h n)
    as (w' & Hrun & Hdb' & _); [done|by rewrite Hdb|].
  exists w'. split; [done|]. congruence.
Qed.

(** The lookup of the user raises: the answer is the system error, not
    "Invalid credentials", and nothing is written. *)
Lemma login_store_down now email password mfa w :
  fault_at 0 w = true →
  ∃ w', login now email password mfa w = (Some system_error, w')
        ∧ db w' = db w
        ∧ system_error ≠ invalid_credentials.
Proof.
  intros Hfault.
  unfold authenticate_user, try_except, store_select, mbind, M_bind.
  rewrite execute_run, Hfault. simpl. eauto.
Qed.

(** X7: The password is wrong and the update of the counter raises: the
    answer is the system error and the failure is not counted. *)
Theorem login_update_fails now email password mfa w user rest h n uid :
  fault_at 0 w = false → fault_at 1 w = true →
  users_with_email (db w) email = user :: rest →
  truthy (get user "account_locked" (VBool false)) = false →
  user !! "password_hash" = Some (VStr h) →
  checkpw password h = Some false →
  get user "failed_login_attempts" (VInt 0) = VInt n →
  user !! "id" = Some uid →
  ∃ w', login now email password mfa w = (Some system_error, w')
        ∧ db w' = db w.
Proof.
  intros Hf0 Hf1 Husers Hlocked Hhash Hpw Hn Hid.
  unfold authenticate_user, try_except, store_select, users_with_email in *.
  unfold mbind, M_bind. rewrite execute_run, Hf0. cbn [fst snd].
  rewrite project_all, Husers, Hlocked. unfold item. rewrite Hhash. cbn.
  rewrite Hpw. cbn. rewrite Hn. cbn. rewrite Hid. cbn.
  unfold store_update. rewrite execute_run.
  rewrite fault_at_tail. destruct w as [d fs lg]. simpl in *.
  rewrite Hf1. simpl. eauto.
Qed.
End LoginOutcomes.

Lemma login_success_witness :
  ∃ w',
    authenticate_user "k" "10.0.0.1" "curl" plain_checkpw plain_decrypt
      plain_totp 50 "alice@example.com" "Str0ng!Passw0rd123" (Some "492039")
      (world_of_users [alice 3 false true])
    = (Some (AuthSuccess
               {| ui_id := VStr "u1"; ui_email := VStr "alice@example.com";
                  ui_full_name := VStr "Alice"; ui_roles := VStrs ["user"] |}
               (generate_tokens "k" 50 (VStr "u1") (VStr "alice@example.com")
                  (VStrs ["user"]))),
       w').
Proof.
  destruct (login_success "k" "10.0.0.1" "curl" plain_checkpw plain_decrypt
              plain_totp 50 "alice@example.com" "Str0ng!Passw0rd123"
              (Some "492039") (world_of_users [alice 3 false true])
              (alice 3 false true) [] "Str0ng!Passw0rd123" (VStr "u1")
              (VStr "alice@example.com") (VStr "Alice"))
    as (w' & Hrun & _); [by_compute..| |by_compute|by_compute|by_compute|].
  - right. exists "492039", "492039", "492039". repeat split; by_compute.
  - exists w'. exact Hrun.
Defined.

Lemma success_resets_counter_witness :
  ∃ user_info tokens w',
    authenticate_user "k" "10.0.0.1" "curl" plain_checkpw plain_decrypt
      plain_totp 50 "alice@example.com" "Str0ng!Passw0rd123" None
      (world_of_users [alice 4 false false])
    = (Some (AuthSuccess user_info tokens), w')
    ∧ account (db w') "alice@example.com" (VStr "u1") "Str0ng!Passw0rd123"
        false 0.
Proof.
  destruct (success_resets_counter "k" "10.0.0.1" "curl" plain_checkpw
              plain_decrypt plain_totp 50 "alice@example.com"
              "Str0ng!Passw0rd123" None (world_of_users [alice 4 false false])
              (VStr "u1") "Str0ng!Passw0rd123" 4 (alice 4 false false) [])
    as (ui & tokens & w' & Hrun & _ & Hacc).
  - reflexivity.
  - by_compute.
  - exists (alice 4 false false), []. repeat split; by_compute.
  - reflexivity.
  - left. by_compute.
  - by_compute.
  - by_compute.
  - exists ui, tokens, w'. split; [exact Hrun | exact Hacc].
Defined.

Lemma lock_is_permanent_witness :
  db (login_attempts "k" "10.0.0.1" "curl" plain_checkpw plain_decrypt
        plain_totp 0 "alice@example.com"
        [("guess", None); ("Str0ng!Passw0rd123", None)]
        (world_of_users [alice 5 true false]))
  = db (world_of_users [alice 5 true false]).
Proof.
  refine (proj1 (lock_is_permanent "k" "10.0.0.1" "curl" plain_checkpw
                   plain_decrypt plain_totp 0 "alice@example.com"
                   [("guess", None); ("Str0ng!Passw0rd123", None)]
                   "Str0ng!Passw0rd123" None
                   (world_of_users [alice 5 true false]) (VStr "u1")
                   "Str0ng!Passw0rd123" 5 eq_refl _)).
  exists (alice 5 true false), []. repeat split; by_compute.
Defined.

Lemma login_store_down_witness :
  ∃ w',
    authenticate_user "k" "10.0.0.1" "curl" plain_checkpw plain_decrypt
      plain_totp 0 "alice@example.com" "Str0ng!Passw0rd123" None
      {| db := {["users" := [alice 0 false false]]}; faults := [true];
         log := [] |}
    = (Some system_error, w').
Proof.
  destruct (login_store_down "k" "10.0.0.1" "curl" plain_checkpw plain_decrypt
              plain_totp 0 "alice@example.com" "Str0ng!Passw0rd123" None
              {| db := {["users" := [alice 0 false false]]}; faults := [true];
                 log := [] |}) as (w' & Hrun & _); [reflexivity|].
  exists w'. exact Hrun.
Defined.

Lemma login_update_fails_witness :
  ∃ w',
    authenticate_user "k" "10.0.0.1" "curl" plain_checkpw plain_decrypt
      plain_totp 0 "alice@example.com" "guess" None
      {| db := {["users" := [alice 0 false false]]}; faults := [false; true];
         log := [] |}
    = (Some system_error, w')
    ∧ db w' = {["users" := [alice 0 false false]]}.
Proof.
  destruct (login_update_fails "k" "10.0.0.1" "curl" plain_checkpw
              plain_decrypt plain_totp 0 "alice@example.com" "guess" None
              {| db := {["users" := [alice 0 false false]]};
                 faults := [false; true]; log := [] |}
              (alice 0 false false) [] "Str0ng!Passw0rd123" 0 (VStr "u1"))
    as (w' & Hrun & Hdb); [by_compute..|].
  exists w'. split; [exact Hrun | exact Hdb].
Defined.

(** ** Consent log *)

(** [record_consent] with the store it leaves. *)
Lemma record_consent_run now uid ct g ip ua w :
  ∃ lg,
    record_consent now uid ct g ip ua w
    = (Some (negb (fault_at 0 w)),
       {| db := if fault_at 0 w then db w
                else <["user_consents" :=
                         table (db w) "user_consents"
                         ++ [consent_row (Consent uid ct g now ip ua "1.0")]]>
                       (db w);
          faults := tail (faults w); log := lg |}).
Proof.
  unfold record_consent, try_except, mbind, M_bind, store_insert.
  rewrite execute_run. destruct (fault_at 0 w); simpl; eauto.
Qed.

(** X8: [record_consent] never raises.  It answers [True] exactly when the
    insert did not raise, and then the consent log is the old log with
    the new record at its end: earlier records are kept as they are.  No
    other table changes. *)
Theorem record_consent_appends now uid ct g ip ua w :
  ∃ w',
    record_consent now uid ct g ip ua w = (Some (negb (fault_at 0 w)), w')
    ∧ table (db w') "user_consents"
      = table (db w) "user_consents"
        ++ (if fault_at 0 w then []
            else [consent_row (Consent uid ct g now ip ua "1.0")])
    ∧ (∀ t, t ≠ "user_consents" → db w' !! t = db w !! t)
    ∧ faults w' = tail (faults w).
Proof.
  destruct (record_consent_run now uid ct g ip ua w) as (lg & Hrun).
  eexists. split; [exact Hrun|]. cbn [db faults].
  destruct (fault_at 0 w).
  - by rewrite app_nil_r.
  - rewrite table_insert. split; [done|]. split; [|done].
    intros t Ht. by rewrite lookup_insert_ne.
Qed.

(** X9: A consent recorded at an instant later than every earlier record of
    the user for the category is the one [get_user_consents] answers. *)
Theorem recorded_consent_is_current now uid ct g ip ua w
    (records : list ConsentRecord) :
  requests_succeed 2 w →
  table (db w) "user_consents" = consent_row <$> records →
  (∀ c, c ∈ records → user_id c = uid → consent_type c = ct →
        timestamp c < now) →
  ∃ w1 consents w2,
    record_consent now uid ct g ip ua w = (Some true, w1)
    ∧ get_user_consents uid w1 = (Some consents, w2)
    ∧ consents !! VStr (consent_type_value ct) = Some (VBool g).
Proof.
  intros [Hok1 Hok2]%requests_succeed_S Htable Hnewer.
  destruct (record_consent_run now uid ct g ip ua w) as (lg & Hrun).
  rewrite fault_at_head, Hok1 in Hrun. cbn [negb default] in Hrun.
  set (w1 := {| db := _; faults := tail (faults w); log := lg |}) in Hrun.
  assert (table (db w1) "user_consents"
          = table (db w) "user_consents"
            ++ [consent_row (Consent uid ct g now ip ua "1.0")]) as Htable1
    by apply table_insert.
  assert (faults w1 = tail (faults w)) as Hf1 by done.
  clearbody w1.
  set (c := Consent uid ct g now ip ua "1.0") in *.
  destruct (newest_record_wins (records ++ [c]) uid w1 c)
    as (consents & w2 & Hget & _ & Hlook).
  - by rewrite Htable1, Htable, fmap_app.
  - revert Hok2. unfold requests_succeed. simpl. by rewrite Hf1.
  - apply elem_of_app. right. left.
  - done.
  - intros c' [Hc'|Hc']%elem_of_app Hu Hct.
    + right. simpl. by apply Hnewer.
    + apply list_elem_of_singleton in Hc'. by left.
  - exists w1, consents, w2. done.
Qed.

(** X10: [get_user_consents] never raises: when the request does, it answers
    the empty dictionary, which is also its answer for a user with no
    record. *)
Theorem consents_unavailable_look_empty uid w :
  (fault_at 0 w = true →
     ∃ w', get_user_consents uid w = (Some ∅, w') ∧ db w' = db w)
  ∧ (fault_at 0 w = false → user_rows uid (db w) "user_consents" = [] →
     ∃ w', get_user_consents uid w = (Some ∅, w') ∧ db w' = db w).
Proof.
  unfold get_user_consents, try_except, mbind, M_bind, store_select_desc.
  rewrite execute_run. split.
  - intros ->. simpl. eauto.
  - intros -> Hnone. unfold user_rows in Hnone. cbn [fst snd].
    rewrite Hnone. simpl. eauto.
Qed.

(** ** Export and deletion: what they leave alone *)

(** X11: The export never raises and never answers the empty dictionary; it
    makes nine requests and changes no table but the audit log. *)
Theorem export_is_read_only now uid w :
  ∃ b w',
    export_user_data now uid w = (Some (Some b), w')
    ∧ (∀ t, t ≠ "audit_logs" → db w' !! t = db w !! t)
    ∧ faults w' = drop 9 (faults w).
Proof.
  destruct (export_user_data_spec now uid w) as (b & lg & Hrun & _).
  eexists b, _. split; [exact Hrun|]. simpl. split; [|done].
  intros t Ht. destruct (fault_at 8 w); [done|]. by rewrite lookup_insert_ne.
Qed.

Lemma recorded_consent_is_current_witness :
  ∃ w1 consents w2,
    record_consent 40 "u1" ANALYTICS false "10.0.0.1" "curl" (consent_world [])
    = (Some true, w1)
    ∧ get_user_consents "u1" w1 = (Some consents, w2)
    ∧ consents !! VStr "analytics" = Some (VBool false).
Proof.
  apply (recorded_consent_is_current 40 "u1" ANALYTICS false "10.0.0.1" "curl"
           (consent_world []) sample_consents).
  - by_compute.
  - reflexivity.
  - intros c Hc _ _.
    assert (Forall (λ c, timestamp c < 40) sample_consents) as Hall
      by (repeat constructor).
    rewrite Forall_forall in Hall. by apply Hall.
Defined.

Lemma consents_unavailable_look_empty_witness :
  ∃ w', get_user_consents "u1" (consent_world [true]) = (Some ∅, w')
        ∧ db w' = db (consent_world [true]).
Proof.
  apply (proj1 (consents_unavailable_look_empty "u1" (consent_world [true]))).
  reflexivity.
Defined.

Lemma user_rows_other_user uid uid' (l : list row) :
  uid' ≠ uid →
  List.filter (matches (Eq "user_id" (VStr uid')))
    (List.filter (λ r, negb (matches (Eq "user_id" (VStr uid)) r)) l)
  = List.filter (matches (Eq "user_id" (VStr uid'))) l.
Proof.
  intros Hne. induction l as [|r l IH]; [done|]. cbn [List.filter].
  destruct (matches (Eq "user_id" (VStr uid)) r) eqn:Hr; cbn [negb List.filter].
  - assert (matches (Eq "user_id" (VStr uid')) r = false) as ->; [|done].
    simpl in *. apply bool_decide_eq_true_1 in Hr.
    apply bool_decide_eq_false_2. rewrite Hr. congruence.
  - by rewrite IH.
Qed.

Section DeletionFrame.
Variable json_dumps_export : bool → option export_bundle → option string.
Variable fernet_encrypt : string → string.
Variable sha256_hex : string → string.

Abbreviation delete_data :=
  (delete_user_data json_dumps_export fernet_encrypt sha256_hex).
Abbreviation archive_user_data :=
  (_archive_user_data json_dumps_export fernet_encrypt sha256_hex).

(** Archiving with the exact store it leaves: one record more in
    [archived_user_data], unless the insert raises. *)
Lemma archive_user_data_spec now uid b w sorted plain :
  json_dumps_export true b = Some sorted →
  json_dumps_export false b = Some plain →
  ∃ lg,
    archive_user_data now uid b w
    = (Some (),
       {| db := if fault_at 0 w then db w
                else <["archived_user_data" :=
                         table (db w) "archived_user_data"
                         ++ [<["user_id" := VStr uid]>
                             (<["archived_at" := VInt now]>
                             (<["data_hash" := VStr (sha256_hex sorted)]>
                             {["encrypted_data" :=
                                 VStr (fernet_encrypt plain)]}))]]> (db w);
          faults := tail (faults w); log := lg |}).
Proof.
  intros Hs Hp. unfold _archive_user_data, dumps_export, mbind, M_bind.
  rewrite Hs. cbn. rewrite Hp. cbn.
  unfold try_except, store_insert. rewrite execute_run.
  destruct (fault_at 0 w); simpl; eauto.
Qed.

(** X12: Whatever requests raise and however it ends, a deletion leaves the
    rows of every other user in every table. *)
Theorem delete_keeps_other_users now uid af w uid' t :
  uid' ≠ uid →
  ∃ ok w1,
    delete_data now uid af w = (Some ok, w1)
    ∧ user_rows uid' (db w1) t = user_rows uid' (db w) t.
Proof.
  intros Hne.
  assert (∀ w0, ∃ w1,
    (_ ← delete_tables uid tables_to_delete;
     _ ← log_data_access now uid "all_data" "delete" "system"
           "data_deletion_system" "Full data deletion for GDPR compliance";
     _ ← write_log (LogInfo ("User data deleted: " +:+ uid));
     mret true) w0 = (Some true, w1)
    ∧ user_rows uid' (db w1) t = user_rows uid' (db w0) t) as Hrest.
  { intros w0.
    destruct (delete_after_archive now uid w0) as (d' & lg & Hrun & Hout & Hin).
    eexists. split; [exact Hrun|]. unfold user_rows. simpl.
    destruct (decide (t ∈ tables_to_delete)) as [Ht|Ht].
    - destruct (list_elem_of_lookup_1 _ _ Ht) as [i Hi].
      rewrite (Hin i t Hi). destruct (fault_at i w0); [done|].
      by apply user_rows_other_user.
    - destruct (decide (t = "audit_logs")) as [->|Haudit].
      + revert Hrun. unfold mbind, M_bind.
        destruct (delete_tables_spec uid tables_to_delete w0)
          as (d1 & lg1 & -> & Hout1 & _).
        destruct (log_data_access_run now uid "all_data" "delete" "system"
                    "data_deletion_system"
                    "Full data deletion for GDPR compliance"
                    {| db := d1;
                       faults := drop (length tables_to_delete) (faults w0);
                       log := lg1 |}) as (lg2 & ->).
        cbn -[drop fault_at table]. intros [= <- _].
        rewrite <- (Hout1 "audit_logs") by apply audit_logs_not_deleted.
        destruct (fault_at 0 _); [done|]. rewrite table_insert.
        rewrite List.filter_app. simpl.
        rewrite bool_decide_eq_false_2; [by rewrite app_nil_r|].
        unfold audit_record. map_lookup. congruence.
      + by rewrite Hout. }
  unfold delete_user_data, try_except.
  destruct af.
  - destruct (export_user_data_spec now uid w) as (b & lg & Hexp & _).
    set (w_exp := {| db := if fault_at 8 w then db w
                           else <["audit_logs" :=
                                    table (db w) "audit_logs"
                                    ++ [export_audit now uid]]> (db w);
                     faults := drop 9 (faults w); log := lg |}) in *.
    assert (user_rows uid' (db w_exp) t = user_rows uid' (db w) t) as Hexp_rows.
    { unfold user_rows, w_exp. simpl. destruct (fault_at 8 w); [done|].
      destruct (decide (t = "audit_logs")) as [->|Haudit].
      - rewrite table_insert, List.filter_app. simpl.
        rewrite bool_decide_eq_false_2; [by rewrite app_nil_r|].
        unfold export_audit, audit_record. map_lookup. congruence.
      - by rewrite table_insert_ne. }
    unfold mbind at 1, M_bind at 1. unfold mbind at 1, M_bind at 1.
    cbv beta iota. rewrite Hexp. cbv beta iota.
    destruct (json_dumps_export true (Some b)) as [sorted|] eqn:Hs.
    2:{ unfold _archive_user_data, dumps_export, mbind at 1, M_bind at 1.
        rewrite Hs. cbn. eexists _, _. split; [done|]. exact Hexp_rows. }
    destruct (json_dumps_export false (Some b)) as [plain|] eqn:Hp.
    2:{ unfold _archive_user_data, dumps_export, mbind at 1, M_bind at 1.
        rewrite Hs. cbn. unfold mbind at 1, M_bind at 1. rewrite Hp. cbn.
        eexists _, _. split; [done|]. exact Hexp_rows. }
    destruct (archive_user_data_spec now uid (Some b) w_exp sorted plain Hs Hp)
      as (lg' & Harch).
    rewrite Harch. cbv beta iota.
    match goal with
    | |- context [(_ ← delete_tables _ _; _) ?w0] =>
        destruct (Hrest w0) as (w1 & Hrun & Hrows)
    end.
    rewrite Hrun. exists true, w1. split; [done|].
    rewrite Hrows, <- Hexp_rows. unfold user_rows. simpl.
    destruct (fault_at 0 w_exp); [done|].
    destruct (decide (t = "archived_user_data")) as [->|Ht].
    + rewrite table_insert, List.filter_app. simpl.
      rewrite bool_decide_eq_false_2; [by rewrite app_nil_r|].
      map_lookup. congruence.
    + by rewrite table_insert_ne.
  - unfold mbind at 1, M_bind at 1. cbv beta iota.
    unfold mret at 1, M_ret at 1. cbv beta iota.
    destruct (Hrest w) as (w1 & Hrun & Hrows).
    rewrite Hrun. by exists true, w1.
Qed.

Lemma archive_not_deleted : "archived_user_data" ∉ tables_to_delete.
Proof. by_compute. Qed.

(** X13: The snapshot is taken but storing it raises: the failure is only
    logged, the deletion goes on and answers [True]; the rows of the user
    are gone and no archive of them exists. *)
Theorem delete_without_archive now uid w :
  (∀ sort_keys b, is_Some (json_dumps_export sort_keys b)) →
  fault_at 9 w = true →
  (∀ i, (i < 8)%nat → fault_at (10 + i) w = false) →
  ∃ w1,
    delete_data now uid true w = (Some true, w1)
    ∧ (∀ t, t ∈ tables_to_delete → user_rows uid (db w1) t = [])
    ∧ table (db w1) "archived_user_data" = table (db w) "archived_user_data".
Proof.
  intros Hdumps Hfault Hok.
  destruct (export_user_data_spec now uid w) as (b & lg & Hexp & _).
  set (w_exp := {| db := if fault_at 8 w then db w
                         else <["audit_logs" :=
                                  table (db w) "audit_logs"
                                  ++ [export_audit now uid]]> (db w);
                   faults := drop 9 (faults w); log := lg |}) in *.
  destruct (Hdumps true (Some b)) as [sorted Hs].
  destruct (Hdumps false (Some b)) as [plain Hp].
  destruct (archive_user_data_spec now uid (Some b) w_exp sorted plain Hs Hp)
    as (lg' & Harch).
  assert (fault_at 0 w_exp = true) as Hf0.
  { rewrite (fault_at_drop 0 9 w w_exp) by done. exact Hfault. }
  rewrite Hf0 in Harch.
  set (w_a := {| db := db w_exp; faults := tail (faults w_exp); log := lg' |})
    in *.
  destruct (delete_after_archive now uid w_a) as (d' & lg2 & Hrun & Hout & Hin).
  unfold mbind, M_bind in Hrun.
  eexists. split.
  { unfold delete_user_data, try_except, mbind, M_bind.
    cbv beta iota. rewrite Hexp, Harch. cbv beta iota. by rewrite Hrun. }
  simpl. split.
  - intros t Ht. destruct (list_elem_of_lookup_1 _ _ Ht) as [i Hi].
    unfold user_rows. rewrite (Hin i t Hi).
    rewrite (fault_at_drop i 10 w w_a).
    + rewrite Hok; [apply user_rows_after_delete|].
      by apply lookup_lt_Some in Hi.
    + unfold w_a, w_exp. simpl. apply tail_drop.
  - rewrite Hout.
    + unfold w_a, w_exp. simpl. by apply table_audit_maybe.
    + apply archive_not_deleted.
    + done.
Qed.
End DeletionFrame.

Lemma delete_keeps_other_users_witness :
  ∃ ok w1,
    delete_user_data sample_dumps_export sample_encrypt sample_sha256
      7 "u1" true (journal_world []) = (Some ok, w1)
    ∧ user_rows "u2" (db w1) "journal_entries"
      = user_rows "u2" (db (journal_world [])) "journal_entries".
Proof.
  apply (delete_keeps_other_users sample_dumps_export sample_encrypt
           sample_sha256 7 "u1" true (journal_world []) "u2" "journal_entries").
  discriminate.
Defined.

Lemma delete_without_archive_witness :
  ∃ w1,
    delete_user_data sample_dumps_export sample_encrypt sample_sha256
      7 "u1" true (journal_world (replicate 9 false ++ [true]))
    = (Some true, w1)
    ∧ (∀ t, t ∈ tables_to_delete → user_rows "u1" (db w1) t = [])
    ∧ table (db w1) "archived_user_data"
      = table (db (journal_world (replicate 9 false ++ [true])))
          "archived_user_data".
Proof.
  apply (delete_without_archive sample_dumps_export sample_encrypt
           sample_sha256 7 "u1" (journal_world (replicate 9 false ++ [true]))).
  - intros sort_keys b. by eexists.
  - reflexivity.
  - intros i Hi. do 8 (destruct i as [|i]; [reflexivity|]). lia.
Defined.

(** ** Retention sweep under any fault plan *)

Lemma sublist_List_filter {A} (P : A → bool) (l : list A) :
  List.filter P l `sublist_of` l.
Proof.
  induction l as [|x l IH]; [done|]. simpl.
  destruct (P x); [by apply sublist_skip | by apply sublist_cons].
Qed.

Lemma sweep_frame_refl dt ids d : sweep_frame dt ids d d.
Proof. by repeat split. Qed.

Lemma sweep_frame_mono dt ids ids' d d' :
  ids ⊆ ids' → sweep_frame dt ids d d' → sweep_frame dt ids' d d'.
Proof.
  intros Hsub (H1 & H2 & H3 & H4). repeat split; try done.
  intros r Hr Hid. apply H3; [done|]. intros Hin. by apply Hid, Hsub.
Qed.

Lemma sweep_frame_trans dt ids1 ids2 d d1 d2 :
  sweep_frame dt ids1 d d1 → sweep_frame dt ids2 d1 d2 →
  sweep_frame dt (ids1 ++ ids2) d d2.
Proof.
  intros (Ha1 & Ha2 & Ha3 & Ha4) (Hb1 & Hb2 & Hb3 & Hb4). repeat split.
  - intros t Ht Harch. rewrite Hb1 by done. by apply Ha1.
  - by etrans.
  - intros r Hr Hid. apply not_elem_of_app in Hid as [Hid1 Hid2].
    apply Hb3; [|done]. by apply Ha3.
  - by etrans.
Qed.

Lemma sweep_frame_archive dt d (x : row) :
  dt ≠ "archived_records" →
  sweep_frame dt []
    d (<["archived_records" := table d "archived_records" ++ [x]]> d).
Proof.
  intros Hdt. repeat split.
  - intros t _ Ht. by rewrite table_insert_ne.
  - by rewrite table_insert_ne.
  - intros r Hr _. by rewrite table_insert_ne.
  - rewrite table_insert. by apply prefix_app_r.
Qed.

Lemma sweep_frame_delete dt d v :
  dt ≠ "archived_records" →
  sweep_frame dt [Some v]
    d (alter (List.filter (λ r, negb (matches (Eq "id" v) r))) dt d).
Proof.
  intros Hdt. repeat split.
  - intros t Ht _. by rewrite table_alter_ne.
  - rewrite table_alter by done. apply sublist_List_filter.
  - intros r Hr Hid. rewrite table_alter by done.
    apply elem_of_List_filter. split; [done|]. simpl.
    apply negb_true_iff, bool_decide_eq_false_2. intros Heq.
    apply Hid. rewrite Heq. by left.
  - by rewrite table_alter_ne.
Qed.

Section RetentionFrame.
Variable json_dumps_row : row → option string.
Variable fernet_encrypt : string → string.

Abbreviation sweep := (apply_retention_policies json_dumps_row fernet_encrypt).
Abbreviation sweep_policies := (apply_policies json_dumps_row fernet_encrypt).
Abbreviation sweep_one := (sweep_table json_dumps_row fernet_encrypt).
Abbreviation sweep_rows := (sweep_records json_dumps_row fernet_encrypt).
Abbreviation archive_record :=
  (_archive_record json_dumps_row fernet_encrypt).

Lemma archive_record_any now dt rec w :
  dt ≠ "archived_records" →
  ∃ o w1, archive_record now dt rec w = (o, w1)
          ∧ sweep_frame dt [] (db w) (db w1).
Proof.
  intros Hdt. unfold _archive_record, item, dumps_row, mbind, M_bind.
  destruct (rec !! "id") as [v|]; cbn;
    [|eexists _, _; split; [done|apply sweep_frame_refl]].
  destruct (json_dumps_row rec) as [plain|]; cbn;
    [|eexists _, _; split; [done|apply sweep_frame_refl]].
  unfold try_except, store_insert. rewrite execute_run.
  destruct (fault_at 0 w); simpl; eexists _, _; (split; [done|]); simpl.
  - apply sweep_frame_refl.
  - by apply sweep_frame_archive.
Qed.

(** The loop over the selected records, whatever raises on the way. *)
Lemma sweep_records_any now dt policy :
  dt ≠ "archived_records" →
  ∀ records w,
    ∃ o w', sweep_rows now dt policy records w = (o, w')
            ∧ sweep_frame dt (ids_of records) (db w) (db w').
Proof.
  intros Hdt. induction records as [|rec records IH]; intros w.
  { eexists _, _. split; [done|]. apply sweep_frame_refl. }
  assert (∃ o1 w1,
    (if archive_before_delete policy
     then archive_record now dt rec else mret ()) w = (o1, w1)
    ∧ sweep_frame dt [] (db w) (db w1)) as (o1 & w1 & Hrun1 & Hframe1).
  { destruct (archive_before_delete policy).
    - by apply archive_record_any.
    - eexists _, _. split; [done|]. apply sweep_frame_refl. }
  cbn [sweep_records]. unfold mbind at 1, M_bind at 1. rewrite Hrun1.
  assert (∀ d', sweep_frame dt [] (db w) d' →
                sweep_frame dt (ids_of (rec :: records)) (db w) d') as Hweak.
  { intros d'. apply sweep_frame_mono. set_solver. }
  destruct o1 as [[]|]; [|eexists _, _; split; [done|by apply Hweak]].
  unfold mbind at 1, M_bind at 1, item.
  destruct (rec !! "id") as [v|] eqn:Hv; cbn -[sweep_records ids_of];
    [|eexists _, _; split; [done|by apply Hweak]].
  unfold mbind at 1, M_bind at 1, store_delete. rewrite execute_run.
  destruct (fault_at 0 w1); cbn -[sweep_records ids_of];
    [eexists _, _; split; [done|by apply Hweak]|].
  match goal with
  | |- context [sweep_records _ _ _ _ _ _ ?w2] =>
      destruct (IH w2) as (o & w' & Hrun & Hframe);
      rewrite Hrun; exists o, w'; split; [done|];
      apply (sweep_frame_mono dt (([] ++ [Some v]) ++ ids_of records));
      [ unfold ids_of; rewrite fmap_cons, Hv; by intros x Hx |];
      apply (sweep_frame_trans dt ([] ++ [Some v]) (ids_of records)
               (db w) (db w2) (db w')); [|exact Hframe];
      apply (sweep_frame_trans dt [] [Some v] (db w) (db w1));
      [exact Hframe1 | by apply sweep_frame_delete]
  end.
Qed.

Lemma ids_of_project (l : list row) :
  ids_of (project (Columns ["id"; "user_id"; "created_at"]) <$> l) = ids_of l.
Proof.
  unfold ids_of. rewrite <- list_fmap_compose. apply list_fmap_ext.
  intros i r _. simpl. apply project_id.
Qed.

(** Sweeping one table never raises. *)
Lemma sweep_table_any now dt policy w :
  dt ≠ "archived_records" →
  ∃ w', sweep_one now dt policy w = (Some (), w')
        ∧ sweep_frame dt (ids_of (old_rows now policy (db w) dt))
            (db w) (db w').
Proof.
  intros Hdt. unfold sweep_table, try_except, store_select.
  unfold mbind at 1, M_bind at 1. rewrite execute_run.
  destruct (fault_at 0 w); cbn -[sweep_records bool_decide].
  { eexists. split; [done|]. apply sweep_frame_refl. }
  unfold mbind at 1, M_bind at 1.
  match goal with
  | |- context [sweep_records _ _ _ _ _ ?recs ?w1] =>
      destruct (sweep_records_any now dt policy Hdt recs w1)
        as (o & w' & Hrun & Hframe)
  end.
  rewrite Hrun. rewrite ids_of_project in Hframe. simpl in Hframe.
  destruct o as [[]|]; cbn -[bool_decide].
  - case_bool_decide; cbn; eexists; (split; [done|]); exact Hframe.
  - eexists. split; [done|]. exact Hframe.
Qed.

Lemma elem_of_swept_names policies t :
  t ∈ swept_names policies
  ↔ ∃ p, p ∈ policies ∧ auto_delete p.2 = true ∧ p.1 = t.
Proof.
  unfold swept_names. rewrite list_elem_of_fmap. split.
  - intros (p & -> & [Hp Hauto]%elem_of_List_filter). eauto.
  - intros (p & Hp & Hauto & <-). exists p. split; [done|].
    by apply elem_of_List_filter.
Qed.

Lemma policies_frame_refl now policies d : policies_frame now policies d d.
Proof. by repeat split. Qed.

(** The loop over the policies never raises. *)
Lemma sweep_policies_any now policies :
  NoDup policies.*1 →
  "archived_records" ∉ policies.*1 →
  ∀ w, ∃ w', sweep_policies now policies w = (Some (), w')
             ∧ policies_frame now policies (db w) (db w').
Proof.
  induction policies as [|[dt policy] policies IH]; intros Hnd Harch w.
  { exists w. split; [done|]. apply policies_frame_refl. }
  rewrite fmap_cons in Hnd, Harch. simpl in Hnd, Harch.
  apply NoDup_cons in Hnd as [Hfresh Hnd].
  apply not_elem_of_cons in Harch as [Hdt Harch].
  assert (dt ≠ "archived_records") as Hdt' by done.
  assert (∃ w1,
    (if negb (auto_delete policy) then mret () else sweep_one now dt policy) w
      = (Some (), w1)
    ∧ sweep_frame dt (ids_of (old_rows now policy (db w) dt)) (db w) (db w1)
    ∧ (auto_delete policy = false → db w1 = db w))
    as (w1 & Hrun1 & (Hs1 & Hs2 & Hs3 & Hs4) & Hskip).
  { destruct (auto_delete policy); simpl.
    - destruct (sweep_table_any now dt policy w Hdt') as (w1 & ? & ?).
      exists w1. done.
    - exists w. split; [done|]. split; [apply sweep_frame_refl|done]. }
  destruct (IH Hnd Harch w1) as (w' & Hrun & Hp1 & Hp2 & Hp3 & Hp4).
  exists w'. split.
  { simpl. unfold mbind, M_bind. by rewrite Hrun1. }
  assert (∀ t, t ∈ swept_names policies → t ≠ dt) as Hother.
  { intros t Hin Heq. apply elem_of_swept_names in Hin as (p & Hp & _ & Hname).
    apply Hfresh. apply list_elem_of_fmap. exists p. split; [congruence|done]. }
  repeat split.
  - intros t Ht Ht'. rewrite Hp1; [|intros Hin|done].
    + destruct (auto_delete policy) eqn:Hauto.
      * apply Hs1; [|done]. intros ->. apply Ht.
        apply elem_of_swept_names. exists (dt, policy). split; [left|done].
      * by rewrite Hskip.
    + apply Ht. apply elem_of_swept_names.
      apply elem_of_swept_names in Hin as (p & Hp & Hauto & Hname).
      exists p. split; [by right|done].
  - intros t Ht. etrans; [by apply Hp2|].
    destruct (decide (t = dt)) as [->|Hne]; [done|].
    by rewrite Hs1.
  - intros p r [->|Hp]%elem_of_cons Hr Hid; simpl in *.
    + rewrite Hp1; [by apply Hs3| |done].
      intros Hin. by apply (Hother dt).
    + assert (p.1 ≠ dt) as Hne.
      { intros Heq. apply Hfresh. apply list_elem_of_fmap. eauto. }
      assert (p.1 ≠ "archived_records") as Hne'.
      { intros Heq. apply Harch. apply list_elem_of_fmap. eauto. }
      apply Hp3; [done| |].
      * by rewrite Hs1.
      * unfold old_rows in *. by rewrite Hs1.
  - by etrans.
Qed.

(** X14: The sweep never raises, whatever requests do.  It only removes rows
    from the tables and only adds records at the end of the archive; the
    tables it does not sweep, the audit log among them, are as they
    were. *)
Theorem retention_sweep_only_removes now w :
  ∃ w',
    sweep now w = (Some (), w')
    ∧ (∀ t, t ≠ "archived_records" →
            table (db w') t `sublist_of` table (db w) t)
    ∧ table (db w) "archived_records"
      `prefix_of` table (db w') "archived_records"
    ∧ (∀ t, t ∉ swept_names retention_policies → t ≠ "archived_records" →
            table (db w') t = table (db w) t)
    ∧ table (db w') "audit_logs" = table (db w) "audit_logs".
Proof.
  destruct (sweep_policies_any now retention_policies
              retention_policies_distinct archive_has_no_policy w)
    as (w' & Hrun & H1 & H2 & _ & H4).
  exists w'. repeat split; try done. apply H1; by_compute.
Qed.

(** X15: Whatever requests raise, a row survives the sweep when no row of its
    table older than the cut-off has its identifier: with identifiers
    that are unique in a table, only rows past the retention period are
    deleted. *)
Theorem retention_sweep_keeps_recent_rows now w :
  ∃ w',
    sweep now w = (Some (), w')
    ∧ ∀ dt policy r,
        (dt, policy) ∈ retention_policies →
        r ∈ table (db w) dt →
        r !! "id" ∉ ids_of (old_rows now policy (db w) dt) →
        r ∈ table (db w') dt.
Proof.
  destruct (sweep_policies_any now retention_policies
              retention_policies_distinct archive_has_no_policy w)
    as (w' & Hrun & _ & _ & H3 & _).
  exists w'. split; [done|]. intros dt policy r Hp. by apply (H3 (dt, policy)).
Qed.

(** X16: The insert into the archive raises and the deletion that follows
    does not: the failure is only logged, and the record is deleted
    without having been archived. *)
Theorem sweep_deletes_unarchived now dt policy rec rest w v :
  dt ≠ "archived_records" →
  archive_before_delete policy = true →
  rec !! "id" = Some v →
  is_Some (json_dumps_row rec) →
  fault_at 0 w = true → fault_at 1 w = false →
  ∃ w1,
    sweep_rows now dt policy (rec :: rest) w = sweep_rows now dt policy rest w1
    ∧ table (db w1) "archived_records" = table (db w) "archived_records"
    ∧ table (db w1) dt
      = List.filter (λ r, negb (matches (Eq "id" v) r)) (table (db w) dt)
    ∧ log w1 = log w ++ [LogError "Failed to archive record"].
Proof.
  intros Hdt Habd Hv [plain Hplain] Hf0 Hf1.
  assert (archive_record now dt rec w
          = (Some (), {| db := db w; faults := tail (faults w);
                         log := log w ++ [LogError "Failed to archive record"] |}))
    as Harch.
  { unfold _archive_record, item, dumps_row, mbind, M_bind.
    rewrite Hv. cbn. rewrite Hplain. cbn.
    unfold try_except, store_insert. by rewrite execute_run, Hf0. }
  cbn [sweep_records]. rewrite Habd.
  unfold mbind at 1, M_bind at 1. rewrite Harch.
  unfold mbind at 1, M_bind at 1, item. rewrite Hv.
  unfold mret at 1, M_ret at 1.
  unfold mbind at 1, M_bind at 1, store_delete. rewrite execute_run.
  rewrite fault_at_tail.
  replace (fault_at 1 {| db := db w; faults := faults w;
                         log := log w ++ [LogError "Failed to archive record"] |})
    with (fault_at 1 w) by done.
  rewrite Hf1. cbn [fst snd db faults log].
  eexists. split; [reflexivity|]. simpl.
  rewrite table_alter_ne by done. by rewrite table_alter.
Qed.
End RetentionFrame.

Section RetentionIsolation.
Variable json_dumps_row : row → option string.
Variable fernet_encrypt : string → string.
Hypothesis dumps_total : ∀ r, is_Some (json_dumps_row r).

Lemma sweep_policies_first_fails now dt policy policies w :
  auto_delete policy = true →
  NoDup ((dt, policy) :: policies).*1 →
  "archived_records" ∉ ((dt, policy) :: policies).*1 →
  faults w = [true] →
  keyed (db w) policies = true →
  ∃ w',
    apply_policies json_dumps_row fernet_encrypt now ((dt, policy) :: policies) w
    = (Some (), w')
    ∧ table (db w') dt = table (db w) dt
    ∧ ∀ p, p ∈ policies → auto_delete p.2 = true →
           old_rows now p.2 (db w') p.1 = [].
Proof.
  intros Hauto Hnd Harch Hf Hkeyed.
  rewrite fmap_cons in Hnd, Harch. simpl in Hnd, Harch.
  apply NoDup_cons in Hnd as [Hfresh Hnd].
  apply not_elem_of_cons in Harch as [Hdt Harch].
  cbn [apply_policies]. rewrite Hauto. cbn [negb].
  unfold mbind at 1, M_bind at 1.
  unfold sweep_table at 1, try_except, store_select.
  unfold mbind at 1, M_bind at 1. rewrite execute_run.
  unfold fault_at at 1. rewrite Hf. cbn [lookup default].
  cbn -[apply_policies].
  match goal with
  | |- context [apply_policies _ _ _ _ ?w1] =>
      destruct (sweep_policies_spec json_dumps_row fernet_encrypt dumps_total
                  now policies Hnd Harch w1) as (w' & Hrun & _ & Hclean & Hout)
  end; [done..|].
  exists w'. split; [exact Hrun|]. split; [|done].
  by rewrite Hout.
Qed.

(** X17: The first request of the sweep, the selection of the first category,
    raises, and no later request does: that category is left as it was
    and every other category is swept all the same. *)
Theorem retention_sweep_isolates_failure now w :
  faults w = [true] →
  keyed (db w) retention_policies = true →
  ∃ w',
    apply_retention_policies json_dumps_row fernet_encrypt now w = (Some (), w')
    ∧ table (db w') "journal_entries" = table (db w) "journal_entries"
    ∧ ∀ p, p ∈ retention_policies → p.1 ≠ "journal_entries" →
           auto_delete p.2 = true → old_rows now p.2 (db w') p.1 = [].
Proof.
  intros Hf Hkeyed.
  destruct (sweep_policies_first_fails now "journal_entries"
              (Policy "journal_entries" 2555 CONFIDENTIAL true true)
              (tail retention_policies) w) as (w' & Hrun & Hsame & Hclean).
  - done.
  - apply retention_policies_distinct.
  - apply archive_has_no_policy.
  - done.
  - unfold keyed in *. simpl in Hkeyed.
    by apply andb_true_iff in Hkeyed as [_ Hkeyed].
  - exists w'. split; [exact Hrun|]. split; [done|].
    intros p [Heq|Hp]%elem_of_cons Hname Hauto; [by subst|].
    by apply Hclean.
Qed.
End RetentionIsolation.

Lemma retention_sweep_isolates_failure_witness :
  ∃ w',
    apply_retention_policies sample_dumps_row sample_encrypt 259200000
      (journal_world [true]) = (Some (), w')
    ∧ table (db w') "journal_entries"
      = table (db (journal_world [true])) "journal_entries".
Proof.
  destruct (retention_sweep_isolates_failure sample_dumps_row sample_encrypt
              (λ r, ex_intro _ "row" eq_refl) 259200000 (journal_world [true]))
    as (w' & Hrun & Hsame & _); [reflexivity|by_compute|].
  exists w'. split; [exact Hrun | exact Hsame].
Defined.

Lemma retention_sweep_only_removes_witness :
  ∃ w',
    apply_retention_policies sample_dumps_row sample_encrypt 259200000
      (aged_journal [false; true]) = (Some (), w')
    ∧ table (db w') "journal_entries"
      `sublist_of` table (db (aged_journal [false; true])) "journal_entries".
Proof.
  destruct (retention_sweep_only_removes sample_dumps_row sample_encrypt
              259200000 (aged_journal [false; true])) as (w' & Hrun & Hsub & _).
  exists w'. split; [exact Hrun|]. by apply Hsub.
Defined.

Lemma retention_sweep_keeps_recent_rows_witness :
  ∃ w',
    apply_retention_policies sample_dumps_row sample_encrypt 259200000
      (aged_journal []) = (Some (), w')
    ∧ data_row 2 "u1" 250000000 ∈ table (db w') "journal_entries".
Proof.
  destruct (retention_sweep_keeps_recent_rows sample_dumps_row sample_encrypt
              259200000 (aged_journal [])) as (w' & Hrun & Hkeep).
  exists w'. split; [exact Hrun|].
  apply (Hkeep "journal_entries"
           (Policy "journal_entries" 2555 CONFIDENTIAL true true)).
  - left.
  - by_compute.
  - by_compute.
Defined.

Lemma sweep_deletes_unarchived_witness :
  ∃ w1,
    sweep_records sample_dumps_row sample_encrypt 259200000 "journal_entries"
      (Policy "journal_entries" 2555 CONFIDENTIAL true true)
      [data_row 1 "u1" 0] (aged_journal [true; false])
    = sweep_records sample_dumps_row sample_encrypt 259200000 "journal_entries"
        (Policy "journal_entries" 2555 CONFIDENTIAL true true) [] w1
    ∧ table (db w1) "archived_records" = []
    ∧ table (db w1) "journal_entries" = [data_row 2 "u1" 250000000].
Proof.
  destruct (sweep_deletes_unarchived sample_dumps_row sample_encrypt 259200000
              "journal_entries"
              (Policy "journal_entries" 2555 CONFIDENTIAL true true)
              (data_row 1 "u1" 0) [] (aged_journal [true; false]) (VInt 1))
    as (w1 & Hrun & Harch & Htable & _);
    [by_compute|reflexivity|by_compute|by eexists|reflexivity|reflexivity|].
  exists w1. split; [exact Hrun|]. split.
  - rewrite Harch. by_compute.
  - rewrite Htable. by_compute.
Defined.

(** ** Password policy *)

Section PasswordPolicyProperties.
Variables isupper islower isdigit : Ascii.ascii → bool.

Abbreviation validate := (validate_password_strength isupper islower isdigit).

(** X18: The validation reports every rule the password fails, not only the
    first, in the order of the rules; the password is valid exactly when
    it has twelve characters or more and one character of each of the
    four kinds; and the score is 100 less 20 for each violation. *)
Theorem validate_reports_every_violation password :
  let chars := String.list_ascii_of_string password in
  pv_errors (validate password)
  = (if bool_decide (Z.of_nat (String.length password) < 12)
     then [error_too_short] else [])
    ++ (if existsb isupper chars then [] else [error_no_uppercase])
    ++ (if existsb islower chars then [] else [error_no_lowercase])
    ++ (if existsb isdigit chars then [] else [error_no_number])
    ++ (if existsb is_special chars then [] else [error_no_special])
  ∧ (pv_valid (validate password) = true
     ↔ 12 ≤ Z.of_nat (String.length password)
       ∧ existsb isupper chars = true
       ∧ existsb islower chars = true
       ∧ existsb isdigit chars = true
       ∧ existsb is_special chars = true)
  ∧ pv_strength_score (validate password)
    = 100 - 20 * Z.of_nat (length (pv_errors (validate password))).
Proof.
  intros chars. unfold validate_password_strength, check_rule.
  fold chars. unfold PasswordConfig.PASSWORD_MIN_LENGTH,
    PasswordConfig.PASSWORD_REQUIRE_UPPERCASE,
    PasswordConfig.PASSWORD_REQUIRE_LOWERCASE,
    PasswordConfig.PASSWORD_REQUIRE_NUMBERS,
    PasswordConfig.PASSWORD_REQUIRE_SPECIAL.
  cbn [pv_errors pv_valid pv_strength_score andb].
  case_bool_decide as Hlen;
    destruct (existsb isupper chars), (existsb islower chars),
      (existsb isdigit chars), (existsb is_special chars);
    (split; [reflexivity|]); cbn;
    (split; [|reflexivity]);
    (split; [intros H; try discriminate H; repeat split; lia
            |intros (? & ? & ? & ? & ?); try done; lia]).
Qed.
End PasswordPolicyProperties.

(** ** Registration *)

Section RegistrationProperties.
Variables isupper islower isdigit : Ascii.ascii → bool.
Variable remote_addr : string.
Variable bcrypt_hashpw : string → option string.
Variable random_base32 : string.
Variable fernet_encrypt : string → string.
Variable new_id : value.

Abbreviation validate := (validate_password_strength isupper islower isdigit).
Abbreviation register :=
  (register_user isupper islower isdigit remote_addr bcrypt_hashpw
     random_base32 fernet_encrypt new_id).
Abbreviation user_data := (new_user_data random_base32 fernet_encrypt).

(** X19: A password that fails the policy is refused with the list of all its
    violations, before any request to the store: the world is untouched. *)
Theorem register_weak_password_writes_nothing now email password full_name w :
  pv_valid (validate_password_strength isupper islower isdigit password)
    = false →
  register_user isupper islower isdigit remote_addr bcrypt_hashpw
    random_base32 fernet_encrypt new_id now email password full_name w
  = (Some (RegisterRejected "Password does not meet security requirements"
             (pv_errors (validate_password_strength isupper islower isdigit
                           password))), w).
Proof.
  intros Hweak. unfold register_user, try_except. by rewrite Hweak.
Qed.

(** The row the store keeps for the new user, field by field. *)
Lemma stored_user_fields now email h full_name :
  let stored := user_data now email h full_name ∪ {["id" := new_id]} in
  stored !! "id" = Some new_id
  ∧ stored !! "email" = Some (VStr email)
  ∧ stored !! "password_hash" = Some (VStr h)
  ∧ stored !! "full_name" = Some (VStr full_name)
  ∧ stored !! "mfa_enabled" = Some (VBool false)
  ∧ stored !! "roles" = Some (VStrs ["user"])
  ∧ stored !! "failed_login_attempts" = Some (VInt 0)
  ∧ stored !! "account_locked" = Some (VBool false).
Proof.
  intros stored.
  assert (stored !! "id" = Some new_id) as Hid.
  { unfold stored. rewrite lookup_union_r.
    - by rewrite lookup_singleton_eq.
    - unfold new_user_data. by map_lookup. }
  assert (∀ k, k ≠ "id" →
               stored !! k = user_data now email h full_name !! k)
    as Hother.
  { intros k Hk. unfold stored. rewrite lookup_union.
    rewrite lookup_singleton_ne by done.
    by destruct (user_data now email h full_name !! k). }
  split; [done|].
  rewrite !Hother by done. unfold new_user_data.
  repeat split; by map_lookup.
Qed.

(** A registration that goes through, with the world it leaves. *)
Lemma register_user_run now email password h full_name w :
  pv_valid (validate password) = true →
  bcrypt_hashpw password = Some h →
  fault_at 0 w = false →
  ∃ lg,
    register now email password full_name w
    = (Some (RegisterSuccess new_id "User registered successfully"),
       {| db := <["users" :=
                    table (db w) "users"
                    ++ [user_data now email h full_name
                        ∪ {["id" := new_id]}]]> (db w);
          faults := tail (faults w); log := lg |}).
Proof.
  intros Hvalid Hhash Hfault.
  unfold register_user, try_except, hash_password, store_insert_returning.
  rewrite Hvalid, Hhash. cbn [negb].
  unfold mbind at 1, M_bind at 1. cbn [mret M_ret].
  unfold mbind at 1, M_bind at 1.
  rewrite execute_run, Hfault. cbn [fst snd].
  destruct (stored_user_fields now email h full_name) as [Hid _].
  unfold item, mbind, M_bind. rewrite Hid. cbn. eauto.
Qed.

(** Hashing the password raises: the answer is the system error, and no
    request is made to the store. *)
Lemma register_hash_failure now email password full_name w :
  pv_valid (validate password) = true →
  bcrypt_hashpw password = None →
  ∃ lg,
    register now email password full_name w
    = (Some (RegisterFailure "Registration failed due to system error"),
       {| db := db w; faults := faults w; log := lg |}).
Proof.
  intros Hvalid Hhash.
  unfold register_user, try_except, hash_password.
  rewrite Hvalid, Hhash. cbn [negb]. destruct w. cbn. eauto.
Qed.

(** X20: A password that passes and that bcrypt hashes, and an insert
    that succeeds: the answer is the identifier the store gave, and the
    new row is the last of [users], unlocked, with no failed attempt, MFA
    off, the role ['user'], and the hash of the password in place of the
    password. *)
Theorem register_stores_new_account now email password h full_name w :
  pv_valid (validate password) = true →
  bcrypt_hashpw password = Some h →
  fault_at 0 w = false →
  ∃ w' stored,
    register now email password full_name w
    = (Some (RegisterSuccess new_id "User registered successfully"), w')
    ∧ table (db w') "users" = table (db w) "users" ++ [stored]
    ∧ (∀ t, t ≠ "users" → db w' !! t = db w !! t)
    ∧ stored !! "id" = Some new_id
    ∧ stored !! "email" = Some (VStr email)
    ∧ stored !! "password_hash" = Some (VStr h)
    ∧ stored !! "full_name" = Some (VStr full_name)
    ∧ stored !! "mfa_enabled" = Some (VBool false)
    ∧ stored !! "roles" = Some (VStrs ["user"])
    ∧ stored !! "failed_login_attempts" = Some (VInt 0)
    ∧ stored !! "account_locked" = Some (VBool false).
Proof.
  intros Hvalid Hhash Hfault.
  destruct (register_user_run now email password h full_name w Hvalid Hhash
              Hfault) as (lg & Hrun).
  eexists _, _. split; [exact Hrun|]. cbn [db].
  rewrite table_insert. split; [done|]. split.
  { intros t Ht. by rewrite lookup_insert_ne. }
  apply stored_user_fields.
Qed.

(** X21: A password that passes and an insert that raises: the answer is the
    system error, not the refusal of the password, and no user is
    stored. *)
Theorem register_store_failure now email password full_name w :
  pv_valid (validate password) = true →
  fault_at 0 w = true →
  ∃ w',
    register now email password full_name w
    = (Some (RegisterFailure "Registration failed due to system error"), w')
    ∧ db w' = db w.
Proof.
  intros Hvalid Hfault.
  destruct (bcrypt_hashpw password) as [h|] eqn:Hhash.
  - unfold register_user, try_except, hash_password, store_insert_returning.
    rewrite Hvalid, Hhash. cbn [negb].
    unfold mbind at 1, M_bind at 1. cbn [mret M_ret].
    unfold mbind at 1, M_bind at 1.
    rewrite execute_run, Hfault. cbn. eauto.
  - destruct (register_hash_failure now email password full_name w Hvalid
                Hhash) as (lg & Hrun).
    eexists. split; [exact Hrun|]. done.
Qed.
End RegistrationProperties.

Section RegisterThenLogin.
Variables isupper islower isdigit : Ascii.ascii → bool.
Variables remote_addr user_agent : string.
Variable bcrypt_hashpw : string → option string.
Variable random_base32 : string.
Variable fernet_encrypt : string → string.
Variable new_id : value.
Variable secret_key : string.
Variable checkpw : string → string → option bool.
Variable fernet_decrypt : string → option string.
Variable totp_verify : string → string → bool.

(** X22: Registration followed by a login: on a store where no user had the
    e-mail and no request raises, with a hash the password checks
    against, the new user logs in with the password alone (MFA is off
    until enabled) and gets tokens for the role ['user']. *)
Theorem register_then_login now now' email password h full_name w :
  pv_valid (validate_password_strength isupper islower isdigit password) = true →
  requests_succeed 3 w →
  users_with_email (db w) email = [] →
  bcrypt_hashpw password = Some h →
  checkpw password h = Some true →
  ∃ w1 w2,
    register_user isupper islower isdigit remote_addr bcrypt_hashpw
      random_base32 fernet_encrypt new_id now email password full_name w
    = (Some (RegisterSuccess new_id "User registered successfully"), w1)
    ∧ authenticate_user secret_key remote_addr user_agent checkpw
        fernet_decrypt totp_verify now' email password None w1
      = (Some (AuthSuccess
                 {| ui_id := new_id; ui_email := VStr email;
                    ui_full_name := VStr full_name;
                    ui_roles := VStrs ["user"] |}
                 (generate_tokens secret_key now' new_id (VStr email)
                    (VStrs ["user"]))),
         w2).
Proof.
  intros Hvalid [Hok0 Hok]%requests_succeed_S Hfresh Hhashed Hpw.
  destruct (register_user_run isupper islower isdigit remote_addr
              bcrypt_hashpw random_base32 fernet_encrypt new_id
              now email password h full_name w Hvalid Hhashed)
    as (lg & Hreg).
  { by rewrite fault_at_head. }
  destruct (stored_user_fields random_base32 fernet_encrypt
              new_id now email h full_name)
    as (Hid & Hem & Hhash & Hname & Hmfa & Hroles & _ & Hlocked).
  set (stored := new_user_data random_base32 fernet_encrypt now
                   email h full_name ∪ {["id" := new_id]}) in *.
  set (w1 := {| db := _; faults := tail (faults w); log := lg |}) in Hreg.
  assert (table (db w1) "users" = table (db w) "users" ++ [stored]) as Husers
    by apply table_insert.
  assert (faults w1 = tail (faults w)) as Hf1 by done.
  clearbody w1 stored.
  pose proof (login_success_run secret_key remote_addr user_agent checkpw
                fernet_decrypt totp_verify now' email password None w1 stored []
                h new_id (VStr email) (VStr full_name))
    as Hlogin.
  exists w1. eexists. split; [done|].
  replace (VStrs ["user"]) with (get stored "roles" (VStrs ["user"]))
    by (unfold get; by rewrite Hroles).
  apply Hlogin; try done.
  - revert Hok. unfold requests_succeed. simpl. by rewrite Hf1.
  - unfold users_with_email in *. rewrite Husers, List.filter_app, Hfresh.
    simpl. by rewrite Hem, bool_decide_eq_true_2.
  - unfold get. by rewrite Hlocked.
  - left. unfold get. by rewrite Hmfa.
Qed.
End RegisterThenLogin.

Lemma register_weak_password_writes_nothing_witness :
  register_user ascii_isupper ascii_islower ascii_isdigit "10.0.0.1"
    marking_hash "JBSWY3DP" sample_encrypt (VStr "u9")
    0 "bob@example.com" "password" "Bob" (world_of_users [])
  = (Some (RegisterRejected "Password does not meet security requirements"
             (pv_errors (validate_password_strength ascii_isupper
                           ascii_islower ascii_isdigit "password"))),
     world_of_users []).
Proof.
  apply (register_weak_password_writes_nothing ascii_isupper ascii_islower
           ascii_isdigit "10.0.0.1" marking_hash "JBSWY3DP" sample_encrypt
           (VStr "u9") 0 "bob@example.com" "password" "Bob" (world_of_users [])).
  reflexivity.
Defined.

Lemma register_stores_new_account_witness :
  ∃ w' stored,
    register_user ascii_isupper ascii_islower ascii_isdigit "10.0.0.1"
      marking_hash "JBSWY3DP" sample_encrypt (VStr "u9")
      0 "bob@example.com" "Str0ng!Passw0rd123" "Bob" (world_of_users [])
    = (Some (RegisterSuccess (VStr "u9") "User registered successfully"), w')
    ∧ table (db w') "users" = table (db (world_of_users [])) "users" ++ [stored]
    ∧ stored !! "account_locked" = Some (VBool false).
Proof.
  destruct (register_stores_new_account ascii_isupper ascii_islower
              ascii_isdigit "10.0.0.1" marking_hash "JBSWY3DP" sample_encrypt
              (VStr "u9") 0 "bob@example.com" "Str0ng!Passw0rd123"
              "hash:Str0ng!Passw0rd123" "Bob" (world_of_users []))
    as (w' & stored & Hrun & Husers & _ & _ & _ & _ & _ & _ & _ & _ & Hlocked);
    [reflexivity..|].
  exists w', stored. split; [exact Hrun|]. split; [exact Husers | exact Hlocked].
Defined.

Lemma register_store_failure_witness :
  ∃ w',
    register_user ascii_isupper ascii_islower ascii_isdigit "10.0.0.1"
      marking_hash "JBSWY3DP" sample_encrypt (VStr "u9")
      0 "bob@example.com" "Str0ng!Passw0rd123" "Bob"
      {| db := ∅; faults := [true]; log := [] |}
    = (Some (RegisterFailure "Registration failed due to system error"), w')
    ∧ db w' = ∅.
Proof.
  destruct (register_store_failure ascii_isupper ascii_islower
              ascii_isdigit "10.0.0.1" marking_hash "JBSWY3DP" sample_encrypt
              (VStr "u9") 0 "bob@example.com" "Str0ng!Passw0rd123" "Bob"
              {| db := ∅; faults := [true]; log := [] |})
    as (w' & Hrun & Hdb); [reflexivity..|].
  exists w'. split; [exact Hrun | exact Hdb].
Defined.

Lemma register_then_login_witness :
  ∃ w1 w2,
    register_user ascii_isupper ascii_islower ascii_isdigit "10.0.0.1"
      marking_hash "JBSWY3DP" sample_encrypt (VStr "u9")
      0 "bob@example.com" "Str0ng!Passw0rd123" "Bob" (world_of_users [])
    = (Some (RegisterSuccess (VStr "u9") "User registered successfully"), w1)
    ∧ authenticate_user "k" "10.0.0.1" "curl" marking_checkpw plain_decrypt
        plain_totp 5 "bob@example.com" "Str0ng!Passw0rd123" None w1
      = (Some (AuthSuccess
                 {| ui_id := VStr "u9"; ui_email := VStr "bob@example.com";
                    ui_full_name := VStr "Bob"; ui_roles := VStrs ["user"] |}
                 (generate_tokens "k" 5 (VStr "u9") (VStr "bob@example.com")
                    (VStrs ["user"]))),
         w2).
Proof.
  apply (register_then_login ascii_isupper ascii_islower ascii_isdigit
           "10.0.0.1" "curl" marking_hash "JBSWY3DP" sample_encrypt (VStr "u9")
           "k" marking_checkpw plain_decrypt plain_totp 0 5 "bob@example.com"
           "Str0ng!Passw0rd123" "hash:Str0ng!Passw0rd123" "Bob"
           (world_of_users [])).
  - reflexivity.
  - reflexivity.
  - by_compute.
  - reflexivity.
  - reflexivity.
Defined.

(** ** Route guard *)

Lemma split_on_no_separator sep s :
  sep ∉ String.list_ascii_of_string s → split_on sep s = [s].
Proof.
  induction s as [|c s IH]; intros Hsep; [done|]. simpl in *.
  apply not_elem_of_cons in Hsep as [Hc Hs].
  rewrite (proj2 (Ascii.eqb_neq c sep)) by done.
  by rewrite IH.
Qed.

Lemma split_on_cons_other sep c s h t :
  Ascii.eqb c sep = false →
  split_on sep s = h :: t →
  split_on sep (String c s) = String c h :: t.
Proof. simpl. by intros -> ->. Qed.

Lemma split_on_cons_sep sep s :
  split_on sep (String sep s) = "" :: split_on sep s.
Proof. simpl. by rewrite Ascii.eqb_refl. Qed.

Lemma split_bearer s :
  space ∉ String.list_ascii_of_string s →
  split_on space ("Bearer " +:+ s) = ["Bearer"; s].
Proof.
  intros Hs. cbn [String.append].
  do 6 (apply split_on_cons_other; [reflexivity|]).
  etrans; [apply (split_on_cons_sep space s)|].
  by rewrite split_on_no_separator.
Qed.

Lemma prefix_append s1 s2 : String.prefix s1 (s1 +:+ s2) = true.
Proof.
  induction s1 as [|c s1 IH]; [by destruct s2|].
  change (String c s1 +:+ s2) with (String c (s1 +:+ s2)).
  cbn [String.prefix]. destruct (Ascii.ascii_dec c c); [exact IH|done].
Qed.

Lemma prefix_bearer s : String.prefix "Bearer " ("Bearer " +:+ s) = true.
Proof. apply prefix_append. Qed.

Lemma any_role_in_strs required (held : list string) :
  any_role_in required (VStrs held)
  = Some (existsb (λ r, bool_decide (r ∈ held)) required).
Proof.
  induction required as [|r required IH]; [done|]. simpl.
  by destruct (bool_decide (r ∈ held)).
Qed.

Lemma verify_token_claims key now t payload :
  verify_token key now t = Some payload → payload = claims t.
Proof.
  unfold verify_token, jwt_decode. intros H.
  repeat (case_match; simplify_eq); done.
Qed.

Section RouteGuardProperties.
Variable secret_key : string.
Variable jwt_parse : string → option token.

Abbreviation guard := (require_auth secret_key jwt_parse).
Abbreviation verify_string := (verify_token_string secret_key jwt_parse).

(** The guard on a well-formed header whose token verifies. *)
Lemma guard_bearer roles now s payload uid em :
  space ∉ String.list_ascii_of_string s →
  verify_string now s = Some payload →
  payload !! "user_id" = Some uid →
  payload !! "email" = Some em →
  guard roles now (Some ("Bearer " +:+ s))
  = match (match roles with
           | Some ((_ :: _) as required) =>
               any_role_in required (get payload "roles" (VStrs []))
           | _ => Some true
           end) with
    | None => None
    | Some false => Some (Forbidden "Insufficient permissions")
    | Some true =>
        Some (Proceed {| cu_id := uid; cu_email := em;
                         cu_roles := get payload "roles" (VStrs []) |})
    end.
Proof.
  intros Hs Hv Huid Hem. unfold require_auth.
  rewrite prefix_bearer, split_bearer by done.
  cbn [String.eqb String.append orb negb lookup list_lookup].
  change (String.eqb ("Bearer " +:+ s) "") with false. cbn [orb].
  rewrite Hv. rewrite bool_decide_eq_false_2.
  - by rewrite Huid, Hem.
  - intros ->. by rewrite lookup_empty in Huid.
Qed.

(** X23: The wrapped function is never called unless the header is a Bearer
    header whose token verifies at that instant; the user it sees is the
    one of the claims, and where roles are required one of them is among
    the roles of the claims. *)
Theorem guard_lets_only_verified_tokens_through roles now header user :
  guard roles now header = Some (Proceed user) →
  ∃ h tok payload,
    header = Some h
    ∧ String.prefix "Bearer " h = true
    ∧ split_on space h !! 1%nat = Some tok
    ∧ verify_string now tok = Some payload
    ∧ payload !! "user_id" = Some (cu_id user)
    ∧ payload !! "email" = Some (cu_email user)
    ∧ cu_roles user = get payload "roles" (VStrs [])
    ∧ ∀ required, roles = Some required → required ≠ [] →
        any_role_in required (cu_roles user) = Some true.
Proof.
  unfold require_auth. intros H.
  destruct header as [h|]; [|done].
  destruct (String.eqb h "" || negb (String.prefix "Bearer " h)) eqn:Hh;
    [done|].
  apply orb_false_iff in Hh as [_ Hprefix]. apply negb_false_iff in Hprefix.
  destruct (split_on space h !! 1%nat) as [tok|] eqn:Htok; [|done].
  destruct (verify_string now tok) as [payload|] eqn:Hv; [|done].
  case_bool_decide; [done|].
  destruct (match roles with
            | Some ((_ :: _) as required) =>
                any_role_in required (get payload "roles" (VStrs []))
            | _ => Some true
            end) as [[]|] eqn:Hallowed; try done.
  destruct (payload !! "user_id") as [uid|] eqn:Huid; [|done].
  destruct (payload !! "email") as [em|] eqn:Hem; [|done].
  simplify_eq. exists h, tok, payload. simpl.
  repeat split; try done.
  intros required -> Hne. by destruct required.
Qed.

(** X24: With the access token of a pair issued for the roles [held], before
    it expires: a guard with no required role lets the request through,
    a guard with required roles lets it through when one of them is held
    and answers 403 otherwise. *)
Theorem guard_checks_roles_of_token required now now' uid em held s :
  space ∉ String.list_ascii_of_string s →
  jwt_parse s
    = Some (access_token (generate_tokens secret_key now uid em (VStrs held))) →
  now ≤ now' < now + SecurityConfig.JWT_ACCESS_TOKEN_EXPIRES →
  guard (Some required) now' (Some ("Bearer " +:+ s))
  = Some (if bool_decide (required = [])
             || existsb (λ r, bool_decide (r ∈ held)) required
          then Proceed {| cu_id := uid; cu_email := em; cu_roles := VStrs held |}
          else Forbidden "Insufficient permissions").
Proof.
  intros Hs Hparse Hlt.
  destruct (issued_access_token_verifies secret_key now now' uid em
              (VStrs held) Hlt)
    as (payload & Hv & Huid & Hem & Hroles & _).
  rewrite (guard_bearer (Some required) now' s payload uid em); try done.
  2:{ unfold verify_token_string. by rewrite Hparse. }
  unfold get. rewrite Hroles. simpl.
  destruct required as [|r required]; [done|].
  rewrite any_role_in_strs. cbn [bool_decide orb].
  rewrite bool_decide_eq_false_2 by done. cbn [orb].
  by destruct (existsb _ _).
Qed.

(** X25: The guard does not look at the [type] claim: the refresh token of a
    pair is let through a guard with no required role, as a user with no
    roles, for its thirty days. *)
Theorem guard_accepts_refresh_token now now' uid em held s :
  space ∉ String.list_ascii_of_string s →
  jwt_parse s
    = Some (refresh_token (generate_tokens secret_key now uid em held)) →
  now ≤ now' < now + SecurityConfig.JWT_REFRESH_TOKEN_EXPIRES →
  guard None now' (Some ("Bearer " +:+ s))
  = Some (Proceed {| cu_id := uid; cu_email := em; cu_roles := VStrs [] |}).
Proof.
  intros Hs Hparse Hlt.
  destruct (issued_refresh_token_verifies secret_key now now' uid em held Hlt)
    as (payload & Hv & Huid & Hem & Hroles & _).
  rewrite (guard_bearer None now' s payload uid em); try done.
  2:{ unfold verify_token_string. by rewrite Hparse. }
  unfold get. by rewrite Hroles.
Qed.

(** X26: An access token obtained by a refresh is refused by every guard that
    requires a role, whatever roles the pair was issued for. *)
Theorem guard_refuses_refreshed_token required now now' now'' uid em held
    tok s :
  refresh_access_token secret_key now'
    (refresh_token (generate_tokens secret_key now uid em held))
    = Some (Some tok) →
  space ∉ String.list_ascii_of_string s →
  jwt_parse s = Some tok →
  required ≠ [] →
  now' ≤ now'' < now' + SecurityConfig.JWT_ACCESS_TOKEN_EXPIRES →
  guard (Some required) now'' (Some ("Bearer " +:+ s))
  = Some (Forbidden "Insufficient permissions").
Proof.
  intros Hrefresh Hs Hparse Hne Hlt.
  destruct (refresh_of_issued_token_inv secret_key now now' uid em held tok
              Hrefresh) as (_ & Hkey & Hiat & Hexp & Hroles & Huid & Hem).
  rewrite (guard_bearer (Some required) now'' s (claims tok) uid em); try done.
  2:{ unfold verify_token_string. rewrite Hparse.
      rewrite (verify_token_window secret_key now'' tok _ _ Hkey Hiat Hexp).
      by rewrite bool_decide_eq_true_2. }
  unfold get. rewrite Hroles.
  change (default (VStrs []) (Some (VStrs []))) with (VStrs []).
  destruct required as [|r required]; [done|].
  rewrite any_role_in_strs.
  assert (existsb (λ r0 : string, bool_decide (r0 ∈ ([] : list string)))
            (r :: required) = false) as ->; [|done].
  clear. induction (r :: required) as [|r' l IH]; [done|].
  cbn [existsb]. rewrite IH. rewrite bool_decide_eq_false_2; [done|].
  apply not_elem_of_nil.
Qed.
End RouteGuardProperties.

Lemma guard_lets_only_verified_tokens_through_witness :
  ∃ payload,
    verify_token_string "k"
      (sample_parse
         (access_token (generate_tokens "k" 0 (VStr "u1") (VStr "a@b.c")
                          (VStrs ["user"]))))
      10 "tok" = Some payload
    ∧ payload !! "user_id" = Some (VStr "u1").
Proof.
  destruct (guard_lets_only_verified_tokens_through "k"
              (sample_parse
                 (access_token (generate_tokens "k" 0 (VStr "u1") (VStr "a@b.c")
                                  (VStrs ["user"]))))
              None 10 (Some "Bearer tok")
              {| cu_id := VStr "u1"; cu_email := VStr "a@b.c";
                 cu_roles := VStrs ["user"] |})
    as (h & tok & payload & Hh & _ & Htok & Hv & Huid & _).
  - vm_compute. reflexivity.
  - exists payload. injection Hh as <-.
    assert (tok = "tok") as -> by (vm_compute in Htok; congruence).
    split; [exact Hv | exact Huid].
Defined.

Lemma guard_checks_roles_of_token_witness :
  require_auth "k"
    (sample_parse
       (access_token (generate_tokens "k" 0 (VStr "u1") (VStr "a@b.c")
                        (VStrs ["user"]))))
    (Some ["admin"]) 10 (Some "Bearer tok")
  = Some (Forbidden "Insufficient permissions").
Proof.
  refine (eq_trans
            (guard_checks_roles_of_token "k" _ ["admin"] 0 10 (VStr "u1")
               (VStr "a@b.c") ["user"] "tok" _ _ _) _).
  - by_compute.
  - reflexivity.
  - by_compute.
  - reflexivity.
Defined.

Lemma guard_accepts_refresh_token_witness :
  require_auth "k"
    (sample_parse
       (refresh_token (generate_tokens "k" 0 (VStr "u1") (VStr "a@b.c")
                         (VStrs ["user"]))))
    None 86400 (Some "Bearer tok")
  = Some (Proceed {| cu_id := VStr "u1"; cu_email := VStr "a@b.c";
                     cu_roles := VStrs [] |}).
Proof.
  apply (guard_accepts_refresh_token "k" _ 0 86400 (VStr "u1") (VStr "a@b.c")
           (VStrs ["user"]) "tok").
  - by_compute.
  - reflexivity.
  - by_compute.
Defined.

Lemma guard_refuses_refreshed_token_witness :
  ∃ tok,
    refresh_access_token "k" 5
      (refresh_token (generate_tokens "k" 0 (VStr "u1") (VStr "a@b.c")
                        (VStrs ["admin"])))
    = Some (Some tok)
    ∧ require_auth "k" (sample_parse tok) (Some ["admin"]) 10
        (Some "Bearer tok")
      = Some (Forbidden "Insufficient permissions").
Proof.
  destruct (refresh_of_issued_token "k" 0 5 (VStr "u1") (VStr "a@b.c")
              (VStrs ["admin"])) as (tok & Hrun & _); [by_compute|].
  exists tok. split; [exact Hrun|].
  apply (guard_refuses_refreshed_token "k" (sample_parse tok) ["admin"] 0 5 10
           (VStr "u1") (VStr "a@b.c") (VStrs ["admin"]) tok "tok").
  - exact Hrun.
  - by_compute.
  - reflexivity.
  - discriminate.
  - by_compute.
Defined.

(** ** Anonymisation *)

Section AnonymizationProperties.
Variable py_str : value → string.
Variable sha256_hex : string → string.

Abbreviation anonymize := (anonymize_data py_str sha256_hex).
Abbreviation anonymize_one := (anonymize_field py_str sha256_hex).
Abbreviation pseudonym_of := (pseudonym py_str sha256_hex).

Lemma anonymize_field_other d field k :
  k ≠ field → anonymize_one d field !! k = d !! k.
Proof.
  intros Hne. unfold anonymize_field.
  destruct (d !! field); [by rewrite lookup_insert_ne|done].
Qed.

Lemma anonymize_field_same d field :
  anonymize_one d field !! field = pseudonym_of <$> d !! field.
Proof.
  unfold anonymize_field.
  destruct (d !! field) as [v|] eqn:Hv; [by rewrite lookup_insert_eq|].
  by rewrite Hv.
Qed.

Lemma anonymize_unlisted fields : ∀ d k,
  k ∉ fields → anonymize d fields !! k = d !! k.
Proof.
  induction fields as [|f fields IH]; intros d k Hk; [done|].
  apply not_elem_of_cons in Hk as [Hne Hk].
  cbn [anonymize_data foldl]. fold (anonymize (anonymize_one d f) fields).
  rewrite IH by done. by apply anonymize_field_other.
Qed.

(** X27: Anonymisation keeps the fields of the record and leaves every field
    that is not listed as it was; a listed field the record lacks is not
    added. *)
Theorem anonymize_touches_only_listed_fields d fields :
  dom (anonymize_data py_str sha256_hex d fields) = dom d
  ∧ ∀ k, k ∉ fields →
         anonymize_data py_str sha256_hex d fields !! k = d !! k.
Proof.
  split; [|intros k; apply anonymize_unlisted].
  revert d. induction fields as [|f fields IH]; intros d; [done|].
  cbn [anonymize_data foldl]. fold (anonymize (anonymize_one d f) fields).
  rewrite IH. unfold anonymize_field.
  destruct (d !! f) as [v|] eqn:Hv; [|done].
  rewrite dom_insert_L. apply elem_of_dom_2 in Hv.
  by apply subseteq_union_1_L, singleton_subseteq_l.
Qed.

(** X28: A field listed once and present in the record ends as the pseudonym
    of its value, which depends on the value through [str] alone: equal
    renderings give equal pseudonyms, in whatever records. *)
Theorem anonymize_replaces_listed_field d fields k v :
  NoDup fields → k ∈ fields → d !! k = Some v →
  anonymize_data py_str sha256_hex d fields !! k
  = Some (pseudonym py_str sha256_hex v)
  ∧ ∀ d' fields' v',
      NoDup fields' → k ∈ fields' → d' !! k = Some v' →
      py_str v' = py_str v →
      anonymize_data py_str sha256_hex d' fields' !! k
      = anonymize_data py_str sha256_hex d fields !! k.
Proof.
  assert (∀ fs d0 v0, NoDup fs → k ∈ fs → d0 !! k = Some v0 →
            anonymize d0 fs !! k = Some (pseudonym_of v0)) as Hone.
  { induction fs as [|f fs IH]; intros d0 v0 Hnd Hin Hv0.
    { by apply elem_of_nil in Hin. }
    apply NoDup_cons in Hnd as [Hf Hnd].
    cbn [anonymize_data foldl]. fold (anonymize (anonymize_one d0 f) fs).
    destruct (decide (k = f)) as [->|Hne].
    - rewrite anonymize_unlisted by done.
      by rewrite anonymize_field_same, Hv0.
    - apply elem_of_cons in Hin as [?|Hin]; [done|].
      apply IH; [done..|]. by rewrite anonymize_field_other. }
  intros Hnd Hin Hv. split; [by apply Hone|].
  intros d' fields' v' Hnd' Hin' Hv' Hstr.
  rewrite (Hone fields' d' v'), (Hone fields d v) by done.
  unfold pseudonym. by rewrite Hstr.
Qed.

End AnonymizationProperties.

Lemma anonymize_touches_only_listed_fields_witness :
  anonymize_data sample_str sample_sha256
    (<["email" := VStr "a@b.c"]> {["mood" := VInt 3]}) ["email"; "phone"]
    !! "mood" = Some (VInt 3).
Proof.
  rewrite (proj2 (anonymize_touches_only_listed_fields sample_str
                    sample_sha256
                    (<["email" := VStr "a@b.c"]> {["mood" := VInt 3]})
                    ["email"; "phone"]) "mood").
  - by_compute.
  - by_compute.
Defined.

Lemma anonymize_replaces_listed_field_witness :
  anonymize_data sample_str sample_sha256
    (<["email" := VStr "a@b.c"]> {["mood" := VInt 3]}) ["email"; "phone"]
    !! "email" = Some (pseudonym sample_str sample_sha256 (VStr "a@b.c")).
Proof.
  refine (proj1 (anonymize_replaces_listed_field sample_str sample_sha256
                   (<["email" := VStr "a@b.c"]> {["mood" := VInt 3]})
                   ["email"; "phone"] "email" (VStr "a@b.c") _ _ _)).
  - by_compute.
  - by_compute.
  - by_compute.
Defined.

(** ** PrivacyControls *)

Lemma ConsentType_of_value_inv s c :
  ConsentType_of_value s = Some c → consent_type_value c = s.
Proof.
  unfold ConsentType_of_value. intros H.
  apply List.find_some in H as [_ H]. by apply String.eqb_eq.
Qed.

Lemma ConsentType_of_value_value c :
  ConsentType_of_value (consent_type_value c) = Some c.
Proof. by destruct c. Qed.

Lemma record_consent_never_raises now uid ct g ip ua w :
  ∃ ok w', record_consent now uid ct g ip ua w = (Some ok, w').
Proof.
  unfold record_consent, try_except, mbind, M_bind, store_insert.
  rewrite execute_run. destruct (fault_at 0 w); simpl; eauto.
Qed.

(** X29: [update_consent] with the value of a category is [record_consent]
    for that category.  With any other string it answers [False] and
    makes no request at all: the store, the pending faults and the log
    are as before. *)
Theorem update_consent_by_value now uid g ip ua w :
  (∀ ct, update_consent now uid (consent_type_value ct) g ip ua w
         = record_consent now uid ct g ip ua w)
  ∧ (∀ s, (∀ ct, consent_type_value ct ≠ s) →
          update_consent now uid s g ip ua w = (Some false, w)).
Proof.
  split.
  - intros ct. unfold update_consent. rewrite ConsentType_of_value_value.
    unfold try_except.
    by destruct (record_consent_never_raises now uid ct g ip ua w)
      as (ok & w' & ->).
  - intros s Hs. unfold update_consent.
    destruct (ConsentType_of_value s) as [c|] eqn:Hc; [|done].
    apply ConsentType_of_value_inv in Hc. by destruct (Hs c).
Qed.

Lemma update_consent_by_value_witness :
  update_consent 7 "u1" "Marketing" true "10.0.0.1" "curl" (consent_world [])
  = (Some false, consent_world []).
Proof.
  apply (proj2 (update_consent_by_value 7 "u1" true "10.0.0.1" "curl"
                  (consent_world []))).
  intros []; discriminate.
Defined.

Lemma portable_step_records acc t records :
  t ≠ "user_profiles" → is_Some (acc !! t) →
  portable_step acc t records = <[t := PRecords records]> acc.
Proof.
  intros Hne Hin. unfold portable_step.
  rewrite (proj2 (String.eqb_neq t "user_profiles")) by done.
  by rewrite bool_decide_eq_true_2.
Qed.

Lemma portable_step_dropped acc t records :
  t ≠ "user_profiles" → acc !! t = None →
  portable_step acc t records = acc.
Proof.
  intros Hne Hin. unfold portable_step.
  rewrite (proj2 (String.eqb_neq t "user_profiles")) by done.
  rewrite bool_decide_eq_false_2; [done|]. rewrite Hin. by intros [? ?].
Qed.

Lemma portable_step_profile acc records :
  acc !! "user_profiles" = None →
  portable_step acc "user_profiles" records
  = match records with
    | r :: _ => <["user_profile" := PProfile r]> acc
    | [] => acc
    end.
Proof.
  intros Hin. unfold portable_step.
  change (String.eqb "user_profiles" "user_profiles") with true.
  destruct records; [|done].
  rewrite bool_decide_eq_false_2; [done|]. rewrite Hin. by intros [? ?].
Qed.

(** X30: The portable format of a user's data never raises, and never carries
    the health metrics, the productivity sessions or the consents the
    export collected: [health_data] and [productivity_data] are always
    empty.  The four other lists are the exported ones, and the profile
    is the first exported profile row. *)
Theorem portable_format_drops_health_data now uid w :
  ∃ p w',
    get_data_portability_format now uid w = (Some p, w')
    ∧ p !! "health_data" = Some (PRecords [])
    ∧ p !! "productivity_data" = Some (PRecords [])
    ∧ p !! "health_metrics" = None
    ∧ p !! "productivity_sessions" = None
    ∧ p !! "user_consents" = None
    ∧ p !! "user_profile"
      = Some (PProfile
                (default ∅ (head (if fault_at 0 w then []
                                  else user_rows uid (db w) "user_profiles"))))
    ∧ p !! "journal_entries"
      = Some (PRecords (if fault_at 1 w then []
                        else user_rows uid (db w) "journal_entries"))
    ∧ p !! "business_activities"
      = Some (PRecords (if fault_at 3 w then []
                        else user_rows uid (db w) "business_activities"))
    ∧ p !! "goals"
      = Some (PRecords (if fault_at 5 w then []
                        else user_rows uid (db w) "goals"))
    ∧ p !! "ai_interactions"
      = Some (PRecords (if fault_at 6 w then []
                        else user_rows uid (db w) "ai_interactions")).
Proof.
  destruct (export_user_data_spec now uid w)
    as (b & lg & Hexp & _ & _ & _ & Hdata).
  unfold get_data_portability_format, mbind, M_bind. rewrite Hexp.
  eexists _, _. split; [reflexivity|].
  unfold to_portable. cbn [foldl tables_to_export].
  rewrite (Hdata 0%nat "user_profiles" eq_refl),
    (Hdata 1%nat "journal_entries" eq_refl),
    (Hdata 2%nat "health_metrics" eq_refl),
    (Hdata 3%nat "business_activities" eq_refl),
    (Hdata 4%nat "productivity_sessions" eq_refl),
    (Hdata 5%nat "goals" eq_refl),
    (Hdata 6%nat "ai_interactions" eq_refl),
    (Hdata 7%nat "user_consents" eq_refl).
  generalize (if fault_at 0 w then [] else user_rows uid (db w) "user_profiles").
  generalize (if fault_at 1 w then [] else user_rows uid (db w) "journal_entries").
  generalize (if fault_at 2 w then [] else user_rows uid (db w) "health_metrics").
  generalize (if fault_at 3 w then []
              else user_rows uid (db w) "business_activities").
  generalize (if fault_at 4 w then []
              else user_rows uid (db w) "productivity_sessions").
  generalize (if fault_at 5 w then [] else user_rows uid (db w) "goals").
  generalize (if fault_at 6 w then []
              else user_rows uid (db w) "ai_interactions").
  generalize (if fault_at 7 w then [] else user_rows uid (db w) "user_consents").
  intros consents interactions goals sessions activities metrics entries
    profiles.
  rewrite portable_step_profile by (unfold portable_template; by map_lookup).
  assert (∃ r, (match profiles with
                | r :: _ => <["user_profile" := PProfile r]> portable_template
                | [] => portable_template
                end) = <["user_profile" := PProfile r]> portable_template
               ∧ default ∅ (head profiles) = r) as (r & -> & ->).
  { destruct profiles as [|r ?]; [exists ∅|by exists r].
    split; [|reflexivity].
    unfold portable_template. by rewrite insert_insert_eq. }
  unfold portable_template.
  rewrite (portable_step_records _ "journal_entries")
    by (try done; map_lookup; eauto).
  rewrite (portable_step_dropped _ "health_metrics")
    by (try done; by map_lookup).
  rewrite (portable_step_records _ "business_activities")
    by (try done; map_lookup; eauto).
  rewrite (portable_step_dropped _ "productivity_sessions")
    by (try done; by map_lookup).
  rewrite (portable_step_records _ "goals")
    by (try done; map_lookup; eauto).
  rewrite (portable_step_records _ "ai_interactions")
    by (try done; map_lookup; eauto).
  rewrite (portable_step_dropped _ "user_consents")
    by (try done; by map_lookup).
  repeat split; by map_lookup.
Qed.
